(** * link: pooled message buffers and the {packet, N} framing protocol

    A shallow embedding of the Go package [link] (the buffer pool with its
    incoming and outgoing buffers, and the length-prefixed packet protocol
    of packetn.go), followed by the properties of the embedded code.

    Go values are modelled as the code has them: [int] is a 64-bit signed
    integer, [uint32], [uint64] and [int32] wrap around, a byte is a [Z]
    in [0, 256), a slice is a window on a backing array, the two buffer
    structs live in a heap and are handled through pointers, and a panic
    is an outcome of its own that keeps the state reached so far. *)

From Stdlib Require Import String Ascii ZArith Lia List.
From stdpp Require Import base numbers list.
Import ListNotations.
Local Open Scope Z_scope.

(** ** Outcomes and the state-and-panic monad *)

Inductive outcome (A : Type) : Type :=
| Val (a : A)
| Panicked (msg : string).
Arguments Val {A} a.
Arguments Panicked {A} msg.

Definition M (S A : Type) : Type := S -> outcome A * S.

Definition ret {S A} (a : A) : M S A := fun s => (Val a, s).

Definition bind {S A B} (m : M S A) (k : A -> M S B) : M S B :=
  fun s => match m s with
           | (Val a, s') => k a s'
           | (Panicked msg, s') => (Panicked msg, s')
           end.

Definition panic {S A} (msg : string) : M S A := fun s => (Panicked msg, s).
Definition get {S} : M S S := fun s => (Val s, s).
Definition put {S} (s : S) : M S unit := fun _ => (Val tt, s).
Definition modify {S} (f : S -> S) : M S unit := fun s => (Val tt, f s).

Notation "x <- c ;; k" := (bind c (fun x => k))
  (at level 100, c at next level, right associativity).
Notation "c ;;; k" := (bind c (fun _ => k))
  (at level 100, right associativity).

(** Runs a computation on a component of a larger state. *)
Definition zoom {S T A} (proj : S -> T) (inj : T -> S -> S) (m : M T A) : M S A :=
  fun s => let '(o, t) := m (proj s) in (o, inj t s).

(** ** Machine integers *)

Definition byte : Type := Z.

Definition wrap_unsigned (w z : Z) : Z := z mod 2 ^ w.
Definition wrap_signed (w z : Z) : Z := (z + 2 ^ (w - 1)) mod 2 ^ w - 2 ^ (w - 1).

Definition to_byte : Z -> byte := wrap_unsigned 8.
Definition to_uint16 : Z -> Z := wrap_unsigned 16.
Definition to_uint32 : Z -> Z := wrap_unsigned 32.
Definition to_uint64 : Z -> Z := wrap_unsigned 64.
Definition to_int32 : Z -> Z := wrap_signed 32.
Definition to_int : Z -> Z := wrap_signed 64.

(** sync/atomic on a single thread of control. *)
Definition atomic_AddUint64 (c delta : Z) : Z := to_uint64 (c + delta).
Definition atomic_AddInt32 (c delta : Z) : Z := to_int32 (c + delta).

(** math.Float32bits and friends reinterpret the IEEE-754 bit pattern, so
    a float is carried as its bit pattern. *)
Definition float32 : Type := Z.
Definition float64 : Type := Z.
Definition math_Float32bits (f : float32) : Z := to_uint32 f.
Definition math_Float32frombits (b : Z) : float32 := to_uint32 b.
Definition math_Float64bits (f : float64) : Z := to_uint64 f.
Definition math_Float64frombits (b : Z) : float64 := to_uint64 b.

(** ** Panic messages *)

Definition msg_in_double_free : string := "link.InBuffer: double free"%string.
Definition msg_out_double_free : string := "link.OutBuffer: double free"%string.
Definition msg_too_large : string := "too large packet"%string.
Definition msg_unsupported : string := "unsupported packet head size"%string.
Definition msg_bounds : string := "runtime error: slice bounds out of range"%string.
Definition msg_index : string := "runtime error: index out of range"%string.
Definition msg_makeslice : string := "runtime error: makeslice: len out of range"%string.
Definition msg_makeslice_cap : string := "runtime error: makeslice: cap out of range"%string.
Definition msg_nil : string := "runtime error: invalid memory address or nil pointer dereference"%string.

(** ** Slices

    A slice is its backing array from the slice's first element on,
    together with its length; the capacity is the length of [arr]. Every
    slice of the package starts at the head of its array or is read
    only, so the part of the array before the window is not kept. *)

Record slice : Type := mkSlice { arr : list byte; len : nat }.

Definition nil_slice : slice := mkSlice [] 0.
Definition slice_len (s : slice) : Z := Z.of_nat (len s).
Definition slice_cap (s : slice) : Z := Z.of_nat (length (arr s)).

(** The bytes the slice exposes: [s[0:len(s)]]. *)
Definition bytes (s : slice) : list byte := take (len s) (arr s).

(** The allocation limit of the runtime ([maxAlloc] of package runtime,
    2^48 bytes on the 64-bit platforms): [make] panics for a size above
    it as it does for a negative one. The two definitions of [make]
    below are [make] up to this limit; what is proved of an allocation
    whose size the caller chooses has the limit as a hypothesis. *)
Definition maxAlloc : Z := 2 ^ 48.

(** [make([]byte, size)] *)
Definition make_len {S} (size : Z) : M S slice :=
  if size <? 0 then panic msg_makeslice
  else ret (mkSlice (replicate (Z.to_nat size) 0) (Z.to_nat size)).

(** [make([]byte, size, capacity)]: a negative length is a length out of
    range, a capacity below the length a capacity out of range. *)
Definition make_cap {S} (size capacity : Z) : M S slice :=
  if size <? 0 then panic msg_makeslice
  else if capacity <? size then panic msg_makeslice_cap
  else ret (mkSlice (replicate (Z.to_nat capacity) 0) (Z.to_nat size)).

(** [s[lo:hi]]: the bounds are checked against the capacity. *)
Definition reslice {S} (s : slice) (lo hi : Z) : M S slice :=
  if (0 <=? lo) && (lo <=? hi) && (hi <=? slice_cap s)
  then ret (mkSlice (drop (Z.to_nat lo) (arr s)) (Z.to_nat (hi - lo)))
  else panic msg_bounds.

(** [s[lo:]]: the upper bound is the length. *)
Definition reslice_from {S} (s : slice) (lo : Z) : M S slice :=
  if (0 <=? lo) && (lo <=? slice_len s)
  then ret (mkSlice (drop (Z.to_nat lo) (arr s)) (len s - Z.to_nat lo))
  else panic msg_bounds.

(** [copy(dst, src)] at the head of an array. *)
Definition copy_into (dst src : list byte) : list byte :=
  take (length dst) src ++ drop (length src) dst.

(** What the Go runtime leaves open: how far [append] grows a full array,
    and which of its items a [sync.Pool] hands out. *)
Class GoRuntime : Type := {
  growcap : nat -> nat -> nat;
  pick : forall A : Type, list A -> nat
}.

(** ** encoding/binary *)

Inductive ByteOrder : Type := LittleEndian | BigEndian.

Definition shl32 (b : byte) (k : Z) : Z := to_uint32 (Z.shiftl b k).
Definition shl64 (b : byte) (k : Z) : Z := to_uint64 (Z.shiftl b k).
Definition shl16 (b : byte) (k : Z) : Z := to_uint16 (Z.shiftl b k).

Definition Uint16 (bo : ByteOrder) (b : list byte) : option Z :=
  match b with
  | b0 :: b1 :: _ =>
      Some match bo with
           | LittleEndian => Z.lor b0 (shl16 b1 8)
           | BigEndian => Z.lor b1 (shl16 b0 8)
           end
  | _ => None
  end.

Definition Uint32 (bo : ByteOrder) (b : list byte) : option Z :=
  match b with
  | b0 :: b1 :: b2 :: b3 :: _ =>
      Some match bo with
           | LittleEndian =>
               Z.lor (Z.lor (Z.lor b0 (shl32 b1 8)) (shl32 b2 16)) (shl32 b3 24)
           | BigEndian =>
               Z.lor (Z.lor (Z.lor b3 (shl32 b2 8)) (shl32 b1 16)) (shl32 b0 24)
           end
  | _ => None
  end.

Definition Uint64 (bo : ByteOrder) (b : list byte) : option Z :=
  match b with
  | b0 :: b1 :: b2 :: b3 :: b4 :: b5 :: b6 :: b7 :: _ =>
      Some match bo with
           | LittleEndian =>
               Z.lor (Z.lor (Z.lor (Z.lor (Z.lor (Z.lor (Z.lor
                 b0 (shl64 b1 8)) (shl64 b2 16)) (shl64 b3 24)) (shl64 b4 32))
                 (shl64 b5 40)) (shl64 b6 48)) (shl64 b7 56)
           | BigEndian =>
               Z.lor (Z.lor (Z.lor (Z.lor (Z.lor (Z.lor (Z.lor
                 b7 (shl64 b6 8)) (shl64 b5 16)) (shl64 b4 24)) (shl64 b3 32))
                 (shl64 b2 40)) (shl64 b1 48)) (shl64 b0 56)
           end
  | _ => None
  end.

(** The four bytes [PutUint32] stores, in index order. *)
Definition uint32_bytes (bo : ByteOrder) (v : Z) : list byte :=
  match bo with
  | LittleEndian =>
      [to_byte v; to_byte (Z.shiftr v 8); to_byte (Z.shiftr v 16); to_byte (Z.shiftr v 24)]
  | BigEndian =>
      [to_byte (Z.shiftr v 24); to_byte (Z.shiftr v 16); to_byte (Z.shiftr v 8); to_byte v]
  end.

(** [bo.PutUint32(s[off:], v)]: the index check, then four stores through
    the window into the backing array. *)
Definition PutUint32 (bo : ByteOrder) (off : nat) (v : Z) : M slice unit :=
  s <- get ;;
  if (len s <? off + 4)%nat then panic msg_index
  else
    match uint32_bytes bo v with
    | [c0; c1; c2; c3] =>
        put (mkSlice (<[(off + 3)%nat := c3]> (<[(off + 2)%nat := c2]>
                       (<[(off + 1)%nat := c1]> (<[off := c0]> (arr s))))) (len s))
    | _ => panic msg_index
    end.

(** ** unicode/utf8 *)

Definition RuneError : Z := 0xFFFD.
Definition MaxRune : Z := 0x10FFFF.
Definition surrogateMin : Z := 0xD800.
Definition surrogateMax : Z := 0xDFFF.

Definition enc3 (r : Z) : list byte :=
  [Z.lor 0xE0 (to_byte (Z.shiftr r 12));
   Z.lor 0x80 (Z.land (to_byte (Z.shiftr r 6)) 0x3F);
   Z.lor 0x80 (Z.land (to_byte r) 0x3F)].

Definition enc4 (r : Z) : list byte :=
  [Z.lor 0xF0 (to_byte (Z.shiftr r 18));
   Z.lor 0x80 (Z.land (to_byte (Z.shiftr r 12)) 0x3F);
   Z.lor 0x80 (Z.land (to_byte (Z.shiftr r 6)) 0x3F);
   Z.lor 0x80 (Z.land (to_byte r) 0x3F)].

(** [utf8.EncodeRune]: the bytes stored at the head of [p]; their number
    is the function's result. [r] is an [int32]. *)
Definition EncodeRune (r : Z) : list byte :=
  if to_uint32 r <=? 0x7F then [to_byte r]
  else if to_uint32 r <=? 0x7FF then
    [Z.lor 0xC0 (to_byte (Z.shiftr r 6)); Z.lor 0x80 (Z.land (to_byte r) 0x3F)]
  else
    let r1 := if MaxRune <? to_uint32 r then RuneError else r in
    let r2 := if (surrogateMin <=? r1) && (r1 <=? surrogateMax) then RuneError else r1 in
    if to_uint32 r2 <=? 0xFFFF then enc3 r2 else enc4 r2.

(** The table [first] of package utf8: the low three bits give the size of
    the sequence, the high four the row of [acceptRanges]. *)
Definition first (b : byte) : Z :=
  if b <? 0x80 then 0xF0
  else if b <? 0xC2 then 0xF1
  else if b <? 0xE0 then 0x02
  else if b =? 0xE0 then 0x13
  else if b <? 0xED then 0x03
  else if b =? 0xED then 0x23
  else if b <? 0xF0 then 0x03
  else if b =? 0xF0 then 0x34
  else if b <? 0xF4 then 0x04
  else if b =? 0xF4 then 0x44
  else 0xF1.

Definition acceptRanges (i : Z) : Z * Z :=
  if i =? 0 then (0x80, 0xBF)
  else if i =? 1 then (0xA0, 0xBF)
  else if i =? 2 then (0x80, 0x9F)
  else if i =? 3 then (0x90, 0xBF)
  else (0x80, 0x8F).

Definition continuation (b : byte) : bool := (0x80 <=? b) && (b <=? 0xBF).

(** [utf8.DecodeRune]: the rune and its width in bytes. *)
Definition DecodeRune (p : list byte) : Z * Z :=
  match p with
  | [] => (RuneError, 0)
  | p0 :: t =>
      let x := first p0 in
      if 0xF0 <=? x then (if Z.testbit x 0 then RuneError else p0, 1)
      else
        let sz := Z.land x 7 in
        let '(lo, hi) := acceptRanges (Z.shiftr x 4) in
        if Z.of_nat (length p) <? sz then (RuneError, 1)
        else
          match t with
          | b1 :: t1 =>
              if (b1 <? lo) || (hi <? b1) then (RuneError, 1)
              else if sz <=? 2 then
                (Z.lor (Z.shiftl (Z.land p0 0x1F) 6) (Z.land b1 0x3F), 2)
              else
                match t1 with
                | b2 :: t2 =>
                    if negb (continuation b2) then (RuneError, 1)
                    else if sz <=? 3 then
                      (Z.lor (Z.lor (Z.shiftl (Z.land p0 0x0F) 12)
                                    (Z.shiftl (Z.land b1 0x3F) 6))
                             (Z.land b2 0x3F), 3)
                    else
                      match t2 with
                      | b3 :: _ =>
                          if negb (continuation b3) then (RuneError, 1)
                          else
                            (Z.lor (Z.lor (Z.lor (Z.shiftl (Z.land p0 0x07) 18)
                                                 (Z.shiftl (Z.land b1 0x3F) 12))
                                          (Z.shiftl (Z.land b2 0x3F) 6))
                                   (Z.land b3 0x3F), 4)
                      | [] => (RuneError, 1)
                      end
                | [] => (RuneError, 1)
                end
          | [] => (RuneError, 1)
          end
  end.

(** A rune that UTF-8 can carry: a Unicode scalar value. *)
Definition ValidRune (r : Z) : Prop :=
  0 <= r < surrogateMin \/ surrogateMax < r <= MaxRune.

(** ** Strings as byte sequences *)

Definition byte_of_ascii (c : ascii) : byte := Z.of_N (N_of_ascii c).
Definition ascii_of_byte (b : byte) : ascii := ascii_of_N (Z.to_N b).

Fixpoint bytes_of_string (s : string) : list byte :=
  match s with
  | EmptyString => []
  | String c s' => byte_of_ascii c :: bytes_of_string s'
  end.

Fixpoint string_of_bytes (l : list byte) : string :=
  match l with
  | [] => EmptyString
  | b :: l' => String (ascii_of_byte b) (string_of_bytes l')
  end.

(** ** io.ReadFull on a connection

    A connection is the bytes it will still deliver and the error its
    [Read] reports once they are used up ([EOF] for an orderly close).
    [requests] logs the length asked for by every [io.ReadFull]. *)

(** Modelled from the spec: the package variable [PacketTooLargeError]
    is declared outside the sources; it is the distinct "packet too
    large" condition, an error value of its own next to the two of
    package io and the errors of the transport. *)

Inductive error : Type :=
| EOF
| ErrUnexpectedEOF
| PacketTooLargeError
| TransportError (msg : string).

Record Conn : Type := mkConn {
  incoming : list byte;
  closing : error;
  requests : list nat
}.

(** [copy] of the bytes received to the head of the destination. *)
Definition fill (buf : slice) (got : list byte) : slice :=
  mkSlice (got ++ drop (length got) (arr buf)) (len buf).

(** The error of a read that fell short: [io.ReadFull] turns an [EOF] met
    after some bytes into [ErrUnexpectedEOF] and passes on anything else. *)
Definition short_read_error (c : Conn) : error :=
  match closing c with
  | EOF => match incoming c with [] => EOF | _ :: _ => ErrUnexpectedEOF end
  | e => e
  end.

(** [io.ReadFull(conn, buf)]: the connection and the buffer afterwards,
    and the error. *)
Definition io_ReadFull (c : Conn) (buf : slice) : Conn * slice * option error :=
  let n := len buf in
  let log := requests c ++ [n] in
  if (n <=? length (incoming c))%nat
  then (mkConn (drop n (incoming c)) (closing c) log,
        fill buf (take n (incoming c)), None)
  else (mkConn [] (closing c) log, fill buf (incoming c), Some (short_read_error c)).

(** ** The buffer structs *)

Record InBuffer : Type := mkInBuffer {
  in_Data : slice;
  ReadPos : Z;
  in_isFreed : bool
}.

Record OutBuffer : Type := mkOutBuffer {
  out_Data : slice;
  out_isFreed : bool;
  isBroadcast : bool;
  refCount : Z
}.

Definition in_set_Data (d : slice) (b : InBuffer) : InBuffer :=
  mkInBuffer d (ReadPos b) (in_isFreed b).
Definition in_set_ReadPos (z : Z) (b : InBuffer) : InBuffer :=
  mkInBuffer (in_Data b) z (in_isFreed b).
Definition in_set_isFreed (f : bool) (b : InBuffer) : InBuffer :=
  mkInBuffer (in_Data b) (ReadPos b) f.

Definition out_set_Data (d : slice) (b : OutBuffer) : OutBuffer :=
  mkOutBuffer d (out_isFreed b) (isBroadcast b) (refCount b).
Definition out_set_isFreed (f : bool) (b : OutBuffer) : OutBuffer :=
  mkOutBuffer (out_Data b) f (isBroadcast b) (refCount b).
Definition out_set_isBroadcast (f : bool) (b : OutBuffer) : OutBuffer :=
  mkOutBuffer (out_Data b) (out_isFreed b) f (refCount b).
Definition out_set_refCount (z : Z) (b : OutBuffer) : OutBuffer :=
  mkOutBuffer (out_Data b) (out_isFreed b) (isBroadcast b) z.

(** [new(InBuffer)] and [new(OutBuffer)]: the zero values. *)
Definition new_InBuffer : InBuffer := mkInBuffer nil_slice 0 false.
Definition new_OutBuffer : OutBuffer := mkOutBuffer nil_slice false false 0.

(** ** The buffer pool

    A sub-pool is the list of the items put back and not handed out
    since, the shells by their pointers. *)

Definition ptr : Type := nat.

Record bufferPool : Type := mkPool {
  pool_in : list ptr;
  getIn : Z;
  newIn : Z;
  pool_out : list ptr;
  getOut : Z;
  newOut : Z;
  pool_data : list slice;
  getData : Z;
  newData : Z;
  freeCount : Z;
  dropCount : Z;
  bufferInitSize : Z;
  bufferMaxSize : Z
}.

Definition set_pool_in (l : list ptr) (p : bufferPool) : bufferPool :=
  mkPool l (getIn p) (newIn p) (pool_out p) (getOut p) (newOut p) (pool_data p)
    (getData p) (newData p) (freeCount p) (dropCount p) (bufferInitSize p) (bufferMaxSize p).
Definition set_getIn (z : Z) (p : bufferPool) : bufferPool :=
  mkPool (pool_in p) z (newIn p) (pool_out p) (getOut p) (newOut p) (pool_data p)
    (getData p) (newData p) (freeCount p) (dropCount p) (bufferInitSize p) (bufferMaxSize p).
Definition set_newIn (z : Z) (p : bufferPool) : bufferPool :=
  mkPool (pool_in p) (getIn p) z (pool_out p) (getOut p) (newOut p) (pool_data p)
    (getData p) (newData p) (freeCount p) (dropCount p) (bufferInitSize p) (bufferMaxSize p).
Definition set_pool_out (l : list ptr) (p : bufferPool) : bufferPool :=
  mkPool (pool_in p) (getIn p) (newIn p) l (getOut p) (newOut p) (pool_data p)
    (getData p) (newData p) (freeCount p) (dropCount p) (bufferInitSize p) (bufferMaxSize p).
Definition set_getOut (z : Z) (p : bufferPool) : bufferPool :=
  mkPool (pool_in p) (getIn p) (newIn p) (pool_out p) z (newOut p) (pool_data p)
    (getData p) (newData p) (freeCount p) (dropCount p) (bufferInitSize p) (bufferMaxSize p).
Definition set_newOut (z : Z) (p : bufferPool) : bufferPool :=
  mkPool (pool_in p) (getIn p) (newIn p) (pool_out p) (getOut p) z (pool_data p)
    (getData p) (newData p) (freeCount p) (dropCount p) (bufferInitSize p) (bufferMaxSize p).
Definition set_pool_data (l : list slice) (p : bufferPool) : bufferPool :=
  mkPool (pool_in p) (getIn p) (newIn p) (pool_out p) (getOut p) (newOut p) l
    (getData p) (newData p) (freeCount p) (dropCount p) (bufferInitSize p) (bufferMaxSize p).
Definition set_getData (z : Z) (p : bufferPool) : bufferPool :=
  mkPool (pool_in p) (getIn p) (newIn p) (pool_out p) (getOut p) (newOut p) (pool_data p)
    z (newData p) (freeCount p) (dropCount p) (bufferInitSize p) (bufferMaxSize p).
Definition set_newData (z : Z) (p : bufferPool) : bufferPool :=
  mkPool (pool_in p) (getIn p) (newIn p) (pool_out p) (getOut p) (newOut p) (pool_data p)
    (getData p) z (freeCount p) (dropCount p) (bufferInitSize p) (bufferMaxSize p).
Definition set_freeCount (z : Z) (p : bufferPool) : bufferPool :=
  mkPool (pool_in p) (getIn p) (newIn p) (pool_out p) (getOut p) (newOut p) (pool_data p)
    (getData p) (newData p) z (dropCount p) (bufferInitSize p) (bufferMaxSize p).
Definition set_dropCount (z : Z) (p : bufferPool) : bufferPool :=
  mkPool (pool_in p) (getIn p) (newIn p) (pool_out p) (getOut p) (newOut p) (pool_data p)
    (getData p) (newData p) (freeCount p) z (bufferInitSize p) (bufferMaxSize p).
Definition set_bufferInitSize (z : Z) (p : bufferPool) : bufferPool :=
  mkPool (pool_in p) (getIn p) (newIn p) (pool_out p) (getOut p) (newOut p) (pool_data p)
    (getData p) (newData p) (freeCount p) (dropCount p) z (bufferMaxSize p).
Definition set_bufferMaxSize (z : Z) (p : bufferPool) : bufferPool :=
  mkPool (pool_in p) (getIn p) (newIn p) (pool_out p) (getOut p) (newOut p) (pool_data p)
    (getData p) (newData p) (freeCount p) (dropCount p) (bufferInitSize p) z.

Definition newBufferPool : bufferPool :=
  mkPool [] 0 0 [] 0 0 [] 0 0 0 0 4096 102400.

(** The process: the buffer structs allocated so far, addressed by
    pointers, and the package variable [globalPool]. *)
Record World : Type := mkWorld {
  inHeap : list InBuffer;
  outHeap : list OutBuffer;
  globalPool : bufferPool
}.

Definition initWorld : World := mkWorld [] [] newBufferPool.

Definition set_inHeap (h : list InBuffer) (w : World) : World :=
  mkWorld h (outHeap w) (globalPool w).
Definition set_outHeap (h : list OutBuffer) (w : World) : World :=
  mkWorld (inHeap w) h (globalPool w).
Definition upd_pool (f : bufferPool -> bufferPool) (w : World) : World :=
  mkWorld (inHeap w) (outHeap w) (f (globalPool w)).

Definition load_in (p : ptr) : M World InBuffer :=
  fun w => match inHeap w !! p with
           | Some b => (Val b, w)
           | None => (Panicked msg_nil, w)
           end.

Definition load_out (p : ptr) : M World OutBuffer :=
  fun w => match outHeap w !! p with
           | Some b => (Val b, w)
           | None => (Panicked msg_nil, w)
           end.

Definition update_in (p : ptr) (f : InBuffer -> InBuffer) : M World unit :=
  b <- load_in p ;; modify (fun w => set_inHeap (<[p := f b]> (inHeap w)) w).

Definition update_out (p : ptr) (f : OutBuffer -> OutBuffer) : M World unit :=
  b <- load_out p ;; modify (fun w => set_outHeap (<[p := f b]> (outHeap w)) w).

(** A method with a pointer receiver, run on the struct behind [p]. *)
Definition at_in {A} (p : ptr) (m : M InBuffer A) : M World A :=
  b <- load_in p ;;
  fun w => let '(o, b') := m b in (o, set_inHeap (<[p := b']> (inHeap w)) w).

Definition at_out {A} (p : ptr) (m : M OutBuffer A) : M World A :=
  b <- load_out p ;;
  fun w => let '(o, b') := m b in (o, set_outHeap (<[p := b']> (outHeap w)) w).

Section Pool.
Context `{GoRuntime}.

(** Modelled from the spec: the [Pool] type of github.com/catinred2/sync
    is not among the sources. [Get] hands out a recycled item when one
    is available, whichever the runtime picks, and constructs a fresh
    one only when none is: the item handed out and the items kept, or
    [None] when [New] is to be called. [Put] adds the item to the list. *)
Definition Pool_take {A} (items : list A) : option (A * list A) :=
  let i := (pick A items mod length items)%nat in
  match items !! i with
  | Some x => Some (x, delete i items)
  | None => None
  end.

(** [pool.in.Get()], with the [New] of newBufferPool. *)
Definition pool_in_Get : M World ptr :=
  w <- get ;;
  match Pool_take (pool_in (globalPool w)) with
  | Some (p, rest) => modify (upd_pool (set_pool_in rest)) ;;; ret p
  | None =>
      modify (upd_pool (fun g => set_newIn (atomic_AddUint64 (newIn g) 1) g)) ;;;
      modify (set_inHeap (inHeap w ++ [new_InBuffer])) ;;;
      ret (length (inHeap w))
  end.

Definition pool_out_Get : M World ptr :=
  w <- get ;;
  match Pool_take (pool_out (globalPool w)) with
  | Some (p, rest) => modify (upd_pool (set_pool_out rest)) ;;; ret p
  | None =>
      modify (upd_pool (fun g => set_newOut (atomic_AddUint64 (newOut g) 1) g)) ;;;
      modify (set_outHeap (outHeap w ++ [new_OutBuffer])) ;;;
      ret (length (outHeap w))
  end.

Definition pool_data_Get : M World slice :=
  w <- get ;;
  match Pool_take (pool_data (globalPool w)) with
  | Some (d, rest) => modify (upd_pool (set_pool_data rest)) ;;; ret d
  | None =>
      modify (upd_pool (fun g => set_newData (atomic_AddUint64 (newData g) 1) g)) ;;;
      make_cap 0 (bufferInitSize (globalPool w))
  end.

Definition GetInBuffer : M World ptr :=
  modify (upd_pool (fun g => set_getIn (atomic_AddUint64 (getIn g) 1) g)) ;;;
  modify (upd_pool (fun g => set_getData (atomic_AddUint64 (getData g) 1) g)) ;;;
  p <- pool_in_Get ;;
  d <- pool_data_Get ;;
  update_in p (in_set_Data d) ;;;
  update_in p (in_set_isFreed false) ;;;
  ret p.

Definition GetOutBuffer : M World ptr :=
  modify (upd_pool (fun g => set_getOut (atomic_AddUint64 (getOut g) 1) g)) ;;;
  modify (upd_pool (fun g => set_getData (atomic_AddUint64 (getData g) 1) g)) ;;;
  p <- pool_out_Get ;;
  d <- pool_data_Get ;;
  update_out p (out_set_Data d) ;;;
  update_out p (out_set_isFreed false) ;;;
  update_out p (out_set_isBroadcast false) ;;;
  update_out p (out_set_refCount 0) ;;;
  ret p.

Definition NewInBuffer : M World ptr := GetInBuffer.
Definition NewOutBuffer : M World ptr := GetOutBuffer.

End Pool.

Definition PutInBuffer (p : ptr) : M World unit :=
  modify (upd_pool (fun g => set_freeCount (atomic_AddUint64 (freeCount g) 1) g)) ;;;
  b <- load_in p ;;
  w <- get ;;
  if bufferMaxSize (globalPool w) <? slice_cap (in_Data b) then
    modify (upd_pool (fun g => set_dropCount (atomic_AddUint64 (dropCount g) 1) g))
  else
    d0 <- reslice (in_Data b) 0 0 ;;
    modify (upd_pool (fun g => set_pool_data (d0 :: pool_data g) g)) ;;;
    update_in p (in_set_Data nil_slice) ;;;
    update_in p (in_set_ReadPos 0) ;;;
    update_in p (in_set_isFreed true) ;;;
    modify (upd_pool (fun g => set_pool_in (p :: pool_in g) g)).

Definition PutOutBuffer (p : ptr) : M World unit :=
  modify (upd_pool (fun g => set_freeCount (atomic_AddUint64 (freeCount g) 1) g)) ;;;
  b <- load_out p ;;
  w <- get ;;
  if bufferMaxSize (globalPool w) <? slice_cap (out_Data b) then
    modify (upd_pool (fun g => set_dropCount (atomic_AddUint64 (dropCount g) 1) g))
  else
    d0 <- reslice (out_Data b) 0 0 ;;
    modify (upd_pool (fun g => set_pool_data (d0 :: pool_data g) g)) ;;;
    update_out p (out_set_Data nil_slice) ;;;
    update_out p (out_set_isFreed true) ;;;
    modify (upd_pool (fun g => set_pool_out (p :: pool_out g) g)).

(** [PoolNewDataSize] and [PoolMaxDataSize]: zero reads, anything else
    sets and returns the old value. *)
Definition PoolNewDataSize (size : Z) : M World Z :=
  w <- get ;;
  if size =? 0 then ret (bufferInitSize (globalPool w))
  else modify (upd_pool (set_bufferInitSize size)) ;;; ret (bufferInitSize (globalPool w)).

Definition PoolMaxDataSize (size : Z) : M World Z :=
  w <- get ;;
  if size =? 0 then ret (bufferMaxSize (globalPool w))
  else modify (upd_pool (set_bufferMaxSize size)) ;;; ret (bufferMaxSize (globalPool w)).

(** ** InBuffer *)

Definition InBuffer_Free (p : ptr) : M World unit :=
  b <- load_in p ;;
  if in_isFreed b then panic msg_in_double_free else PutInBuffer p.

Definition InBuffer_Prepare (size : Z) : M InBuffer unit :=
  b <- get ;;
  if slice_cap (in_Data b) <? size then
    d <- make_len size ;; put (in_set_Data d b)
  else
    d <- reslice (in_Data b) 0 size ;; put (in_set_Data d b).

(** [Slice] returns a view; its bytes are what the callers read. *)
Definition InBuffer_Slice (n : Z) : M InBuffer (list byte) :=
  b <- get ;;
  r <- reslice (in_Data b) (ReadPos b) (to_int (ReadPos b + n)) ;;
  put (in_set_ReadPos (to_int (ReadPos b + n)) b) ;;;
  ret (bytes r).

Definition InBuffer_ReadBytes (n : Z) : M InBuffer (list byte) :=
  x <- make_len n ;;
  r <- InBuffer_Slice n ;;
  ret (copy_into (arr x) r).

Definition InBuffer_ReadString (n : Z) : M InBuffer string :=
  r <- InBuffer_Slice n ;; ret (string_of_bytes r).

Definition InBuffer_ReadRune : M InBuffer Z :=
  b <- get ;;
  r <- reslice_from (in_Data b) (ReadPos b) ;;
  let '(x, size) := DecodeRune (bytes r) in
  put (in_set_ReadPos (to_int (ReadPos b + size)) b) ;;;
  ret x.

Definition InBuffer_ReadUint8 : M InBuffer Z :=
  r <- InBuffer_Slice 1 ;;
  match r with
  | b0 :: _ => ret b0
  | [] => panic msg_index
  end.

Definition read_with (n : Z) (dec : list byte -> option Z) : M InBuffer Z :=
  r <- InBuffer_Slice n ;;
  match dec r with
  | Some v => ret v
  | None => panic msg_index
  end.

Definition InBuffer_ReadUint16LE : M InBuffer Z := read_with 2 (Uint16 LittleEndian).
Definition InBuffer_ReadUint16BE : M InBuffer Z := read_with 2 (Uint16 BigEndian).
Definition InBuffer_ReadUint32LE : M InBuffer Z := read_with 4 (Uint32 LittleEndian).
Definition InBuffer_ReadUint32BE : M InBuffer Z := read_with 4 (Uint32 BigEndian).
Definition InBuffer_ReadUint64LE : M InBuffer Z := read_with 8 (Uint64 LittleEndian).
Definition InBuffer_ReadUint64BE : M InBuffer Z := read_with 8 (Uint64 BigEndian).

Definition InBuffer_ReadFloat32LE : M InBuffer float32 :=
  v <- InBuffer_ReadUint32LE ;; ret (math_Float32frombits v).
Definition InBuffer_ReadFloat32BE : M InBuffer float32 :=
  v <- InBuffer_ReadUint32BE ;; ret (math_Float32frombits v).
Definition InBuffer_ReadFloat64LE : M InBuffer float64 :=
  v <- InBuffer_ReadUint64LE ;; ret (math_Float64frombits v).
Definition InBuffer_ReadFloat64BE : M InBuffer float64 :=
  v <- InBuffer_ReadUint64BE ;; ret (math_Float64frombits v).

(** Modelled from the spec: the interface method [Get] that ReadPacket
    calls is not among the sources; the reader sizes the buffer and
    reads the payload into it, so [Get] hands out the field [Data]. *)
Definition InBuffer_Get (b : InBuffer) : slice := in_Data b.

(** An incoming buffer holding exactly the bytes [l], not yet read. *)
Definition InBuffer_on (l : list byte) : InBuffer :=
  mkInBuffer (mkSlice l (length l)) 0 false.

(** ** OutBuffer *)

Definition OutBuffer_Free (p : ptr) : M World unit :=
  b <- load_out p ;;
  if out_isFreed b then panic msg_out_double_free else PutOutBuffer p.

Definition OutBuffer_broadcastUse (p : ptr) : M World unit :=
  update_out p (fun b => out_set_refCount (atomic_AddInt32 (refCount b) 1) b).

Definition OutBuffer_broadcastFree (p : ptr) : M World unit :=
  b <- load_out p ;;
  if isBroadcast b then
    let c := atomic_AddInt32 (refCount b) (-1) in
    update_out p (out_set_refCount c) ;;;
    if c =? 0 then OutBuffer_Free p else ret tt
  else ret tt.

Definition OutBuffer_Prepare (size : Z) : M OutBuffer unit :=
  b <- get ;;
  if slice_cap (out_Data b) <? size then
    d <- make_cap 0 size ;; put (out_set_Data d b)
  else
    d <- reslice (out_Data b) 0 0 ;; put (out_set_Data d b).

(** Modelled from the spec: the two-argument [Prepare] of the buffer
    interface that BeginPacket calls is not among the sources. It
    reserves the header and the payload, leaves the header bytes
    zero-filled, and the caller then writes the payload after the
    header: the buffer holds [size] zero bytes in an array of
    [capacity] bytes. *)
Definition OutBuffer_Prepare2 (size capacity : Z) : M OutBuffer unit :=
  modify (out_set_Data
            (mkSlice (replicate (Z.to_nat (Z.max size capacity)) 0) (Z.to_nat size))).

(** Modelled from the spec: the interface methods [Len] and [Get] that
    the protocol calls are not among the sources. The payload length is
    the buffer length less the header width, and the full contents of
    the buffer are what is transmitted: the length of [Data], and
    [Data]. *)
Definition OutBuffer_Len (b : OutBuffer) : Z := slice_len (out_Data b).
Definition OutBuffer_Get (b : OutBuffer) : slice := out_Data b.

Section Append.
Context `{GoRuntime}.

(** The built-in [append]: in place when the array has room, into a
    larger array otherwise. *)
Definition append (s : slice) (p : list byte) : slice :=
  let need := (len s + length p)%nat in
  if (need <=? length (arr s))%nat
  then mkSlice (take (len s) (arr s) ++ p ++ drop need (arr s)) need
  else mkSlice (take (len s) (arr s) ++ p
                ++ replicate (Nat.max need (growcap (length (arr s)) need) - need) 0) need.

Definition OutBuffer_Append (p : list byte) : M OutBuffer unit :=
  modify (fun b => out_set_Data (append (out_Data b) p) b).

Definition OutBuffer_WriteBytes (d : list byte) : M OutBuffer unit :=
  OutBuffer_Append d.

Definition OutBuffer_WriteString (s : string) : M OutBuffer unit :=
  OutBuffer_Append (bytes_of_string s).

Definition OutBuffer_WriteRune (r : Z) : M OutBuffer unit :=
  OutBuffer_Append (EncodeRune r).

Definition OutBuffer_WriteUint8 (v : Z) : M OutBuffer unit :=
  OutBuffer_Append [to_byte v].

Definition OutBuffer_WriteUint16LE (v : Z) : M OutBuffer unit :=
  OutBuffer_Append [to_byte v; to_byte (Z.shiftr v 8)].

Definition OutBuffer_WriteUint16BE (v : Z) : M OutBuffer unit :=
  OutBuffer_Append [to_byte (Z.shiftr v 8); to_byte v].

Definition OutBuffer_WriteUint32LE (v : Z) : M OutBuffer unit :=
  OutBuffer_Append
    [to_byte v; to_byte (Z.shiftr v 8); to_byte (Z.shiftr v 16); to_byte (Z.shiftr v 24)].

Definition OutBuffer_WriteUint32BE (v : Z) : M OutBuffer unit :=
  OutBuffer_Append
    [to_byte (Z.shiftr v 24); to_byte (Z.shiftr v 16); to_byte (Z.shiftr v 8); to_byte v].

Definition OutBuffer_WriteUint64LE (v : Z) : M OutBuffer unit :=
  OutBuffer_Append
    [to_byte v; to_byte (Z.shiftr v 8); to_byte (Z.shiftr v 16); to_byte (Z.shiftr v 24);
     to_byte (Z.shiftr v 32); to_byte (Z.shiftr v 40); to_byte (Z.shiftr v 48);
     to_byte (Z.shiftr v 56)].

Definition OutBuffer_WriteUint64BE (v : Z) : M OutBuffer unit :=
  OutBuffer_Append
    [to_byte (Z.shiftr v 56); to_byte (Z.shiftr v 48); to_byte (Z.shiftr v 40);
     to_byte (Z.shiftr v 32); to_byte (Z.shiftr v 24); to_byte (Z.shiftr v 16);
     to_byte (Z.shiftr v 8); to_byte v].

Definition OutBuffer_WriteFloat32LE (v : float32) : M OutBuffer unit :=
  OutBuffer_WriteUint32LE (math_Float32bits v).
Definition OutBuffer_WriteFloat32BE (v : float32) : M OutBuffer unit :=
  OutBuffer_WriteUint32BE (math_Float32bits v).
Definition OutBuffer_WriteFloat64LE (v : float64) : M OutBuffer unit :=
  OutBuffer_WriteUint64LE (math_Float64bits v).
Definition OutBuffer_WriteFloat64BE (v : float64) : M OutBuffer unit :=
  OutBuffer_WriteUint64BE (math_Float64bits v).

End Append.

(** An outgoing buffer as the pool hands it out: nothing written yet, on
    whatever array the arena has. *)
Definition fresh_OutBuffer (arena : list byte) : OutBuffer :=
  mkOutBuffer (mkSlice arena 0) false false 0.

(** ** packetn.go *)

Record PNProtocol : Type := mkPNProtocol {
  pn_n : Z;
  pn_bo : ByteOrder;
  pn_id : Z
}.

Definition PacketN (n : Z) (bo : ByteOrder) (id : Z) : PNProtocol :=
  mkPNProtocol 8 bo id.

(** Modelled from the spec: the embedded struct [SimpleSettings] is not
    among the sources; it carries the maximum payload size, zero when
    none is configured. *)
Record SimpleSettings : Type := mkSettings { maxsize : Z }.

Record PNWriter : Type := mkPNWriter {
  w_settings : SimpleSettings;
  w_n : Z;
  w_bo : ByteOrder;
  w_id : Z
}.

Definition NewPNWriter (n : Z) (bo : ByteOrder) (id : Z) : PNWriter :=
  mkPNWriter (mkSettings 0) n bo id.

Definition PNProtocol_NewWriter (p : PNProtocol) : PNWriter :=
  NewPNWriter (pn_n p) (pn_bo p) (pn_id p).

Definition PNWriter_SetMaxSize (m : Z) (w : PNWriter) : PNWriter :=
  mkPNWriter (mkSettings m) (w_n w) (w_bo w) (w_id w).

Definition BeginPacket (w : PNWriter) (size : Z) : M OutBuffer unit :=
  let packetLen := to_int (w_n w + size) in
  OutBuffer_Prepare2 (w_n w) packetLen.

(** A method of the protocol run on the bytes of the buffer. *)
Definition on_out_Data {A} (m : M slice A) : M OutBuffer A :=
  zoom OutBuffer_Get out_set_Data m.

Definition EndPacket (w : PNWriter) : M OutBuffer unit :=
  b <- get ;;
  let size := to_int (OutBuffer_Len b - w_n w) in
  if (0 <? maxsize (w_settings w)) && (maxsize (w_settings w) <? size) then
    panic msg_too_large
  else if w_n w =? 8 then
    on_out_Data (PutUint32 (w_bo w) 0 (to_uint32 (w_id w))) ;;;
    on_out_Data (s <- get ;; reslice_from s 4) ;;;
    on_out_Data (PutUint32 (w_bo w) 4 (to_uint32 size))
  else panic msg_unsupported.

Record PNReader : Type := mkPNReader {
  r_settings : SimpleSettings;
  r_n : Z;
  r_bo : ByteOrder;
  r_id : Z;
  r_head : slice
}.

Definition NewPNReader {S} (n : Z) (bo : ByteOrder) (id : Z) : M S PNReader :=
  h <- make_len n ;; ret (mkPNReader (mkSettings 0) n bo id h).

Definition PNProtocol_NewReader {S} (p : PNProtocol) : M S PNReader :=
  NewPNReader (pn_n p) (pn_bo p) (pn_id p).

Definition PNReader_SetMaxSize (m : Z) (r : PNReader) : PNReader :=
  mkPNReader (mkSettings m) (r_n r) (r_bo r) (r_id r) (r_head r).

Definition r_set_head (h : slice) (r : PNReader) : PNReader :=
  mkPNReader (r_settings r) (r_n r) (r_bo r) (r_id r) h.

(** What a call of ReadPacket works on: the connection, the reader with
    its header scratch buffer, and the buffer supplied. *)
Record ReadState : Type := mkReadState {
  conn : Conn;
  reader : PNReader;
  buffer : InBuffer
}.

Definition read_header : M ReadState (option error) :=
  fun st =>
    let '(c, h, err) := io_ReadFull (conn st) (r_head (reader st)) in
    (Val err, mkReadState c (r_set_head h (reader st)) (buffer st)).

Definition read_payload : M ReadState (option error) :=
  fun st =>
    let '(c, d, err) := io_ReadFull (conn st) (InBuffer_Get (buffer st)) in
    (Val err, mkReadState c (reader st) (in_set_Data d (buffer st))).

Definition on_buffer {A} (m : M InBuffer A) : M ReadState A :=
  zoom buffer (fun b st => mkReadState (conn st) (reader st) b) m.

(** The switch on the header width: the payload length of the header. *)
Definition decode_size : M ReadState Z :=
  st <- get ;;
  let r := reader st in
  if r_n r =? 8 then
    h4 <- reslice_from (r_head r) 4 ;;
    match Uint32 (r_bo r) (bytes h4) with
    | Some v => ret (to_int v)
    | None => panic msg_index
    end
  else panic msg_unsupported.

Definition ReadPacket : M ReadState (option error) :=
  err <- read_header ;;
  match err with
  | Some e => ret (Some e)
  | None =>
      size <- decode_size ;;
      st <- get ;;
      let m := maxsize (r_settings (reader st)) in
      if (0 <? m) && (m <? size) then ret (Some PacketTooLargeError)
      else if size =? 0 then ret None
      else
        on_buffer (InBuffer_Prepare size) ;;;
        read_payload
  end.

(** ** Clients of the pool

    What the code around the pool does with it: acquire, free, change
    the configuration, and use the buffers it has a pointer to. A use
    may leave a buffer in any state (the fields [Data] and [ReadPos] are
    exported and [Prepare], [Slice] and the reads write them, the
    session layer sets [isBroadcast] and counts the users), whether the
    buffer is marked freed or not: no method but [Free] looks at the
    mark. A panic that the caller recovers from leaves the world as it
    was when raised. *)

Inductive action : Type :=
| ActNewIn
| ActNewOut
| ActFreeIn (p : ptr)
| ActFreeOut (p : ptr)
| ActUseIn (p : ptr) (d : slice) (pos : Z)
| ActUseOut (p : ptr) (d : slice) (bc : bool) (rc : Z)
| ActBroadcastUse (p : ptr)
| ActBroadcastFree (p : ptr)
| ActNewDataSize (size : Z)
| ActMaxDataSize (size : Z).

Definition use_in (p : ptr) (d : slice) (pos : Z) : M World unit :=
  update_in p (fun b => in_set_ReadPos pos (in_set_Data d b)).

Definition use_out (p : ptr) (d : slice) (bc : bool) (rc : Z) : M World unit :=
  update_out p (fun b => out_set_refCount rc (out_set_isBroadcast bc (out_set_Data d b))).

Definition discard {S A} (m : M S A) : M S unit := fun s => (Val tt, snd (m s)).

Section Clients.
Context `{GoRuntime}.

Definition exec (a : action) : M World unit :=
  match a with
  | ActNewIn => discard NewInBuffer
  | ActNewOut => discard NewOutBuffer
  | ActFreeIn p => discard (InBuffer_Free p)
  | ActFreeOut p => discard (OutBuffer_Free p)
  | ActUseIn p d pos => discard (use_in p d pos)
  | ActUseOut p d bc rc => discard (use_out p d bc rc)
  | ActBroadcastUse p => discard (OutBuffer_broadcastUse p)
  | ActBroadcastFree p => discard (OutBuffer_broadcastFree p)
  | ActNewDataSize size => discard (PoolNewDataSize size)
  | ActMaxDataSize size => discard (PoolMaxDataSize size)
  end.

Definition run (acts : list action) (w : World) : World :=
  fold_left (fun w a => snd (exec a w)) acts w.

(** The discipline the clients are expected to keep: an incoming buffer
    is not used while it is marked freed. [allowed] tells whether an
    action keeps it in a world, [disciplined] whether every action of a
    sequence does, each in the world the ones before it lead to. *)
Definition allowed (a : action) (w : World) : bool :=
  match a with
  | ActUseIn p _ _ =>
      match inHeap w !! p with
      | Some b => negb (in_isFreed b)
      | None => true
      end
  | _ => true
  end.

Fixpoint disciplined (acts : list action) (w : World) : bool :=
  match acts with
  | [] => true
  | a :: rest => allowed a w && disciplined rest (snd (exec a w))
  end.

End Clients.

(** A runtime to evaluate with: arrays double, pools are stacks. *)
Definition stack_runtime : GoRuntime :=
  {| growcap := fun c _ => (2 * c)%nat; pick := fun _ _ => 0%nat |}.

(** What the pool keeps true of the items it holds as long as the
    clients keep the discipline: the shells of incoming buffers are
    marked freed with the cursor at zero and occur once, every pooled
    pointer is allocated, and the arenas are empty. *)
Record pool_inv (w : World) : Prop := mkPoolInv {
  inv_in : forall p, p ∈ pool_in (globalPool w) ->
           exists b, inHeap w !! p = Some b /\ ReadPos b = 0 /\ in_isFreed b = true;
  inv_nodup : NoDup (pool_in (globalPool w));
  inv_out : forall p, p ∈ pool_out (globalPool w) -> (p < length (outHeap w))%nat;
  inv_data : forall d, d ∈ pool_data (globalPool w) -> len d = 0%nat
}.

(** The part of it that no use of a buffer can break: the cursors of
    the pooled shells are left out. *)
Record pool_sound (w : World) : Prop := mkPoolSound {
  sound_in : forall p, p ∈ pool_in (globalPool w) ->
             exists b, inHeap w !! p = Some b /\ in_isFreed b = true;
  sound_nodup : NoDup (pool_in (globalPool w));
  sound_out : forall p, p ∈ pool_out (globalPool w) -> (p < length (outHeap w))%nat;
  sound_data : forall d, d ∈ pool_data (globalPool w) -> len d = 0%nat
}.

(** ** The stream interfaces of the buffers *)

(** [copy(dst, src)] through a slice: the bytes land in its array. *)
Definition slice_copy (dst : slice) (src : list byte) : slice :=
  mkSlice (copy_into (bytes dst) src ++ drop (len dst) (arr dst)) (len dst).

(** [in.Read(b)] of io.Reader: the destination afterwards, the count and
    the error. *)
Definition InBuffer_Read (dst : slice) : M InBuffer (slice * Z * option error) :=
  b <- get ;;
  if ReadPos b =? slice_len (in_Data b) then ret (dst, 0, Some EOF)
  else
    let n := if slice_len (in_Data b) <? to_int (slice_len dst + ReadPos b)
             then to_int (slice_len (in_Data b) - ReadPos b)
             else slice_len dst in
    src <- reslice_from (in_Data b) (ReadPos b) ;;
    put (in_set_ReadPos (to_int (ReadPos b + n)) b) ;;;
    ret (slice_copy dst (bytes src), n, None).

Section Write.
Context `{GoRuntime}.

(** [out.Write(p)] of io.Writer. *)
Definition OutBuffer_Write (p : list byte) : M OutBuffer (Z * option error) :=
  modify (fun b => out_set_Data (append (out_Data b) p) b) ;;;
  ret (Z.of_nat (length p), None).

End Write.

(** ** Writing to a connection

    The write side of a connection: the bytes it has accepted, and, when
    it is going to fail, how many more it accepts and the error it
    reports then. *)

Record Sink : Type := mkSink {
  sent : list byte;
  room : option (nat * error)
}.

(** [conn.Write(p)]: the connection afterwards, the count, the error. *)
Definition conn_Write (k : Sink) (p : list byte) : Sink * Z * option error :=
  match room k with
  | None => (mkSink (sent k ++ p) None, Z.of_nat (length p), None)
  | Some (r, e) =>
      if (length p <=? r)%nat
      then (mkSink (sent k ++ p) (Some ((r - length p)%nat, e)), Z.of_nat (length p), None)
      else (mkSink (sent k ++ take r p) (Some (0%nat, e)), Z.of_nat r, Some e)
  end.

Definition WritePacket (w : PNWriter) (buffer : OutBuffer) : M Sink (option error) :=
  fun k => let '(k', _, err) := conn_Write k (bytes (OutBuffer_Get buffer)) in (Val err, k').

(** A byte as the type has it. *)
Definition is_byte (b : byte) : Prop := 0 <= b < 256.

(** [n] times the same step. *)
Fixpoint repeat_M {S} (n : nat) (m : M S unit) : M S unit :=
  match n with
  | O => ret tt
  | S n' => m ;;; repeat_M n' m
  end.

(** A slice as Go keeps it: the length within the capacity. *)
Definition wf_slice (s : slice) : Prop := (len s <= length (arr s))%nat.

(** Reads [w] bytes or panics, by the room left in the array. *)
Definition reads_in_capacity (b : InBuffer) (w : Z) (r : M InBuffer Z) : Prop :=
  (ReadPos b + w <= slice_cap (in_Data b) ->
     exists v, r b = (Val v, in_set_ReadPos (ReadPos b + w) b)) /\
  (slice_cap (in_Data b) < ReadPos b + w -> r b = (Panicked msg_bounds, b)).


(** An incoming buffer holding [data], read up to the end of [pre]. *)
Definition InBuffer_at (data pre : list byte) : InBuffer :=
  mkInBuffer (mkSlice data (length data)) (Z.of_nat (length pre)) false.

Section Message.
Context `{GoRuntime}.

(** A message of five fields, written and read field by field. *)
Definition write_message (k a : Z) (s : string) (c r : Z) : M OutBuffer unit :=
  OutBuffer_WriteUint8 k ;;;
  OutBuffer_WriteUint16BE a ;;;
  OutBuffer_WriteString s ;;;
  OutBuffer_WriteUint64LE c ;;;
  OutBuffer_WriteRune r.

End Message.

Definition read_message (n : Z) : M InBuffer (Z * Z * string * Z * Z) :=
  k <- InBuffer_ReadUint8 ;;
  a <- InBuffer_ReadUint16BE ;;
  s <- InBuffer_ReadString n ;;
  c <- InBuffer_ReadUint64LE ;;
  r <- InBuffer_ReadRune ;;
  ret (k, a, s, c, r).

(** Reads a value from an incoming buffer holding [l] and writes it to
    a fresh outgoing buffer: the bytes written. *)
Definition relay `{GoRuntime} (r : M InBuffer Z) (w : Z -> M OutBuffer unit)
    (l arena : list byte) : outcome (list byte) :=
  match r (InBuffer_on l) with
  | (Val v, _) => Val (bytes (out_Data (snd (w v (fresh_OutBuffer arena)))))
  | (Panicked msg, _) => Panicked msg
  end.

(** The world with the user count of the outgoing buffer [b] at [p] set
    to [c]. *)
Definition with_refCount (w : World) (p : ptr) (b : OutBuffer) (c : Z) : World :=
  set_outHeap (<[p := out_set_refCount c b]> (outHeap w)) w.

(** ** Scenarios to evaluate *)

Definition oversized : Z := 102401.

Definition free_twice_in : M World unit :=
  p <- @NewInBuffer stack_runtime ;;
  at_in p (InBuffer_Prepare oversized) ;;;
  InBuffer_Free p ;;;
  InBuffer_Free p.

Definition free_twice_out : M World unit :=
  p <- @NewOutBuffer stack_runtime ;;
  at_out p (OutBuffer_Prepare oversized) ;;;
  OutBuffer_Free p ;;;
  OutBuffer_Free p.

Definition release_twice : M World unit :=
  p <- @NewOutBuffer stack_runtime ;;
  update_out p (out_set_isBroadcast true) ;;;
  OutBuffer_broadcastUse p ;;;
  OutBuffer_broadcastFree p ;;;
  OutBuffer_broadcastFree p.

(** Writes into a fresh outgoing buffer, then reads from an incoming
    buffer holding the bytes written. *)
Definition round_trip `{GoRuntime} {A} (w : M OutBuffer unit) (r : M InBuffer A)
    (arena : list byte) : outcome A :=
  match w (fresh_OutBuffer arena) with
  | (Val _, out) => fst (r (InBuffer_on (bytes (out_Data out))))
  | (Panicked msg, _) => Panicked msg
  end.

(** A reader made for a four-byte header, and a connection closed
    before it delivered anything. *)
Definition width4_reader : PNReader :=
  mkPNReader (mkSettings 0) 4 BigEndian 123 (mkSlice [0; 0; 0; 0] 4).

Definition closed_conn : Conn := mkConn [] EOF [].

(** A writer made for a four-byte header with a maximum size of one, and
    a buffer of ten bytes. *)
Definition width4_writer : PNWriter :=
  PNWriter_SetMaxSize 1 (NewPNWriter 4 BigEndian 123).

Definition ten_bytes : OutBuffer :=
  mkOutBuffer (mkSlice (replicate 10 0) 10) false false 0.

(** A reader as the protocol of PacketN makes it, with a maximum
    payload size of one hundred bytes. *)
Definition reader100 : PNReader :=
  PNReader_SetMaxSize 100 (mkPNReader (mkSettings 0) 8 BigEndian 123 (mkSlice (replicate 8 0) 8)).

(** A header announcing 101 bytes followed by three bytes of payload, a
    header announcing no payload followed by the next frame, and a
    connection closed after three bytes. *)
Definition header101 : list byte := [0; 0; 0; 123; 0; 0; 0; 101].
Definition header0 : list byte := [0; 0; 0; 123; 0; 0; 0; 0].
Definition conn101 : Conn := mkConn (header101 ++ [7; 7; 7]) EOF [].
Definition conn0 : Conn := mkConn (header0 ++ [7; 7; 7]) EOF [].
Definition conn3 : Conn := mkConn [0; 0; 0] EOF [].

(** An incoming buffer still holding an earlier message. *)
Definition used_InBuffer : InBuffer := InBuffer_on [1; 2; 3; 4; 5].

(** A writer of the protocol made by [PacketN 2 BigEndian 123]. *)
Definition writer123 : PNWriter := PNProtocol_NewWriter (PacketN 2 BigEndian 123).

(** A client that sets the initial capacity, acquires an incoming
    buffer, fills and reads it, and frees it, and does the same with an
    outgoing buffer. *)
Definition one_round : list action :=
  [ActNewDataSize 16; ActNewIn; ActUseIn 0%nat (mkSlice [1; 2; 3] 3) 2; ActFreeIn 0%nat;
   ActNewOut; ActUseOut 0%nat (mkSlice [4; 5] 2) true 3; ActFreeOut 0%nat].

(** The world after one acquire of each kind, and the world in which the
    outgoing buffer was broadcast to one user and released by it. *)
Definition world_acquired : World :=
  snd ((@NewInBuffer stack_runtime ;;; @NewOutBuffer stack_runtime) initWorld).

Definition world_released : World :=
  snd ((update_out 0%nat (out_set_isBroadcast true) ;;;
        OutBuffer_broadcastUse 0%nat ;;;
        OutBuffer_broadcastFree 0%nat) world_acquired).

(** A reader as the protocol of PacketN makes it, and a source holding
    one frame of three payload bytes behind four bytes that are not the
    protocol id, followed by one more byte. *)
Definition reader8 : PNReader :=
  mkPNReader (mkSettings 0) 8 BigEndian 123 (mkSlice (replicate 8 0) 8).

Definition conn_frame3 : Conn :=
  mkConn ([9; 9; 9; 9] ++ [0; 0; 0; 3] ++ [7; 7; 7] ++ [1]) EOF [].

(** A connection that accepts whatever is written. *)
Definition open_sink : Sink := mkSink [] None.

(** The pool configured with a negative initial capacity. *)
Definition world_negative : World :=
  snd (PoolNewDataSize (-1) initWorld).

(** The world after one acquire of each kind, the outgoing buffer marked
    for broadcast. *)
Definition world_broadcast : World :=
  snd (update_out 0%nat (out_set_isBroadcast true) world_acquired).


Definition live_in16 : InBuffer :=
  mkInBuffer (mkSlice (replicate 16 0) 0) 0 false.

(** A client frees an incoming buffer, the pool hands the shell out
    again, and the first client frees it once more through the pointer
    it kept, which [Free] does not detect: the shell is marked freed
    while the second client holds it, prepares it for four bytes and
    reads them. The same as actions of the clients. *)
Definition stale_use : M World unit :=
  p <- @NewInBuffer stack_runtime ;;
  InBuffer_Free p ;;;
  q <- @NewInBuffer stack_runtime ;;
  InBuffer_Free p ;;;
  at_in q (InBuffer_Prepare 4) ;;;
  at_in q InBuffer_ReadUint32LE ;;;
  ret tt.

Definition stale_acts : list action :=
  [ActNewIn; ActFreeIn 0%nat; ActNewIn; ActFreeIn 0%nat;
   ActUseIn 0%nat (mkSlice [0; 0; 0; 0] 4) 4].

(** A client that keeps one incoming buffer and has freed another. *)
Definition world_pooled : World :=
  @run stack_runtime [ActNewDataSize 16; ActNewIn; ActNewIn; ActFreeIn 1%nat] initWorld.

(** The field updates compute away under [cbn]. *)
Arguments in_set_Data d b /.
Arguments in_set_ReadPos z b /.
Arguments in_set_isFreed f b /.
Arguments out_set_Data d b /.
Arguments out_set_isFreed f b /.
Arguments out_set_isBroadcast f b /.
Arguments out_set_refCount z b /.
Arguments set_pool_in l p /.
Arguments set_getIn z p /.
Arguments set_newIn z p /.
Arguments set_pool_out l p /.
Arguments set_getOut z p /.
Arguments set_newOut z p /.
Arguments set_pool_data l p /.
Arguments set_getData z p /.
Arguments set_newData z p /.
Arguments set_freeCount z p /.
Arguments set_dropCount z p /.
Arguments set_bufferInitSize z p /.
Arguments set_bufferMaxSize z p /.
Arguments set_inHeap h w /.
Arguments set_outHeap h w /.
Arguments upd_pool f w /.
Arguments r_set_head h r /.

(** * Properties *)

(** ** The monad, the heap *)

Lemma load_in_Some w p b :
  inHeap w !! p = Some b -> load_in p w = (Val b, w).
Proof. intros E. unfold load_in. now rewrite E. Qed.

Lemma load_out_Some w p b :
  outHeap w !! p = Some b -> load_out p w = (Val b, w).
Proof. intros E. unfold load_out. now rewrite E. Qed.

Lemma update_in_Some w p b f :
  inHeap w !! p = Some b ->
  update_in p f w = (Val tt, set_inHeap (<[p := f b]> (inHeap w)) w).
Proof. intros E. unfold update_in, bind. now rewrite (load_in_Some _ _ _ E). Qed.

Lemma update_out_Some w p b f :
  outHeap w !! p = Some b ->
  update_out p f w = (Val tt, set_outHeap (<[p := f b]> (outHeap w)) w).
Proof. intros E. unfold update_out, bind. now rewrite (load_out_Some _ _ _ E). Qed.

Lemma lookup_stored {A} (h : list A) p (b x : A) :
  h !! p = Some b -> <[p := x]> h !! p = Some x.
Proof. intros E. apply list_lookup_insert_eq. eapply lookup_lt_Some; eauto. Qed.

Lemma stored_twice {A} (h : list A) p (x y : A) :
  <[p := y]> (<[p := x]> h) = <[p := y]> h.
Proof. apply list_insert_insert_eq. Qed.

(** ** Release *)

Lemma PutInBuffer_drop w p b :
  inHeap w !! p = Some b ->
  bufferMaxSize (globalPool w) < slice_cap (in_Data b) ->
  PutInBuffer p w =
    (Val tt,
     upd_pool (fun g => set_dropCount (atomic_AddUint64 (dropCount g) 1)
                          (set_freeCount (atomic_AddUint64 (freeCount g) 1) g)) w).
Proof.
  intros E Hc. destruct w as [ih oh g]; destruct g; cbn in *.
  unfold PutInBuffer, bind, modify, get, load_in. cbn. rewrite E. cbn.
  apply Z.ltb_lt in Hc. now rewrite Hc.
Qed.

Lemma PutInBuffer_recycle w p b :
  inHeap w !! p = Some b ->
  slice_cap (in_Data b) <= bufferMaxSize (globalPool w) ->
  PutInBuffer p w =
    (Val tt,
     mkWorld (<[p := mkInBuffer nil_slice 0 true]> (inHeap w)) (outHeap w)
       (set_pool_in (p :: pool_in (globalPool w))
          (set_pool_data (mkSlice (arr (in_Data b)) 0 :: pool_data (globalPool w))
             (set_freeCount (atomic_AddUint64 (freeCount (globalPool w)) 1)
                (globalPool w))))).
Proof.
  intros E Hc. destruct w as [ih oh g]; destruct g; cbn in *.
  unfold PutInBuffer, bind, modify, get, load_in. cbn. rewrite E. cbn.
  apply Z.ltb_ge in Hc. rewrite Hc.
  unfold reslice. cbn.
  replace (0 <=? slice_cap (in_Data b)) with true
    by (symmetry; apply Z.leb_le; unfold slice_cap; lia).
  cbn. unfold update_in, bind, load_in, modify. cbn. rewrite E.
  cbn. rewrite !(lookup_stored _ _ _ _ E). cbn.
  erewrite !lookup_stored by (try eapply lookup_stored; exact E). cbn.
  rewrite !stored_twice. reflexivity.
Qed.

Lemma PutOutBuffer_drop w p b :
  outHeap w !! p = Some b ->
  bufferMaxSize (globalPool w) < slice_cap (out_Data b) ->
  PutOutBuffer p w =
    (Val tt,
     upd_pool (fun g => set_dropCount (atomic_AddUint64 (dropCount g) 1)
                          (set_freeCount (atomic_AddUint64 (freeCount g) 1) g)) w).
Proof.
  intros E Hc. destruct w as [ih oh g]; destruct g; cbn in *.
  unfold PutOutBuffer, bind, modify, get, load_out. cbn. rewrite E. cbn.
  apply Z.ltb_lt in Hc. now rewrite Hc.
Qed.

Lemma PutOutBuffer_recycle w p b :
  outHeap w !! p = Some b ->
  slice_cap (out_Data b) <= bufferMaxSize (globalPool w) ->
  PutOutBuffer p w =
    (Val tt,
     mkWorld (inHeap w)
       (<[p := mkOutBuffer nil_slice true (isBroadcast b) (refCount b)]> (outHeap w))
       (set_pool_out (p :: pool_out (globalPool w))
          (set_pool_data (mkSlice (arr (out_Data b)) 0 :: pool_data (globalPool w))
             (set_freeCount (atomic_AddUint64 (freeCount (globalPool w)) 1)
                (globalPool w))))).
Proof.
  intros E Hc. destruct w as [ih oh g]; destruct g; cbn in *.
  unfold PutOutBuffer, bind, modify, get, load_out. cbn. rewrite E. cbn.
  apply Z.ltb_ge in Hc. rewrite Hc.
  unfold reslice. cbn.
  replace (0 <=? slice_cap (out_Data b)) with true
    by (symmetry; apply Z.leb_le; unfold slice_cap; lia).
  cbn. unfold update_out, bind, load_out, modify. cbn. rewrite E.
  cbn. rewrite !(lookup_stored _ _ _ _ E). cbn.
  rewrite !stored_twice. reflexivity.
Qed.

(** C8. Every release counts one more free. An arena larger than the
    configured maximum counts one more drop and nothing goes back to a
    sub-pool; otherwise the arena, cut to length zero, and the shell go
    back to their sub-pools and the shell is marked freed. *)
Theorem release_counts_and_recycles (w : World) (p : ptr) :
  (forall b, inHeap w !! p = Some b ->
     exists w', PutInBuffer p w = (Val tt, w') /\
       freeCount (globalPool w') = atomic_AddUint64 (freeCount (globalPool w)) 1 /\
       outHeap w' = outHeap w /\
       pool_out (globalPool w') = pool_out (globalPool w) /\
       (bufferMaxSize (globalPool w) < slice_cap (in_Data b) ->
          dropCount (globalPool w') = atomic_AddUint64 (dropCount (globalPool w)) 1 /\
          pool_in (globalPool w') = pool_in (globalPool w) /\
          pool_data (globalPool w') = pool_data (globalPool w) /\
          inHeap w' = inHeap w) /\
       (slice_cap (in_Data b) <= bufferMaxSize (globalPool w) ->
          dropCount (globalPool w') = dropCount (globalPool w) /\
          pool_in (globalPool w') = p :: pool_in (globalPool w) /\
          pool_data (globalPool w') =
            mkSlice (arr (in_Data b)) 0 :: pool_data (globalPool w) /\
          inHeap w' !! p = Some (mkInBuffer nil_slice 0 true)))
  /\
  (forall b, outHeap w !! p = Some b ->
     exists w', PutOutBuffer p w = (Val tt, w') /\
       freeCount (globalPool w') = atomic_AddUint64 (freeCount (globalPool w)) 1 /\
       inHeap w' = inHeap w /\
       pool_in (globalPool w') = pool_in (globalPool w) /\
       (bufferMaxSize (globalPool w) < slice_cap (out_Data b) ->
          dropCount (globalPool w') = atomic_AddUint64 (dropCount (globalPool w)) 1 /\
          pool_out (globalPool w') = pool_out (globalPool w) /\
          pool_data (globalPool w') = pool_data (globalPool w) /\
          outHeap w' = outHeap w) /\
       (slice_cap (out_Data b) <= bufferMaxSize (globalPool w) ->
          dropCount (globalPool w') = dropCount (globalPool w) /\
          pool_out (globalPool w') = p :: pool_out (globalPool w) /\
          pool_data (globalPool w') =
            mkSlice (arr (out_Data b)) 0 :: pool_data (globalPool w) /\
          outHeap w' !! p =
            Some (mkOutBuffer nil_slice true (isBroadcast b) (refCount b)))).
Proof.
  split; intros b E.
  - destruct (Z_lt_le_dec (bufferMaxSize (globalPool w)) (slice_cap (in_Data b))) as [Hc|Hc].
    + eexists. split; [apply (PutInBuffer_drop _ _ _ E Hc)|].
      cbn. repeat split; try reflexivity; intros; lia.
    + eexists. split; [apply (PutInBuffer_recycle _ _ _ E Hc)|].
      cbn. repeat split; try reflexivity; try (intros; lia).
      eapply lookup_stored; exact E.
  - destruct (Z_lt_le_dec (bufferMaxSize (globalPool w)) (slice_cap (out_Data b))) as [Hc|Hc].
    + eexists. split; [apply (PutOutBuffer_drop _ _ _ E Hc)|].
      cbn. repeat split; try reflexivity; intros; lia.
    + eexists. split; [apply (PutOutBuffer_recycle _ _ _ E Hc)|].
      cbn. repeat split; try reflexivity; try (intros; lia).
      eapply lookup_stored; exact E.
Qed.

Lemma Free_in_live w p b :
  inHeap w !! p = Some b -> in_isFreed b = false ->
  InBuffer_Free p w = PutInBuffer p w.
Proof.
  intros E F. unfold InBuffer_Free, bind. rewrite (load_in_Some _ _ _ E). now rewrite F.
Qed.

Lemma Free_in_freed w p b :
  inHeap w !! p = Some b -> in_isFreed b = true ->
  InBuffer_Free p w = (Panicked msg_in_double_free, w).
Proof.
  intros E F. unfold InBuffer_Free, bind. rewrite (load_in_Some _ _ _ E). now rewrite F.
Qed.

Lemma Free_out_live w p b :
  outHeap w !! p = Some b -> out_isFreed b = false ->
  OutBuffer_Free p w = PutOutBuffer p w.
Proof.
  intros E F. unfold OutBuffer_Free, bind. rewrite (load_out_Some _ _ _ E). now rewrite F.
Qed.

Lemma Free_out_freed w p b :
  outHeap w !! p = Some b -> out_isFreed b = true ->
  OutBuffer_Free p w = (Panicked msg_out_double_free, w).
Proof.
  intros E F. unfold OutBuffer_Free, bind. rewrite (load_out_Some _ _ _ E). now rewrite F.
Qed.

(** After a release that recycled the buffer, a second [Free] panics. *)
Lemma InBuffer_Free_twice_recycled w p b :
  inHeap w !! p = Some b -> in_isFreed b = false ->
  slice_cap (in_Data b) <= bufferMaxSize (globalPool w) ->
  exists w1, InBuffer_Free p w = (Val tt, w1) /\
             InBuffer_Free p w1 = (Panicked msg_in_double_free, w1).
Proof.
  intros E F Hc. eexists. split.
  - rewrite (Free_in_live _ _ _ E F). apply (PutInBuffer_recycle _ _ _ E Hc).
  - eapply Free_in_freed; [cbn; eapply lookup_stored; exact E | reflexivity].
Qed.

Lemma OutBuffer_Free_twice_recycled w p b :
  outHeap w !! p = Some b -> out_isFreed b = false ->
  slice_cap (out_Data b) <= bufferMaxSize (globalPool w) ->
  exists w1, OutBuffer_Free p w = (Val tt, w1) /\
             OutBuffer_Free p w1 = (Panicked msg_out_double_free, w1).
Proof.
  intros E F Hc. eexists. split.
  - rewrite (Free_out_live _ _ _ E F). apply (PutOutBuffer_recycle _ _ _ E Hc).
  - eapply Free_out_freed; [cbn; eapply lookup_stored; exact E | reflexivity].
Qed.

(** After a release that dropped the buffer, the shell is not marked and
    a second [Free] goes through the pool once more. *)
Lemma InBuffer_Free_twice_dropped w p b :
  inHeap w !! p = Some b -> in_isFreed b = false ->
  bufferMaxSize (globalPool w) < slice_cap (in_Data b) ->
  exists w1 w2, InBuffer_Free p w = (Val tt, w1) /\
                InBuffer_Free p w1 = (Val tt, w2) /\
                inHeap w2 = inHeap w.
Proof.
  intros E F Hc. eexists. eexists. split; [|split].
  - rewrite (Free_in_live _ _ _ E F). apply (PutInBuffer_drop _ _ _ E Hc).
  - rewrite (Free_in_live _ _ b); [apply (PutInBuffer_drop _ _ b)| |]; cbn; auto.
  - reflexivity.
Qed.

(** C1. At an incoming and at an outgoing buffer whose arena has grown
    past the maximum recyclable capacity, the second [Free] returns
    normally: no panic, and the free and the drop are counted twice. *)
Theorem double_free_after_drop_is_silent :
  (fst (free_twice_in initWorld) = Val tt /\
   freeCount (globalPool (snd (free_twice_in initWorld))) = 2 /\
   dropCount (globalPool (snd (free_twice_in initWorld))) = 2) /\
  (fst (free_twice_out initWorld) = Val tt /\
   freeCount (globalPool (snd (free_twice_out initWorld))) = 2 /\
   dropCount (globalPool (snd (free_twice_out initWorld))) = 2).
Proof. vm_compute. repeat split. Qed.

(** ** Broadcast release *)

(** C6, as stated, fails: one use, two releases, and the second release
    returns normally with the count at minus one. *)
Lemma over_release_is_silent :
  fst (release_twice initWorld) = Val tt /\
  (refCount <$> outHeap (snd (release_twice initWorld)) !! 0%nat) = Some (-1).
Proof. vm_compute. split; reflexivity. Qed.

(** C6, amended. A broadcast release does nothing on a buffer that is not
    marked broadcast; on one that is, it decrements the count and returns
    normally whenever the new count is not zero, below zero included;
    when the new count is zero it frees the buffer, so the only panic it
    can raise is the double-free panic of [Free] on a buffer already
    freed. *)
Theorem broadcastFree_ignores_over_release (w : World) (p : ptr) (b : OutBuffer) :
  outHeap w !! p = Some b ->
  let c := atomic_AddInt32 (refCount b) (-1) in
  let w1 := set_outHeap (<[p := out_set_refCount c b]> (outHeap w)) w in
  (isBroadcast b = false -> OutBuffer_broadcastFree p w = (Val tt, w)) /\
  (isBroadcast b = true -> c <> 0 -> OutBuffer_broadcastFree p w = (Val tt, w1)) /\
  (isBroadcast b = true -> c = 0 -> out_isFreed b = false ->
     OutBuffer_broadcastFree p w = PutOutBuffer p w1) /\
  (isBroadcast b = true -> c = 0 -> out_isFreed b = true ->
     OutBuffer_broadcastFree p w = (Panicked msg_out_double_free, w1)).
Proof.
  intros E c w1.
  assert (E1 : outHeap w1 !! p = Some (out_set_refCount c b))
    by (cbn; eapply lookup_stored; exact E).
  unfold OutBuffer_broadcastFree, bind. rewrite (load_out_Some _ _ _ E).
  repeat split; intros Hb; rewrite Hb; try reflexivity;
    fold c; rewrite (update_out_Some _ _ _ _ E); fold w1; intros Hc.
  - apply Z.eqb_neq in Hc. now rewrite Hc.
  - intros F. rewrite Hc. cbn [Z.eqb]. eapply Free_out_live; [exact E1 | exact F].
  - intros F. rewrite Hc. cbn [Z.eqb]. eapply Free_out_freed; [exact E1 | exact F].
Qed.

(** ** Reading a packet *)

Lemma read_header_full c r b hdr rest :
  incoming c = hdr ++ rest -> length hdr = len (r_head r) ->
  read_header (mkReadState c r b) =
    (Val None,
     mkReadState (mkConn rest (closing c) (requests c ++ [len (r_head r)]))
       (r_set_head (fill (r_head r) hdr) r) b).
Proof.
  intros Ei El. unfold read_header, io_ReadFull. cbn.
  rewrite Ei, <- El, length_app.
  replace (length hdr <=? length hdr + length rest)%nat with true
    by (symmetry; apply Nat.leb_le; lia).
  now rewrite take_app_length, drop_app_length.
Qed.

Lemma read_header_short c r b :
  (length (incoming c) < len (r_head r))%nat ->
  read_header (mkReadState c r b) =
    (Val (Some (short_read_error c)),
     mkReadState (mkConn [] (closing c) (requests c ++ [len (r_head r)]))
       (r_set_head (fill (r_head r) (incoming c)) r) b).
Proof.
  intros Hl. unfold read_header, io_ReadFull. cbn.
  apply Nat.leb_gt in Hl. now rewrite Hl.
Qed.

Lemma decode_size_8 c r b hdr v :
  r_n r = 8 -> len (r_head r) = 8%nat -> length hdr = 8%nat ->
  Uint32 (r_bo r) (drop 4 hdr) = Some v ->
  decode_size (mkReadState c (r_set_head (fill (r_head r) hdr) r) b) =
    (Val (to_int v), mkReadState c (r_set_head (fill (r_head r) hdr) r) b).
Proof.
  intros Hn Hl Hh Hv. unfold decode_size, bind, get. cbn. rewrite Hn. cbn.
  unfold reslice_from, slice_len. cbn. rewrite Hl. cbn.
  unfold bytes. cbn.
  do 8 (destruct hdr as [|? hdr]; [discriminate Hh|]).
  destruct hdr; [|discriminate Hh].
  cbn in Hv |- *. injection Hv as <-. reflexivity.
Qed.

Lemma decode_size_other st :
  r_n (reader st) <> 8 -> decode_size st = (Panicked msg_unsupported, st).
Proof.
  intros Hn. unfold decode_size, bind, get.
  apply Z.eqb_neq in Hn. now rewrite Hn.
Qed.

(** The error of a short read is an end-of-stream or transport error of
    the source, never the protocol's own. *)
Lemma short_read_error_EOF c :
  closing c = EOF ->
  short_read_error c = match incoming c with [] => EOF | _ :: _ => ErrUnexpectedEOF end.
Proof. intros E. unfold short_read_error. now rewrite E. Qed.

(** C5. With a maximum payload size [m > 0], a header read in full whose
    length field exceeds [m] makes ReadPacket return PacketTooLargeError,
    an error value and not a panic, different from the errors a read of
    the source reports; the source has given its eight header bytes and
    nothing more, and the buffer supplied is as it was. *)
Theorem ReadPacket_too_large (c : Conn) (r : PNReader) (b : InBuffer)
    (hdr rest : list byte) (v : Z) :
  r_n r = 8 -> len (r_head r) = 8%nat ->
  incoming c = hdr ++ rest -> length hdr = 8%nat ->
  Uint32 (r_bo r) (drop 4 hdr) = Some v ->
  0 < maxsize (r_settings r) < to_int v ->
  ReadPacket (mkReadState c r b) =
    (Val (Some PacketTooLargeError),
     mkReadState (mkConn rest (closing c) (requests c ++ [8%nat]))
       (r_set_head (fill (r_head r) hdr) r) b)
  /\ PacketTooLargeError <> EOF /\ PacketTooLargeError <> ErrUnexpectedEOF
  /\ (forall msg, PacketTooLargeError <> TransportError msg).
Proof.
  intros Hn Hl Ei Hh Hv Hm. split.
  - unfold ReadPacket, bind.
    rewrite (read_header_full _ _ _ hdr rest) by (auto; lia).
    rewrite (decode_size_8 _ _ _ _ v) by auto.
    cbn. rewrite Hl.
    replace (0 <? maxsize (r_settings r)) with true by (symmetry; apply Z.ltb_lt; lia).
    replace (maxsize (r_settings r) <? to_int v) with true
      by (symmetry; apply Z.ltb_lt; lia).
    reflexivity.
  - repeat split; discriminate.
Qed.

(** C9, as stated, fails: a source that ends after three of the eight
    header bytes reports the end of the stream, and what ReadPacket
    returns is another error, the unexpected end of the stream. *)
Lemma short_header_error_is_not_the_sources :
  closing conn3 = EOF /\ length (incoming conn3) = 3%nat /\
  fst (ReadPacket (mkReadState conn3 reader100 used_InBuffer))
    = Val (Some ErrUnexpectedEOF) /\
  ErrUnexpectedEOF <> closing conn3.
Proof. repeat split; try reflexivity. discriminate. Qed.

(** C9, amended. When the source gives fewer than the eight header bytes
    before it ends or fails, ReadPacket returns the error of
    [io.ReadFull]: the error of the source as it is when that is not the
    end of the stream, [EOF] when the stream ended before any byte, and
    [ErrUnexpectedEOF], not the [EOF] of the source, when the stream
    ended after one to seven bytes. It is not PacketTooLargeError,
    whatever the byte order and the maximum size; the only read asked
    of the source is the header's, and the buffer supplied is as it
    was. *)
Theorem ReadPacket_short_header (c : Conn) (r : PNReader) (b : InBuffer) :
  r_n r = 8 -> len (r_head r) = 8%nat ->
  (length (incoming c) < 8)%nat -> closing c <> PacketTooLargeError ->
  exists e,
    ReadPacket (mkReadState c r b) =
      (Val (Some e),
       mkReadState (mkConn [] (closing c) (requests c ++ [8%nat]))
         (r_set_head (fill (r_head r) (incoming c)) r) b)
    /\ snd (io_ReadFull c (r_head r)) = Some e
    /\ (closing c <> EOF -> e = closing c)
    /\ (closing c = EOF -> incoming c = [] -> e = EOF)
    /\ (closing c = EOF -> incoming c <> [] -> e = ErrUnexpectedEOF)
    /\ e <> PacketTooLargeError.
Proof.
  intros Hn Hl Hi Hc. exists (short_read_error c).
  split; [|split; [|split; [|split; [|split]]]].
  - unfold ReadPacket, bind. rewrite read_header_short by lia.
    rewrite Hl. reflexivity.
  - unfold io_ReadFull. rewrite Hl.
    replace (8 <=? length (incoming c))%nat with false
      by (symmetry; apply Nat.leb_gt; lia).
    reflexivity.
  - intros Hne. unfold short_read_error. destruct (closing c); congruence.
  - intros Ec Ei. rewrite short_read_error_EOF by auto. now rewrite Ei.
  - intros Ec Ei. rewrite short_read_error_EOF by auto.
    destruct (incoming c); congruence.
  - unfold short_read_error. destruct (closing c); try congruence.
    destruct (incoming c); discriminate.
Qed.

(** C10. A header whose length field is zero makes ReadPacket return
    without error and without preparing the buffer: the buffer supplied,
    its arena and what the arena holds included, is as it was, and the
    source has given its eight header bytes only. *)
Theorem ReadPacket_empty_payload (c : Conn) (r : PNReader) (b : InBuffer)
    (hdr rest : list byte) (v : Z) :
  r_n r = 8 -> len (r_head r) = 8%nat ->
  incoming c = hdr ++ rest -> length hdr = 8%nat ->
  Uint32 (r_bo r) (drop 4 hdr) = Some v -> to_int v = 0 ->
  ReadPacket (mkReadState c r b) =
    (Val None,
     mkReadState (mkConn rest (closing c) (requests c ++ [8%nat]))
       (r_set_head (fill (r_head r) hdr) r) b).
Proof.
  intros Hn Hl Ei Hh Hv Hz.
  unfold ReadPacket, bind.
  rewrite (read_header_full _ _ _ hdr rest) by (auto; lia).
  rewrite (decode_size_8 _ _ _ _ v) by auto.
  cbn. rewrite Hl, Hz.
  destruct (0 <? maxsize (r_settings r)) eqn:E; [|reflexivity].
  apply Z.ltb_lt in E.
  replace (maxsize (r_settings r) <? 0) with false
    by (symmetry; apply Z.ltb_ge; lia).
  reflexivity.
Qed.

(** ** Bits and bytes *)

Lemma lor_add a b k :
  0 <= k -> 0 <= a < 2 ^ k -> Z.lor a (b * 2 ^ k) = a + b * 2 ^ k.
Proof.
  intros Hk Ha.
  assert (Z.land a (b * 2 ^ k) = 0) as Hd.
  { apply Z.bits_inj'. intros n Hn. rewrite Z.land_spec, Z.bits_0.
    destruct (Z_lt_dec n k).
    - rewrite Z.mul_pow2_bits_low by lia. apply andb_false_r.
    - rewrite <- (Z.mod_small a (2 ^ k)) by lia.
      rewrite Z.mod_pow2_bits_high by lia. reflexivity. }
  rewrite Z.add_nocarry_lxor by exact Hd. symmetry. apply Z.lxor_lor. exact Hd.
Qed.

Lemma to_byte_range z : 0 <= to_byte z < 256.
Proof. unfold to_byte, wrap_unsigned. apply Z.mod_pos_bound. reflexivity. Qed.

Lemma shl_small w b k :
  0 <= k -> 0 <= b -> b * 2 ^ k < 2 ^ w ->
  wrap_unsigned w (Z.shiftl b k) = b * 2 ^ k.
Proof.
  intros Hk Hb Hlt. unfold wrap_unsigned. rewrite Z.shiftl_mul_pow2 by lia.
  apply Z.mod_small. split; [|exact Hlt]. apply Z.mul_nonneg_nonneg; lia.
Qed.

Ltac shl_norm :=
  unfold shl16, shl32, shl64, to_uint16, to_uint32, to_uint64;
  rewrite ?shl_small by (cbn; lia).

Lemma lor2 b0 b1 :
  0 <= b0 < 256 -> 0 <= b1 < 256 ->
  Z.lor b0 (shl16 b1 8) = b0 + b1 * 2 ^ 8.
Proof. intros. shl_norm. apply lor_add; cbn; lia. Qed.

Lemma lor4 b0 b1 b2 b3 :
  0 <= b0 < 256 -> 0 <= b1 < 256 -> 0 <= b2 < 256 -> 0 <= b3 < 256 ->
  Z.lor (Z.lor (Z.lor b0 (shl32 b1 8)) (shl32 b2 16)) (shl32 b3 24)
  = b0 + b1 * 2 ^ 8 + b2 * 2 ^ 16 + b3 * 2 ^ 24.
Proof.
  intros. shl_norm.
  rewrite (lor_add b0) by (cbn; lia).
  rewrite (lor_add (b0 + _)) by (cbn; lia).
  rewrite (lor_add (b0 + _ + _)) by (cbn; lia).
  reflexivity.
Qed.

Lemma lor8 b0 b1 b2 b3 b4 b5 b6 b7 :
  0 <= b0 < 256 -> 0 <= b1 < 256 -> 0 <= b2 < 256 -> 0 <= b3 < 256 ->
  0 <= b4 < 256 -> 0 <= b5 < 256 -> 0 <= b6 < 256 -> 0 <= b7 < 256 ->
  Z.lor (Z.lor (Z.lor (Z.lor (Z.lor (Z.lor (Z.lor
    b0 (shl64 b1 8)) (shl64 b2 16)) (shl64 b3 24)) (shl64 b4 32))
    (shl64 b5 40)) (shl64 b6 48)) (shl64 b7 56)
  = b0 + b1 * 2 ^ 8 + b2 * 2 ^ 16 + b3 * 2 ^ 24 + b4 * 2 ^ 32 + b5 * 2 ^ 40
    + b6 * 2 ^ 48 + b7 * 2 ^ 56.
Proof.
  intros. shl_norm.
  rewrite (lor_add b0) by (cbn; lia).
  rewrite (lor_add (b0 + _)) by (cbn; lia).
  rewrite (lor_add (b0 + _ + _)) by (cbn; lia).
  rewrite (lor_add (b0 + _ + _ + _)) by (cbn; lia).
  rewrite (lor_add (b0 + _ + _ + _ + _)) by (cbn; lia).
  rewrite (lor_add (b0 + _ + _ + _ + _ + _)) by (cbn; lia).
  rewrite (lor_add (b0 + _ + _ + _ + _ + _ + _)) by (cbn; lia).
  reflexivity.
Qed.

(** The byte of [v] at bit [k]. *)
Lemma byte_at v k : 0 <= k -> to_byte (Z.shiftr v k) = (v / 2 ^ k) mod 256.
Proof. intros. unfold to_byte, wrap_unsigned. now rewrite Z.shiftr_div_pow2 by lia. Qed.

Lemma byte_at_0 v : to_byte v = v mod 256.
Proof. reflexivity. Qed.

Lemma digits2 v : 0 <= v < 2 ^ 16 -> v mod 256 + (v / 2 ^ 8) mod 256 * 2 ^ 8 = v.
Proof.
  intros Hv. change (2 ^ 8) with 256. change (2 ^ 16) with 65536 in Hv.
  rewrite (Z.mod_small (v / 256)) by (split; [apply Z.div_pos|apply Z.div_lt_upper_bound]; lia).
  pose proof (Z.div_mod v 256). lia.
Qed.

Lemma split_byte v k k' :
  0 <= k -> k' = k + 8 -> v / 2 ^ k = (v / 2 ^ k) mod 256 + v / 2 ^ k' * 256.
Proof.
  intros Hk ->. rewrite Z.pow_add_r, <- Z.div_div by lia.
  change (2 ^ 8) with 256. pose proof (Z.div_mod (v / 2 ^ k) 256). lia.
Qed.

Lemma digits4 v :
  0 <= v < 2 ^ 32 ->
  v mod 256 + (v / 2 ^ 8) mod 256 * 2 ^ 8 + (v / 2 ^ 16) mod 256 * 2 ^ 16
  + (v / 2 ^ 24) mod 256 * 2 ^ 24 = v.
Proof.
  intros Hv.
  pose proof (split_byte v 0 8 ltac:(lia) eq_refl) as H0. rewrite Z.pow_0_r, Z.div_1_r in H0.
  pose proof (split_byte v 8 16 ltac:(lia) eq_refl) as H1.
  pose proof (split_byte v 16 24 ltac:(lia) eq_refl) as H2.
  pose proof (split_byte v 24 32 ltac:(lia) eq_refl) as H3.
  assert (v / 2 ^ 32 = 0) as H4 by (apply Z.div_small; lia).
  rewrite H4 in H3.
  change (2 ^ 8) with 256 in *. change (2 ^ 16) with 65536 in *.
  change (2 ^ 24) with 16777216 in *.
  lia.
Qed.

Lemma digits8 v :
  0 <= v < 2 ^ 64 ->
  v mod 256 + (v / 2 ^ 8) mod 256 * 2 ^ 8 + (v / 2 ^ 16) mod 256 * 2 ^ 16
  + (v / 2 ^ 24) mod 256 * 2 ^ 24 + (v / 2 ^ 32) mod 256 * 2 ^ 32
  + (v / 2 ^ 40) mod 256 * 2 ^ 40 + (v / 2 ^ 48) mod 256 * 2 ^ 48
  + (v / 2 ^ 56) mod 256 * 2 ^ 56 = v.
Proof.
  intros Hv.
  pose proof (split_byte v 0 8 ltac:(lia) eq_refl) as H0. rewrite Z.pow_0_r, Z.div_1_r in H0.
  pose proof (split_byte v 8 16 ltac:(lia) eq_refl) as H1.
  pose proof (split_byte v 16 24 ltac:(lia) eq_refl) as H2.
  pose proof (split_byte v 24 32 ltac:(lia) eq_refl) as H3.
  pose proof (split_byte v 32 40 ltac:(lia) eq_refl) as H4.
  pose proof (split_byte v 40 48 ltac:(lia) eq_refl) as H5.
  pose proof (split_byte v 48 56 ltac:(lia) eq_refl) as H6.
  pose proof (split_byte v 56 64 ltac:(lia) eq_refl) as H7.
  assert (v / 2 ^ 64 = 0) as H8 by (apply Z.div_small; lia).
  rewrite H8 in H7.
  change (2 ^ 8) with 256 in *. change (2 ^ 16) with 65536 in *.
  change (2 ^ 24) with 16777216 in *. change (2 ^ 32) with 4294967296 in *.
  change (2 ^ 40) with 1099511627776 in *. change (2 ^ 48) with 281474976710656 in *.
  change (2 ^ 56) with 72057594037927936 in *.
  lia.
Qed.

(** ** UTF-8 *)

Ltac elia := Z.to_euclidean_division_equations; lia.

Lemma lor_hi hi a k :
  0 <= k -> 0 <= a < 2 ^ k -> Z.lor (hi * 2 ^ k) a = hi * 2 ^ k + a.
Proof. intros. rewrite Z.lor_comm, lor_add by lia. lia. Qed.

Lemma land_3F x : Z.land x 0x3F = x mod 64.
Proof. apply (Z.land_ones x 6). lia. Qed.
Lemma land_1F x : Z.land x 0x1F = x mod 32.
Proof. apply (Z.land_ones x 5). lia. Qed.
Lemma land_0F x : Z.land x 0x0F = x mod 16.
Proof. apply (Z.land_ones x 4). lia. Qed.
Lemma land_07 x : Z.land x 0x07 = x mod 8.
Proof. apply (Z.land_ones x 3). lia. Qed.

Lemma lead_C0 a : 0 <= a < 32 -> Z.lor 0xC0 a = 192 + a.
Proof. intros. apply (lor_hi 6 a 5); cbn; lia. Qed.
Lemma lead_E0 a : 0 <= a < 16 -> Z.lor 0xE0 a = 224 + a.
Proof. intros. apply (lor_hi 14 a 4); cbn; lia. Qed.
Lemma lead_F0 a : 0 <= a < 8 -> Z.lor 0xF0 a = 240 + a.
Proof. intros. apply (lor_hi 30 a 3); cbn; lia. Qed.
Lemma cont_80 a : 0 <= a < 64 -> Z.lor 0x80 a = 128 + a.
Proof. intros. apply (lor_hi 2 a 6); cbn; lia. Qed.

(** The continuation byte carrying the six bits of [r] at bit [k]. *)
Lemma cont_byte r k :
  0 <= k -> Z.lor 0x80 (Z.land (to_byte (Z.shiftr r k)) 0x3F) = 128 + (r / 2 ^ k) mod 64.
Proof.
  intros Hk. rewrite byte_at, land_3F by lia.
  rewrite cont_80 by elia. elia.
Qed.

Lemma cont_byte_0 r : Z.lor 0x80 (Z.land (to_byte r) 0x3F) = 128 + r mod 64.
Proof.
  rewrite byte_at_0, land_3F. rewrite cont_80 by elia. elia.
Qed.

Lemma to_uint32_small r : 0 <= r < 2 ^ 32 -> to_uint32 r = r.
Proof. intros. apply Z.mod_small. lia. Qed.

Ltac zdec1 :=
  match goal with
  | |- context [?x <? ?y] =>
      first [ replace (x <? y) with true by (symmetry; apply Z.ltb_lt; lia)
            | replace (x <? y) with false by (symmetry; apply Z.ltb_ge; lia) ]
  | |- context [?x <=? ?y] =>
      first [ replace (x <=? y) with true by (symmetry; apply Z.leb_le; lia)
            | replace (x <=? y) with false by (symmetry; apply Z.leb_gt; lia) ]
  | |- context [?x =? ?y] =>
      first [ replace (x =? y) with true by (symmetry; apply Z.eqb_eq; lia)
            | replace (x =? y) with false by (symmetry; apply Z.eqb_neq; lia) ]
  end.

(** Decides the comparisons the hypotheses settle, outermost first. *)
Ltac zdec := repeat (zdec1; cbn [andb orb negb]).

Lemma Encode1 r : 0 <= r <= 0x7F -> EncodeRune r = [r].
Proof.
  intros Hr. unfold EncodeRune, MaxRune, surrogateMin, surrogateMax.
  rewrite to_uint32_small by lia.
  zdec. rewrite byte_at_0. f_equal. apply Z.mod_small. lia.
Qed.

Lemma Encode2 r :
  0x80 <= r <= 0x7FF -> EncodeRune r = [192 + r / 64; 128 + r mod 64].
Proof.
  intros Hr. unfold EncodeRune, MaxRune, surrogateMin, surrogateMax.
  rewrite to_uint32_small by lia.
  zdec. rewrite cont_byte_0, byte_at by lia. change (2 ^ 6) with 64.
  rewrite lead_C0 by elia. do 2 f_equal. elia.
Qed.

Lemma enc3_digits r :
  0x800 <= r <= 0xFFFF ->
  enc3 r = [224 + r / 4096; 128 + (r / 64) mod 64; 128 + r mod 64].
Proof.
  intros Hr. unfold enc3.
  rewrite cont_byte, cont_byte_0, byte_at by lia.
  change (2 ^ 6) with 64. change (2 ^ 12) with 4096.
  rewrite lead_E0 by elia. do 2 f_equal. elia.
Qed.

Lemma Encode3 r :
  0x800 <= r <= 0xFFFF -> ~ (surrogateMin <= r <= surrogateMax) ->
  EncodeRune r = [224 + r / 4096; 128 + (r / 64) mod 64; 128 + r mod 64].
Proof.
  intros Hr Hs. unfold EncodeRune, MaxRune, surrogateMin, surrogateMax in *.
  cbv zeta. rewrite to_uint32_small by lia.
  destruct (Z_lt_dec r 55296); zdec; rewrite to_uint32_small by lia; zdec;
    now apply enc3_digits.
Qed.

Lemma Encode4 r :
  0x10000 <= r <= MaxRune ->
  EncodeRune r =
    [240 + r / 262144; 128 + (r / 4096) mod 64; 128 + (r / 64) mod 64; 128 + r mod 64].
Proof.
  intros Hr. unfold EncodeRune, MaxRune, surrogateMin, surrogateMax in *.
  cbv zeta. rewrite to_uint32_small by lia.
  zdec. rewrite to_uint32_small by lia. zdec.
  unfold enc4. rewrite !cont_byte, cont_byte_0, byte_at by lia.
  change (2 ^ 6) with 64. change (2 ^ 12) with 4096. change (2 ^ 18) with 262144.
  rewrite lead_F0 by elia. do 2 f_equal. elia.
Qed.

(** A rune that is not a scalar value is written as U+FFFD. *)
Lemma Encode_invalid r :
  - 2 ^ 31 <= r < 2 ^ 31 -> ~ ValidRune r -> EncodeRune r = [0xEF; 0xBF; 0xBD].
Proof.
  intros Hr Hv. unfold ValidRune, MaxRune, surrogateMin, surrogateMax in Hv.
  unfold EncodeRune, MaxRune, surrogateMin, surrogateMax, to_uint32, wrap_unsigned.
  cbv zeta. change (2 ^ 31) with 2147483648 in Hr. change (2 ^ 32) with 4294967296.
  destruct (Z_lt_dec r 0).
  - replace (r mod 4294967296) with (r + 4294967296) by elia.
    zdec. reflexivity.
  - rewrite (Z.mod_small r) by lia.
    destruct (Z_le_dec r MaxRune); unfold MaxRune in *; zdec; reflexivity.
Qed.

Ltac zconst t := let v := eval cbv in t in progress change t with v.

(** Evaluates the table look-ups of [DecodeRune] once [first] is known. *)
Ltac ztable :=
  repeat first
    [ progress zdec
    | match goal with
      | |- context [Z.shiftr (Zpos ?x) 4] => zconst (Z.shiftr (Zpos x) 4)
      | |- context [Z.land (Zpos ?x) 7] => zconst (Z.land (Zpos x) 7)
      | |- context [Z.testbit (Zpos ?x) 0] => zconst (Z.testbit (Zpos x) 0)
      | |- context [Z.of_nat (length ?l)] => zconst (Z.of_nat (length l))
      end
    | progress cbv iota beta ].

Lemma join2 a b :
  0 <= b < 64 -> Z.lor (Z.shiftl a 6) b = a * 64 + b.
Proof.
  intros. rewrite Z.shiftl_mul_pow2 by lia. apply (lor_hi a b 6); [lia|].
  change (2 ^ 6) with 64. lia.
Qed.

Lemma join3 a b c :
  0 <= b < 64 -> 0 <= c < 64 ->
  Z.lor (Z.lor (Z.shiftl a 12) (Z.shiftl b 6)) c = a * 4096 + b * 64 + c.
Proof.
  intros. rewrite !Z.shiftl_mul_pow2 by lia.
  rewrite (lor_hi a (b * 2 ^ 6) 12)
    by (change (2 ^ 6) with 64; change (2 ^ 12) with 4096; lia).
  replace (a * 2 ^ 12 + b * 2 ^ 6) with ((a * 64 + b) * 2 ^ 6)
    by (change (2 ^ 6) with 64; change (2 ^ 12) with 4096; lia).
  rewrite (lor_hi (a * 64 + b) c 6) by (change (2 ^ 6) with 64; lia).
  change (2 ^ 6) with 64. lia.
Qed.

Lemma join4 a b c d :
  0 <= b < 64 -> 0 <= c < 64 -> 0 <= d < 64 ->
  Z.lor (Z.lor (Z.lor (Z.shiftl a 18) (Z.shiftl b 12)) (Z.shiftl c 6)) d
  = a * 262144 + b * 4096 + c * 64 + d.
Proof.
  intros. rewrite (Z.shiftl_mul_pow2 a), (Z.shiftl_mul_pow2 b) by lia.
  rewrite (lor_hi a (b * 2 ^ 12) 18)
    by (change (2 ^ 12) with 4096; change (2 ^ 18) with 262144; lia).
  replace (a * 2 ^ 18 + b * 2 ^ 12) with (Z.shiftl (a * 64 + b) 12)
    by (rewrite Z.shiftl_mul_pow2 by lia;
        change (2 ^ 12) with 4096; change (2 ^ 18) with 262144; lia).
  rewrite join3 by lia. lia.
Qed.

Lemma Decode1 r : 0 <= r <= 0x7F -> DecodeRune [r] = (r, 1).
Proof.
  intros Hr. unfold DecodeRune, first. ztable. reflexivity.
Qed.

Lemma Decode2 a b :
  2 <= a < 32 -> 0 <= b < 64 -> DecodeRune [192 + a; 128 + b] = (a * 64 + b, 2).
Proof.
  intros Ha Hb. unfold DecodeRune, first, acceptRanges. ztable.
  rewrite land_1F, land_3F.
  replace ((192 + a) mod 32) with a by elia.
  replace ((128 + b) mod 64) with b by elia.
  now rewrite join2 by lia.
Qed.

Lemma Decode3 a b c :
  0 <= a < 16 -> 0 <= b < 64 -> 0 <= c < 64 ->
  (a = 0 -> 32 <= b) -> (a = 13 -> b < 32) ->
  DecodeRune [224 + a; 128 + b; 128 + c] = (a * 4096 + b * 64 + c, 3).
Proof.
  intros Ha Hb Hc H0 H13.
  assert (a = 0 \/ 1 <= a <= 12 \/ a = 13 \/ 14 <= a <= 15) as Hcase by lia.
  unfold DecodeRune, first, acceptRanges, continuation.
  destruct Hcase as [?|[?|[?|?]]]; ztable;
    rewrite land_0F, !land_3F;
    replace ((224 + a) mod 16) with a by elia;
    replace ((128 + b) mod 64) with b by elia;
    replace ((128 + c) mod 64) with c by elia;
    now rewrite join3 by lia.
Qed.

Lemma Decode4 a b c d :
  0 <= a <= 4 -> 0 <= b < 64 -> 0 <= c < 64 -> 0 <= d < 64 ->
  (a = 0 -> 16 <= b) -> (a = 4 -> b < 16) ->
  DecodeRune [240 + a; 128 + b; 128 + c; 128 + d]
  = (a * 262144 + b * 4096 + c * 64 + d, 4).
Proof.
  intros Ha Hb Hc Hd H0 H4.
  assert (a = 0 \/ 1 <= a <= 3 \/ a = 4) as Hcase by lia.
  unfold DecodeRune, first, acceptRanges, continuation.
  destruct Hcase as [?|[?|?]]; ztable;
    rewrite land_07, !land_3F;
    replace ((240 + a) mod 8) with a by elia;
    replace ((128 + b) mod 64) with b by elia;
    replace ((128 + c) mod 64) with c by elia;
    replace ((128 + d) mod 64) with d by elia;
    now rewrite join4 by lia.
Qed.

(** Decoding what was encoded gives the rune back, and the width of its
    encoding. *)
Lemma DecodeRune_EncodeRune r :
  ValidRune r -> DecodeRune (EncodeRune r) = (r, Z.of_nat (length (EncodeRune r))).
Proof.
  unfold ValidRune, surrogateMin, surrogateMax, MaxRune. intros Hv.
  assert (0 <= r <= 0x7F \/ 0x80 <= r <= 0x7FF \/
          (0x800 <= r <= 0xFFFF /\ ~ (surrogateMin <= r <= surrogateMax)) \/
          0x10000 <= r <= MaxRune) as [H|[H|[[H Hs]|H]]]
    by (unfold surrogateMin, surrogateMax, MaxRune; lia).
  - rewrite Encode1 by exact H. now apply Decode1.
  - rewrite Encode2 by exact H. rewrite Decode2 by elia. cbn. f_equal. elia.
  - rewrite Encode3 by assumption.
    unfold surrogateMin, surrogateMax in Hs.
    rewrite Decode3 by elia. cbn. f_equal. elia.
  - rewrite Encode4 by exact H. unfold MaxRune in H.
    rewrite Decode4 by elia. cbn. f_equal. elia.
Qed.

Lemma DecodeRune_RuneError : DecodeRune [0xEF; 0xBF; 0xBD] = (RuneError, 3).
Proof. reflexivity. Qed.

(** ** Integers on the wire *)

Ltac bytes_norm :=
  rewrite ?byte_at by lia; rewrite ?byte_at_0.

Lemma Uint16_LE v :
  0 <= v < 2 ^ 16 ->
  Uint16 LittleEndian [to_byte v; to_byte (Z.shiftr v 8)] = Some v.
Proof.
  intros Hv. cbn [Uint16]. bytes_norm. rewrite lor2 by (apply Z.mod_pos_bound; lia).
  f_equal. now apply digits2.
Qed.

Lemma Uint16_BE v :
  0 <= v < 2 ^ 16 ->
  Uint16 BigEndian [to_byte (Z.shiftr v 8); to_byte v] = Some v.
Proof.
  intros Hv. cbn [Uint16]. bytes_norm. rewrite lor2 by (apply Z.mod_pos_bound; lia).
  f_equal. now apply digits2.
Qed.

Lemma Uint32_LE v t :
  0 <= v < 2 ^ 32 ->
  Uint32 LittleEndian
    (to_byte v :: to_byte (Z.shiftr v 8) :: to_byte (Z.shiftr v 16)
       :: to_byte (Z.shiftr v 24) :: t) = Some v.
Proof.
  intros Hv. cbn [Uint32]. bytes_norm. rewrite lor4 by (apply Z.mod_pos_bound; lia).
  f_equal. now apply digits4.
Qed.

Lemma Uint32_BE v t :
  0 <= v < 2 ^ 32 ->
  Uint32 BigEndian
    (to_byte (Z.shiftr v 24) :: to_byte (Z.shiftr v 16) :: to_byte (Z.shiftr v 8)
       :: to_byte v :: t) = Some v.
Proof.
  intros Hv. cbn [Uint32]. bytes_norm. rewrite lor4 by (apply Z.mod_pos_bound; lia).
  f_equal. now apply digits4.
Qed.

Lemma Uint64_LE v :
  0 <= v < 2 ^ 64 ->
  Uint64 LittleEndian
    [to_byte v; to_byte (Z.shiftr v 8); to_byte (Z.shiftr v 16); to_byte (Z.shiftr v 24);
     to_byte (Z.shiftr v 32); to_byte (Z.shiftr v 40); to_byte (Z.shiftr v 48);
     to_byte (Z.shiftr v 56)] = Some v.
Proof.
  intros Hv. cbn [Uint64]. bytes_norm. rewrite lor8 by (apply Z.mod_pos_bound; lia).
  f_equal. now apply digits8.
Qed.

Lemma Uint64_BE v :
  0 <= v < 2 ^ 64 ->
  Uint64 BigEndian
    [to_byte (Z.shiftr v 56); to_byte (Z.shiftr v 48); to_byte (Z.shiftr v 40);
     to_byte (Z.shiftr v 32); to_byte (Z.shiftr v 24); to_byte (Z.shiftr v 16);
     to_byte (Z.shiftr v 8); to_byte v] = Some v.
Proof.
  intros Hv. cbn [Uint64]. bytes_norm. rewrite lor8 by (apply Z.mod_pos_bound; lia).
  f_equal. now apply digits8.
Qed.

(** What [PutUint32] stores decodes to the value stored. *)
Lemma Uint32_uint32_bytes bo v t :
  0 <= v < 2 ^ 32 -> Uint32 bo (uint32_bytes bo v ++ t) = Some v.
Proof.
  intros Hv. destruct bo; cbn [uint32_bytes app];
    [now apply Uint32_LE | now apply Uint32_BE].
Qed.

Lemma to_uint32_range z : 0 <= to_uint32 z < 2 ^ 32.
Proof. apply Z.mod_pos_bound. reflexivity. Qed.

Lemma to_int_small z : - 2 ^ 63 <= z < 2 ^ 63 -> to_int z = z.
Proof.
  intros Hz. unfold to_int, wrap_signed.
  change (64 - 1) with 63. rewrite Z.mod_small; [lia|].
  change (2 ^ 64) with (2 * 2 ^ 63). lia.
Qed.

(** ** Strings *)

Lemma ascii_of_byte_of_ascii c : ascii_of_byte (byte_of_ascii c) = c.
Proof.
  unfold ascii_of_byte, byte_of_ascii. rewrite N2Z.id. apply ascii_N_embedding.
Qed.

Lemma string_of_bytes_of_string s : string_of_bytes (bytes_of_string s) = s.
Proof.
  induction s as [|c s IH]; cbn; [reflexivity|].
  now rewrite ascii_of_byte_of_ascii, IH.
Qed.

(** ** Writing, then reading *)

Lemma Slice_all l n :
  n = Z.of_nat (length l) -> n < 2 ^ 63 ->
  InBuffer_Slice n (InBuffer_on l) = (Val l, mkInBuffer (mkSlice l (length l)) n false).
Proof.
  intros -> Hn. unfold InBuffer_Slice, InBuffer_on, bind, get, put, reslice, slice_cap.
  cbn [in_Data ReadPos arr len]. rewrite !Z.add_0_l.
  rewrite to_int_small by lia.
  replace (0 <=? 0) with true by reflexivity.
  replace (0 <=? Z.of_nat (length l)) with true by (symmetry; apply Z.leb_le; lia).
  replace (Z.of_nat (length l) <=? Z.of_nat (length l)) with true
    by (symmetry; apply Z.leb_le; lia).
  cbn [andb in_set_ReadPos in_Data in_isFreed ret]. unfold bytes. cbn [arr len].
  rewrite Z.sub_0_r, Nat2Z.id. change (Z.to_nat 0) with 0%nat.
  rewrite drop_0, take_ge by lia. reflexivity.
Qed.

Lemma read_with_all n dec l v :
  n = Z.of_nat (length l) -> n < 2 ^ 63 -> dec l = Some v ->
  fst (read_with n dec (InBuffer_on l)) = Val v.
Proof.
  intros Hn Hb Hd. unfold read_with, bind. rewrite Slice_all by assumption.
  now rewrite Hd.
Qed.

Lemma ReadRune_all l :
  Z.of_nat (length l) < 2 ^ 63 ->
  fst (InBuffer_ReadRune (InBuffer_on l)) = Val (fst (DecodeRune l)).
Proof.
  intros Hb. unfold InBuffer_ReadRune, InBuffer_on, bind, get, reslice_from, slice_len.
  cbn [in_Data ReadPos arr len].
  replace (0 <=? 0) with true by reflexivity.
  replace (0 <=? Z.of_nat (length l)) with true by (symmetry; apply Z.leb_le; lia).
  cbn [andb ret]. unfold bytes. cbn [arr len]. change (Z.to_nat 0) with 0%nat.
  rewrite drop_0, Nat.sub_0_r, take_ge by lia.
  destruct (DecodeRune l) as [x size]. reflexivity.
Qed.

Lemma EncodeRune_length r : (length (EncodeRune r) <= 4)%nat.
Proof.
  unfold EncodeRune, enc3, enc4. cbv zeta.
  repeat match goal with |- context [if ?c then _ else _] => destruct c end;
    cbn [length]; lia.
Qed.

Section Codec.
Context `{GoRuntime}.

Lemma bytes_append_fresh arena p : bytes (append (mkSlice arena 0) p) = p.
Proof.
  unfold append, bytes. cbn [len arr]. rewrite take_0. cbn [app Nat.add].
  destruct (length p <=? length arena)%nat; cbn [len arr]; apply take_app_length.
Qed.

Lemma round_trip_Append {A} (p : list byte) (r : M InBuffer A) arena :
  round_trip (OutBuffer_Append p) r arena = fst (r (InBuffer_on p)).
Proof.
  unfold round_trip, OutBuffer_Append, modify, fresh_OutBuffer.
  cbn [out_set_Data out_Data]. now rewrite bytes_append_fresh.
Qed.

Lemma round_trip_rune r arena :
  ValidRune r -> round_trip (OutBuffer_WriteRune r) InBuffer_ReadRune arena = Val r.
Proof.
  intros Hv. unfold OutBuffer_WriteRune. rewrite round_trip_Append.
  rewrite ReadRune_all by (pose proof (EncodeRune_length r); lia).
  now rewrite DecodeRune_EncodeRune.
Qed.

Lemma round_trip_invalid_rune r arena :
  - 2 ^ 31 <= r < 2 ^ 31 -> ~ ValidRune r ->
  round_trip (OutBuffer_WriteRune r) InBuffer_ReadRune arena = Val RuneError.
Proof.
  intros Hr Hv. unfold OutBuffer_WriteRune. rewrite round_trip_Append.
  rewrite Encode_invalid by assumption.
  rewrite ReadRune_all by (cbn; lia). reflexivity.
Qed.

(** C4, amended. A value written into a fresh outgoing buffer and read
    from the bytes written, with the primitive of the same width and
    byte order, comes back as it was: bytes, byte slices, strings, the
    unsigned integers of every width over their full range, and the
    floats over all their bit patterns. A rune comes back as it was when
    it is a Unicode scalar value; any other rune is written as U+FFFD
    and read as U+FFFD. *)
Theorem codec_round_trip (arena : list byte) :
  (forall p, Z.of_nat (length p) < 2 ^ 63 ->
     round_trip (OutBuffer_Append p) (InBuffer_Slice (Z.of_nat (length p))) arena = Val p) /\
  (forall d, Z.of_nat (length d) < 2 ^ 63 ->
     round_trip (OutBuffer_WriteBytes d) (InBuffer_ReadBytes (Z.of_nat (length d))) arena
     = Val d) /\
  (forall s, Z.of_nat (length (bytes_of_string s)) < 2 ^ 63 ->
     round_trip (OutBuffer_WriteString s)
       (InBuffer_ReadString (Z.of_nat (length (bytes_of_string s)))) arena = Val s) /\
  (forall r, ValidRune r ->
     round_trip (OutBuffer_WriteRune r) InBuffer_ReadRune arena = Val r) /\
  (forall r, - 2 ^ 31 <= r < 2 ^ 31 -> ~ ValidRune r ->
     round_trip (OutBuffer_WriteRune r) InBuffer_ReadRune arena = Val RuneError) /\
  (forall v, 0 <= v < 2 ^ 8 ->
     round_trip (OutBuffer_WriteUint8 v) InBuffer_ReadUint8 arena = Val v) /\
  (forall v, 0 <= v < 2 ^ 16 ->
     round_trip (OutBuffer_WriteUint16LE v) InBuffer_ReadUint16LE arena = Val v /\
     round_trip (OutBuffer_WriteUint16BE v) InBuffer_ReadUint16BE arena = Val v) /\
  (forall v, 0 <= v < 2 ^ 32 ->
     round_trip (OutBuffer_WriteUint32LE v) InBuffer_ReadUint32LE arena = Val v /\
     round_trip (OutBuffer_WriteUint32BE v) InBuffer_ReadUint32BE arena = Val v) /\
  (forall v, 0 <= v < 2 ^ 64 ->
     round_trip (OutBuffer_WriteUint64LE v) InBuffer_ReadUint64LE arena = Val v /\
     round_trip (OutBuffer_WriteUint64BE v) InBuffer_ReadUint64BE arena = Val v) /\
  (forall f : float32, 0 <= f < 2 ^ 32 ->
     round_trip (OutBuffer_WriteFloat32LE f) InBuffer_ReadFloat32LE arena = Val f /\
     round_trip (OutBuffer_WriteFloat32BE f) InBuffer_ReadFloat32BE arena = Val f) /\
  (forall f : float64, 0 <= f < 2 ^ 64 ->
     round_trip (OutBuffer_WriteFloat64LE f) InBuffer_ReadFloat64LE arena = Val f /\
     round_trip (OutBuffer_WriteFloat64BE f) InBuffer_ReadFloat64BE arena = Val f).
Proof.
  assert (U32 : forall v, 0 <= v < 2 ^ 32 ->
     round_trip (OutBuffer_WriteUint32LE v) InBuffer_ReadUint32LE arena = Val v /\
     round_trip (OutBuffer_WriteUint32BE v) InBuffer_ReadUint32BE arena = Val v).
  { intros v Hv. unfold OutBuffer_WriteUint32LE, OutBuffer_WriteUint32BE.
    rewrite !round_trip_Append. split; apply read_with_all; try reflexivity.
    - now apply Uint32_LE.
    - now apply Uint32_BE. }
  assert (U64 : forall v, 0 <= v < 2 ^ 64 ->
     round_trip (OutBuffer_WriteUint64LE v) InBuffer_ReadUint64LE arena = Val v /\
     round_trip (OutBuffer_WriteUint64BE v) InBuffer_ReadUint64BE arena = Val v).
  { intros v Hv. unfold OutBuffer_WriteUint64LE, OutBuffer_WriteUint64BE.
    rewrite !round_trip_Append. split; apply read_with_all; try reflexivity.
    - now apply Uint64_LE.
    - now apply Uint64_BE. }
  repeat apply conj.
  - intros p Hp. rewrite round_trip_Append, Slice_all by auto. reflexivity.
  - intros d Hd. unfold OutBuffer_WriteBytes. rewrite round_trip_Append.
    unfold InBuffer_ReadBytes, bind, make_len.
    replace (Z.of_nat (length d) <? 0) with false by (symmetry; apply Z.ltb_ge; lia).
    cbn [ret]. rewrite Slice_all by auto. cbn [fst ret arr].
    unfold copy_into. rewrite length_replicate, Nat2Z.id.
    rewrite take_ge, drop_ge by (rewrite ?length_replicate; lia).
    now rewrite app_nil_r.
  - intros s Hs. unfold OutBuffer_WriteString. rewrite round_trip_Append.
    unfold InBuffer_ReadString, bind. rewrite Slice_all by auto. cbn [fst ret].
    now rewrite string_of_bytes_of_string.
  - intros r Hr. now apply round_trip_rune.
  - intros r Hr Hv. now apply round_trip_invalid_rune.
  - intros v Hv. unfold OutBuffer_WriteUint8. rewrite round_trip_Append.
    unfold InBuffer_ReadUint8, bind.
    rewrite (Slice_all [to_byte v] 1) by (reflexivity || lia). cbn [fst ret].
    f_equal. apply Z.mod_small. exact Hv.
  - intros v Hv. unfold OutBuffer_WriteUint16LE, OutBuffer_WriteUint16BE.
    rewrite !round_trip_Append. split; apply read_with_all; try reflexivity.
    + now apply Uint16_LE.
    + now apply Uint16_BE.
  - exact U32.
  - exact U64.
  - intros f Hf.
    unfold OutBuffer_WriteFloat32LE, OutBuffer_WriteFloat32BE,
      InBuffer_ReadFloat32LE, InBuffer_ReadFloat32BE, round_trip,
      math_Float32bits, math_Float32frombits.
    rewrite (to_uint32_small f) by exact Hf.
    destruct (U32 f Hf) as [HL HB]. unfold round_trip in HL, HB.
    split.
    + destruct (OutBuffer_WriteUint32LE f (fresh_OutBuffer arena)) as [[u|m] out];
        [|discriminate HL].
      unfold bind. destruct (InBuffer_ReadUint32LE _) as [[x|m] st]; cbn in HL |- *;
        [|discriminate HL]. injection HL as ->. now rewrite to_uint32_small.
    + destruct (OutBuffer_WriteUint32BE f (fresh_OutBuffer arena)) as [[u|m] out];
        [|discriminate HB].
      unfold bind. destruct (InBuffer_ReadUint32BE _) as [[x|m] st]; cbn in HB |- *;
        [|discriminate HB]. injection HB as ->. now rewrite to_uint32_small.
  - intros f Hf.
    unfold OutBuffer_WriteFloat64LE, OutBuffer_WriteFloat64BE,
      InBuffer_ReadFloat64LE, InBuffer_ReadFloat64BE, round_trip,
      math_Float64bits, math_Float64frombits.
    assert (to_uint64 f = f) as Ef by (apply Z.mod_small; exact Hf).
    rewrite Ef.
    destruct (U64 f Hf) as [HL HB]. unfold round_trip in HL, HB.
    split.
    + destruct (OutBuffer_WriteUint64LE f (fresh_OutBuffer arena)) as [[u|m] out];
        [|discriminate HL].
      unfold bind. destruct (InBuffer_ReadUint64LE _) as [[x|m] st]; cbn in HL |- *;
        [|discriminate HL]. injection HL as ->. now rewrite Ef.
    + destruct (OutBuffer_WriteUint64BE f (fresh_OutBuffer arena)) as [[u|m] out];
        [|discriminate HB].
      unfold bind. destruct (InBuffer_ReadUint64BE _) as [[x|m] st]; cbn in HB |- *;
        [|discriminate HB]. injection HB as ->. now rewrite Ef.
Qed.

End Codec.

(** ** Writing a packet *)

Lemma EndPacket_too_large w b :
  0 < maxsize (w_settings w) < to_int (OutBuffer_Len b - w_n w) ->
  EndPacket w b = (Panicked msg_too_large, b).
Proof.
  intros Hm. unfold EndPacket, bind, get.
  replace (0 <? maxsize (w_settings w)) with true by (symmetry; apply Z.ltb_lt; lia).
  replace (maxsize (w_settings w) <? to_int (OutBuffer_Len b - w_n w)) with true
    by (symmetry; apply Z.ltb_lt; lia).
  reflexivity.
Qed.

Lemma max_check_false m size :
  ~ (0 < m < size) -> (0 <? m) && (m <? size) = false.
Proof.
  intros Hm. destruct (0 <? m) eqn:E1; [|reflexivity].
  destruct (m <? size) eqn:E2; [|reflexivity].
  apply Z.ltb_lt in E1, E2. lia.
Qed.

Lemma EndPacket_unsupported w b :
  w_n w <> 8 ->
  ~ (0 < maxsize (w_settings w) < to_int (OutBuffer_Len b - w_n w)) ->
  EndPacket w b = (Panicked msg_unsupported, b).
Proof.
  intros Hn Hm. unfold EndPacket, bind, get.
  rewrite max_check_false by exact Hm.
  apply Z.eqb_neq in Hn. now rewrite Hn.
Qed.

Lemma uint32_bytes_length bo v : length (uint32_bytes bo v) = 4%nat.
Proof. now destruct bo. Qed.

Lemma EndPacket_stamps w b h rest n :
  w_n w = 8 -> out_Data b = mkSlice (h ++ rest) n ->
  length h = 8%nat -> (8 <= n)%nat ->
  ~ (0 < maxsize (w_settings w) < to_int (Z.of_nat n - 8)) ->
  EndPacket w b =
    (Val tt,
     out_set_Data
       (mkSlice (uint32_bytes (w_bo w) (to_uint32 (w_id w))
                 ++ uint32_bytes (w_bo w) (to_uint32 (to_int (Z.of_nat n - 8)))
                 ++ rest) n) b).
Proof.
  intros Hn Hd Hh Hlen Hm. unfold EndPacket, bind, get.
  unfold OutBuffer_Len, slice_len. rewrite Hd, Hn. cbn [len].
  rewrite max_check_false by exact Hm. cbn [Z.eqb Pos.eqb].
  do 8 (destruct h as [|? h]; [discriminate Hh|]).
  destruct h; [|discriminate Hh].
  unfold on_out_Data, zoom, OutBuffer_Get, PutUint32, bind, get, put,
    reslice_from, slice_len.
  rewrite Hd. cbn [len arr out_set_Data out_Data].
  assert (E4 : (4 <=? Z.of_nat n) = true) by (apply Z.leb_le; lia).
  assert (E3 : (n <=? 3)%nat = false) by (apply Nat.leb_gt; lia).
  assert (E7 : (n <=? 7)%nat = false) by (apply Nat.leb_gt; lia).
  destruct (w_bo w); unfold uint32_bytes; cbn; rewrite ?E3; cbn; rewrite E4; cbn;
    rewrite E7; reflexivity.
Qed.

Section Writer.
Context `{GoRuntime}.

(** The buffer between BeginPacket and EndPacket: eight zero bytes, the
    payload, and what is left of the array. *)
Lemma BeginPacket_Append w size b0 payload :
  w_n w = 8 ->
  exists tail,
    out_Data (snd (OutBuffer_Append payload (snd (BeginPacket w size b0))))
    = mkSlice (replicate 8 0 ++ payload ++ tail) (8 + length payload).
Proof.
  intros Hn. unfold BeginPacket, OutBuffer_Prepare2, OutBuffer_Append, modify.
  rewrite Hn. cbn [snd out_set_Data out_Data]. unfold append. cbn [len arr].
  change (Z.to_nat 8) with 8%nat.
  rewrite take_replicate.
  replace (Nat.min 8 (Z.to_nat (Z.max 8 (to_int (8 + size))))) with 8%nat by lia.
  destruct (_ <=? _)%nat; eexists; reflexivity.
Qed.

(** C3. Between BeginPacket and EndPacket of a writer with the eight-byte
    header the payload is written. EndPacket then leaves the protocol id
    in bytes 0 to 3 and the payload length, the buffer length less
    eight, in bytes 4 to 7, each as a [uint32] in the byte order of the
    writer, with the payload behind them; when a maximum size is
    configured and the payload is longer, EndPacket panics and the
    buffer stays as the writes left it. *)
Theorem EndPacket_stamps_header (w : PNWriter) (size : Z) (b0 : OutBuffer)
    (payload : list byte) :
  w_n w = 8 -> Z.of_nat (length payload) < 2 ^ 63 - 8 ->
  let b2 := snd (OutBuffer_Append payload (snd (BeginPacket w size b0))) in
  let plen := Z.of_nat (length payload) in
  OutBuffer_Len b2 - 8 = plen /\
  (0 < maxsize (w_settings w) < plen ->
     EndPacket w b2 = (Panicked msg_too_large, b2)) /\
  (~ (0 < maxsize (w_settings w) < plen) ->
     exists b3,
       EndPacket w b2 = (Val tt, b3) /\
       bytes (out_Data b3) =
         uint32_bytes (w_bo w) (to_uint32 (w_id w))
         ++ uint32_bytes (w_bo w) (to_uint32 plen) ++ payload /\
       Uint32 (w_bo w) (take 4 (bytes (out_Data b3))) = Some (to_uint32 (w_id w)) /\
       Uint32 (w_bo w) (take 4 (drop 4 (bytes (out_Data b3)))) = Some (to_uint32 plen) /\
       (0 <= w_id w < 2 ^ 32 -> to_uint32 (w_id w) = w_id w) /\
       (plen < 2 ^ 32 -> to_uint32 plen = plen)).
Proof.
  intros Hn Hp b2 plen.
  destruct (BeginPacket_Append w size b0 payload Hn) as [tail Hd]. fold b2 in Hd.
  assert (Hlen : OutBuffer_Len b2 - 8 = plen).
  { unfold OutBuffer_Len, slice_len. rewrite Hd. cbn [len]. unfold plen. lia. }
  assert (Hsize : to_int (Z.of_nat (8 + length payload) - 8) = plen).
  { rewrite to_int_small; unfold plen; lia. }
  split; [exact Hlen|split].
  - intros Hm. apply EndPacket_too_large. rewrite Hn, Hlen, to_int_small; unfold plen; lia.
  - intros Hm.
    pose proof (EndPacket_stamps w b2 (replicate 8 0) (payload ++ tail) _ Hn Hd
                  eq_refl ltac:(lia) ltac:(now rewrite Hsize)) as HE.
    rewrite Hsize in HE.
    eexists. split; [exact HE|].
    cbn [out_set_Data out_Data].
    assert (Hb : bytes (mkSlice (uint32_bytes (w_bo w) (to_uint32 (w_id w))
                   ++ uint32_bytes (w_bo w) (to_uint32 plen) ++ payload ++ tail)
                   (8 + length payload))
                 = uint32_bytes (w_bo w) (to_uint32 (w_id w))
                   ++ uint32_bytes (w_bo w) (to_uint32 plen) ++ payload).
    { unfold bytes. cbn [arr len]. rewrite !app_assoc. apply take_app_length'.
      rewrite !length_app, !uint32_bytes_length. lia. }
    rewrite Hb. split; [reflexivity|split; [|split; [|split]]].
    + rewrite take_app_length' by now rewrite uint32_bytes_length.
      rewrite <- (app_nil_r (uint32_bytes _ _)).
      apply Uint32_uint32_bytes, to_uint32_range.
    + rewrite drop_app_length' by now rewrite uint32_bytes_length.
      rewrite take_app_length' by now rewrite uint32_bytes_length.
      rewrite <- (app_nil_r (uint32_bytes _ _)).
      apply Uint32_uint32_bytes, to_uint32_range.
    + apply to_uint32_small.
    + intros Hs. apply to_uint32_small. unfold plen in *. lia.
Qed.

End Writer.

(** ** The header width *)

(** C2, as stated, fails: a reader of width four on a connection that is
    closed returns the end of stream, it does not panic; a writer of
    width four whose maximum size is exceeded panics with another
    message. *)
Lemma other_width_without_unsupported_panic :
  NewPNReader 4 BigEndian 123 tt = (Val width4_reader, tt) /\
  r_n width4_reader <> 8 /\
  fst (ReadPacket (mkReadState closed_conn width4_reader new_InBuffer)) = Val (Some EOF) /\
  w_n width4_writer <> 8 /\
  fst (EndPacket width4_writer ten_bytes) = Panicked msg_too_large /\
  msg_too_large <> msg_unsupported.
Proof. repeat split; try reflexivity; discriminate. Qed.

Lemma decode_size_not_unsupported st :
  r_n (reader st) = 8 -> fst (decode_size st) <> Panicked msg_unsupported.
Proof.
  intros Hn. unfold decode_size, bind, get. rewrite Hn. cbn [Z.eqb Pos.eqb].
  unfold reslice_from. destruct (_ && _); cbn; [|discriminate].
  destruct (Uint32 _ _); cbn; discriminate.
Qed.

Lemma InBuffer_Prepare_not_unsupported size b :
  fst (InBuffer_Prepare size b) <> Panicked msg_unsupported.
Proof.
  unfold InBuffer_Prepare, bind, get, make_len, reslice.
  destruct (_ <? size).
  - destruct (size <? 0); cbn; discriminate.
  - destruct (_ && _); cbn; discriminate.
Qed.

Lemma ReadPacket_not_unsupported st :
  r_n (reader st) = 8 -> fst (ReadPacket st) <> Panicked msg_unsupported.
Proof.
  intros Hn. unfold ReadPacket, bind.
  destruct (read_header st) as [o st1] eqn:E1.
  assert (r_n (reader st1) = 8 /\ exists e, o = Val e) as [Hn1 [e ->]].
  { unfold read_header in E1. destruct (io_ReadFull _ _) as [[c h] err].
    injection E1 as <- <-. split; [exact Hn|eauto]. }
  destruct e as [e|]; [cbn; discriminate|].
  pose proof (decode_size_not_unsupported st1 Hn1) as Hd.
  destruct (decode_size st1) as [[size|msg] st2];
    [|cbn in Hd |- *; intros Heq; apply Hd; congruence].
  unfold get. destruct (_ && _); [cbn; discriminate|].
  destruct (size =? 0); [cbn; discriminate|].
  unfold on_buffer, zoom.
  pose proof (InBuffer_Prepare_not_unsupported size (buffer st2)) as Hp.
  destruct (InBuffer_Prepare size (buffer st2)) as [[u|msg] b'];
    [|cbn in Hp |- *; intros Heq; apply Hp; congruence].
  unfold read_payload. destruct (io_ReadFull _ _) as [[c d] err]. cbn. discriminate.
Qed.

Lemma EndPacket_not_unsupported w b :
  w_n w = 8 -> fst (EndPacket w b) <> Panicked msg_unsupported.
Proof.
  intros Hn. unfold EndPacket, bind, get. rewrite Hn. cbn [Z.eqb Pos.eqb].
  destruct (_ && _); [discriminate|].
  unfold on_out_Data, zoom, PutUint32, bind, get, put, reslice_from.
  repeat match goal with
    | |- context [if ?c then _ else _] => destruct c; cbn
    | |- context [match uint32_bytes ?bo ?v with _ => _ end] =>
        destruct bo; unfold uint32_bytes; cbn
    end; discriminate.
Qed.

(** C2, amended. PacketN makes a protocol of header width eight whatever
    width is asked for, and so are its writers and readers. Only that
    width is implemented. With any other width EndPacket panics, with
    "unsupported packet head size" unless the maximum size is exceeded,
    which is tested first and panics with "too large packet"; and
    ReadPacket panics with "unsupported packet head size" once the
    header has been read in full, whereas a header read that falls short
    returns the error of the read. With width eight neither raises that
    panic. *)
Theorem only_width_eight_is_implemented :
  (forall n bo id,
     pn_n (PacketN n bo id) = 8 /\
     w_n (PNProtocol_NewWriter (PacketN n bo id)) = 8 /\
     exists r, PNProtocol_NewReader (PacketN n bo id) tt = (Val r, tt) /\
               r_n r = 8 /\ len (r_head r) = 8%nat) /\
  (forall w b, w_n w <> 8 ->
     (0 < maxsize (w_settings w) < to_int (OutBuffer_Len b - w_n w) ->
        EndPacket w b = (Panicked msg_too_large, b)) /\
     (~ (0 < maxsize (w_settings w) < to_int (OutBuffer_Len b - w_n w)) ->
        EndPacket w b = (Panicked msg_unsupported, b))) /\
  (forall c r b, r_n r <> 8 ->
     ((len (r_head r) <= length (incoming c))%nat ->
        fst (ReadPacket (mkReadState c r b)) = Panicked msg_unsupported /\
        buffer (snd (ReadPacket (mkReadState c r b))) = b) /\
     ((length (incoming c) < len (r_head r))%nat ->
        fst (ReadPacket (mkReadState c r b)) = Val (Some (short_read_error c)) /\
        buffer (snd (ReadPacket (mkReadState c r b))) = b)) /\
  (forall w b, w_n w = 8 -> fst (EndPacket w b) <> Panicked msg_unsupported) /\
  (forall st, r_n (reader st) = 8 -> fst (ReadPacket st) <> Panicked msg_unsupported).
Proof.
  split; [|split; [|split; [|split]]].
  - intros n bo id. split; [reflexivity|split; [reflexivity|]].
    eexists. split; [reflexivity|]. split; reflexivity.
  - intros w b Hn. split; intros Hm.
    + now apply EndPacket_too_large.
    + now apply EndPacket_unsupported.
  - intros c r b Hn. split; intros Hl.
    + unfold ReadPacket, bind.
      rewrite (read_header_full c r b (take (len (r_head r)) (incoming c))
                 (drop (len (r_head r)) (incoming c)))
        by (rewrite ?take_drop, ?length_take; auto; lia).
      rewrite decode_size_other by exact Hn. split; reflexivity.
    + unfold ReadPacket, bind. rewrite read_header_short by exact Hl.
      split; reflexivity.
  - apply EndPacket_not_unsupported.
  - apply ReadPacket_not_unsupported.
Qed.

(** ** The pool invariant *)

Lemma pool_inv_init : pool_inv initWorld.
Proof.
  split; cbn; try (intros ? Hin; now apply elem_of_nil in Hin). apply NoDup_nil_2.
Qed.

(** The invariant looks at the heaps and at the three sub-pools only. *)
Lemma pool_inv_ext w w' :
  inHeap w' = inHeap w -> outHeap w' = outHeap w ->
  pool_in (globalPool w') = pool_in (globalPool w) ->
  pool_out (globalPool w') = pool_out (globalPool w) ->
  pool_data (globalPool w') = pool_data (globalPool w) ->
  pool_inv w -> pool_inv w'.
Proof.
  intros E1 E2 E3 E4 E5 [I1 I2 I3 I4].
  split; rewrite ?E1, ?E2, ?E3, ?E4, ?E5; assumption.
Qed.

Lemma pool_inv_store_in w (p : ptr) x :
  p ∉ pool_in (globalPool w) -> pool_inv w ->
  pool_inv (set_inHeap (<[p := x]> (inHeap w)) w).
Proof.
  intros Hp [I1 I2 I3 I4]. split; cbn; try assumption.
  intros q Hq. destruct (I1 q Hq) as (b & E & ?).
  exists b. split; [|assumption].
  rewrite list_lookup_insert_ne; [exact E|]. intros ->. contradiction.
Qed.

Lemma pool_inv_store_out w (p : ptr) x :
  pool_inv w -> pool_inv (set_outHeap (<[p := x]> (outHeap w)) w).
Proof.
  intros [I1 I2 I3 I4]. split; cbn; try assumption.
  intros q Hq. rewrite length_insert. now apply I3.
Qed.

(** A live shell is not in the sub-pool. *)
Lemma live_not_pooled w (p : ptr) b :
  pool_inv w -> inHeap w !! p = Some b -> in_isFreed b = false ->
  p ∉ pool_in (globalPool w).
Proof.
  intros [I1 _ _ _] E F Hin. destruct (I1 p Hin) as (b' & E' & _ & F').
  rewrite E in E'. injection E' as <-. congruence.
Qed.

Section PoolInvariant.
Context `{GoRuntime}.

Lemma Pool_take_Some {A} (l : list A) x rest :
  Pool_take l = Some (x, rest) ->
  exists i, l !! i = Some x /\ rest = delete i l.
Proof.
  unfold Pool_take. intros E. destruct (l !! _) eqn:El; [|discriminate].
  injection E as <- <-. eauto.
Qed.

Lemma Pool_take_None {A} (l : list A) : Pool_take l = None -> l = [].
Proof.
  unfold Pool_take. destruct l as [|a l]; [reflexivity|].
  intros E. destruct (_ !! _) eqn:El; [discriminate|].
  apply lookup_ge_None in El.
  pose proof (Nat.mod_upper_bound (pick A (a :: l)) (length (a :: l))) as Hb.
  cbn [length] in *. lia.
Qed.

Lemma NoDup_delete_lookup {A} (l : list A) i x :
  NoDup l -> l !! i = Some x -> x ∉ delete i l.
Proof.
  intros Hnd El Hin. apply list_elem_of_lookup in Hin as [j Hj].
  rewrite delete_take_drop in Hj.
  assert (Hi : (i < length l)%nat) by (eapply lookup_lt_Some; eauto).
  destruct (decide (j < i)%nat) as [Hlt|Hge].
  - rewrite lookup_app_l in Hj by (rewrite length_take; lia).
    rewrite lookup_take_lt in Hj by lia.
    assert (i = j) by (eapply NoDup_lookup; eauto). lia.
  - rewrite lookup_app_r in Hj by (rewrite length_take; lia).
    rewrite length_take, lookup_drop in Hj.
    replace (Nat.min i (length l)) with i in Hj by lia.
    assert (i = (S i + (j - i))%nat) by (eapply NoDup_lookup; eauto). lia.
Qed.

Lemma pool_in_Get_inv w :
  pool_inv w ->
  exists p w1 b,
    pool_in_Get w = (Val p, w1) /\ pool_inv w1 /\
    (p ∉ pool_in (globalPool w1)) /\
    inHeap w1 !! p = Some b /\ ReadPos b = 0 /\
    bufferInitSize (globalPool w1) = bufferInitSize (globalPool w).
Proof.
  intros Hinv. pose proof Hinv as [I1 I2 I3 I4].
  unfold pool_in_Get, bind, get, modify, ret.
  destruct (Pool_take (pool_in (globalPool w))) as [[p rest]|] eqn:Et.
  - apply Pool_take_Some in Et as (i & Ei & ->).
    assert (Hp : p ∈ pool_in (globalPool w)) by (apply list_elem_of_lookup; eauto).
    destruct (I1 p Hp) as (b & E & Hpos & _).
    exists p, (upd_pool (set_pool_in (delete i (pool_in (globalPool w)))) w), b.
    split; [reflexivity|]. split; [|split; [|split; [|split]]]; cbn; auto.
    + split; cbn; auto.
      * intros q Hq. apply I1. eapply list_elem_of_delete_inv; eauto.
      * eapply sublist_NoDup; [exact I2 | apply sublist_delete].
    + now apply NoDup_delete_lookup.
  - apply Pool_take_None in Et.
    eexists (length (inHeap w)), _, new_InBuffer.
    split; [reflexivity|]. split; [|split; [|split; [|split]]]; cbn; auto.
    + split; cbn; rewrite ?Et; auto.
      * intros q Hq. now apply elem_of_nil in Hq.
      * apply NoDup_nil_2.
    + rewrite Et. apply not_elem_of_nil.
    + rewrite lookup_app_r by lia. now rewrite Nat.sub_diag.
Qed.

Lemma pool_out_Get_inv w :
  pool_inv w ->
  exists p w1 b,
    pool_out_Get w = (Val p, w1) /\ pool_inv w1 /\
    outHeap w1 !! p = Some b /\
    bufferInitSize (globalPool w1) = bufferInitSize (globalPool w).
Proof.
  intros Hinv. pose proof Hinv as [I1 I2 I3 I4].
  unfold pool_out_Get, bind, get, modify, ret.
  destruct (Pool_take (pool_out (globalPool w))) as [[p rest]|] eqn:Et.
  - apply Pool_take_Some in Et as (i & Ei & ->).
    assert (Hp : p ∈ pool_out (globalPool w)) by (apply list_elem_of_lookup; eauto).
    destruct (lookup_lt_is_Some_2 (outHeap w) p (I3 p Hp)) as [b E].
    exists p, (upd_pool (set_pool_out (delete i (pool_out (globalPool w)))) w), b.
    split; [reflexivity|]. split; [|split]; cbn; auto.
    split; cbn; auto.
    intros q Hq. apply I3. eapply list_elem_of_delete_inv; eauto.
  - apply Pool_take_None in Et.
    eexists (length (outHeap w)), _, new_OutBuffer.
    split; [reflexivity|]. split; [|split]; cbn; auto.
    + split; cbn; rewrite ?Et; auto.
      intros q Hq. now apply elem_of_nil in Hq.
    + rewrite lookup_app_r by lia. now rewrite Nat.sub_diag.
Qed.

Lemma pool_data_Get_inv w :
  pool_inv w ->
  exists o w1,
    pool_data_Get w = (o, w1) /\ pool_inv w1 /\
    inHeap w1 = inHeap w /\ outHeap w1 = outHeap w /\
    pool_in (globalPool w1) = pool_in (globalPool w) /\
    (forall d, o = Val d -> len d = 0%nat) /\
    (0 <= bufferInitSize (globalPool w) -> exists d, o = Val d).
Proof.
  intros Hinv. pose proof Hinv as [I1 I2 I3 I4].
  unfold pool_data_Get, bind, get, modify, ret.
  destruct (Pool_take (pool_data (globalPool w))) as [[d rest]|] eqn:Et.
  - apply Pool_take_Some in Et as (i & Ei & ->).
    assert (Hd : d ∈ pool_data (globalPool w)) by (apply list_elem_of_lookup; eauto).
    eexists _, _. split; [reflexivity|].
    split; [|split; [|split; [|split; [|split]]]]; cbn; auto.
    + split; cbn; auto.
      intros q Hq. apply I4. eapply list_elem_of_delete_inv; eauto.
    + intros d' [= <-]. now apply I4.
    + eauto.
  - unfold make_cap.
    change (0 <? 0) with false. cbn [orb].
    destruct (bufferInitSize (globalPool w) <? 0) eqn:Ei.
    + eexists _, _. split; [reflexivity|].
      split; [|split; [|split; [|split; [|split]]]]; cbn; auto.
      * eapply pool_inv_ext; [| | | | |exact Hinv]; reflexivity.
      * intros d [=].
      * apply Z.ltb_lt in Ei. lia.
    + eexists _, _. split; [reflexivity|].
      split; [|split; [|split; [|split; [|split]]]]; cbn; auto.
      * eapply pool_inv_ext; [| | | | |exact Hinv]; reflexivity.
      * intros d [= <-]. reflexivity.
      * eauto.
Qed.

Lemma GetInBuffer_inv w :
  pool_inv w ->
  exists o w',
    GetInBuffer w = (o, w') /\ pool_inv w' /\
    (forall p, o = Val p ->
       exists b, inHeap w' !! p = Some b /\ ReadPos b = 0 /\
                 in_isFreed b = false /\ len (in_Data b) = 0%nat) /\
    (0 <= bufferInitSize (globalPool w) -> exists p, o = Val p).
Proof.
  intros Hinv. unfold GetInBuffer, NewInBuffer, bind at 1 2, modify at 1 2.
  set (w0 := upd_pool _ (upd_pool _ w)).
  assert (Hinv0 : pool_inv w0) by (eapply pool_inv_ext; [| | | | |exact Hinv]; reflexivity).
  destruct (pool_in_Get_inv w0 Hinv0) as (p & w1 & b & E1 & Hinv1 & Hp1 & Eb & Hpos & Hi1).
  unfold bind at 1. rewrite E1.
  destruct (pool_data_Get_inv w1 Hinv1) as (o & w2 & E2 & Hinv2 & Eh & _ & Ep & Hlen & Hret).
  unfold bind at 1. rewrite E2.
  destruct o as [d|msg].
  - rewrite <- Eh in Eb. rewrite <- Ep in Hp1.
    unfold bind. rewrite (update_in_Some _ _ _ _ Eb).
    rewrite (update_in_Some _ _ (in_set_Data d b))
      by (cbn; eapply lookup_stored; exact Eb).
    cbn [set_inHeap inHeap outHeap globalPool ret]. rewrite stored_twice.
    eexists _, _. split; [reflexivity|]. split; [|split].
    + apply (pool_inv_store_in w2 p _ Hp1 Hinv2).
    + intros q [= <-]. eexists. split; [cbn; eapply lookup_stored; exact Eb|].
      cbn. repeat split; auto.
    + eauto.
  - eexists _, _. split; [reflexivity|]. split; [exact Hinv2|]. split.
    + intros q [=].
    + intros Hi. destruct Hret as [d [=]]. rewrite Hi1. exact Hi.
Qed.

Lemma GetOutBuffer_inv w :
  pool_inv w ->
  exists o w',
    GetOutBuffer w = (o, w') /\ pool_inv w' /\
    (forall p, o = Val p ->
       exists b, outHeap w' !! p = Some b /\ out_isFreed b = false /\
                 isBroadcast b = false /\ refCount b = 0 /\
                 len (out_Data b) = 0%nat) /\
    (0 <= bufferInitSize (globalPool w) -> exists p, o = Val p).
Proof.
  intros Hinv. unfold GetOutBuffer, NewOutBuffer, bind at 1 2, modify at 1 2.
  set (w0 := upd_pool _ (upd_pool _ w)).
  assert (Hinv0 : pool_inv w0) by (eapply pool_inv_ext; [| | | | |exact Hinv]; reflexivity).
  destruct (pool_out_Get_inv w0 Hinv0) as (p & w1 & b & E1 & Hinv1 & Eb & Hi1).
  unfold bind at 1. rewrite E1.
  destruct (pool_data_Get_inv w1 Hinv1) as (o & w2 & E2 & Hinv2 & _ & Eh & _ & Hlen & Hret).
  unfold bind at 1. rewrite E2.
  destruct o as [d|msg].
  - rewrite <- Eh in Eb.
    unfold bind. rewrite (update_out_Some _ _ _ _ Eb).
    rewrite (update_out_Some _ _ (out_set_Data d b))
      by (cbn; eapply lookup_stored; exact Eb).
    rewrite (update_out_Some _ _ (out_set_isFreed false (out_set_Data d b)))
      by (cbn; eapply lookup_stored; eapply lookup_stored; exact Eb).
    rewrite (update_out_Some _ _
               (out_set_isBroadcast false (out_set_isFreed false (out_set_Data d b))))
      by (cbn; do 3 eapply lookup_stored; exact Eb).
    cbn [set_outHeap inHeap outHeap globalPool ret]. rewrite !stored_twice.
    eexists _, _. split; [reflexivity|]. split; [|split].
    + apply (pool_inv_store_out w2 p _ Hinv2).
    + intros q [= <-]. eexists. split; [cbn; eapply lookup_stored; exact Eb|].
      cbn. repeat split; auto.
    + eauto.
  - eexists _, _. split; [reflexivity|]. split; [exact Hinv2|]. split.
    + intros q [=].
    + intros Hi. destruct Hret as [d [=]]. rewrite Hi1. exact Hi.
Qed.

End PoolInvariant.

Lemma InBuffer_Free_inv w (p : ptr) :
  pool_inv w -> pool_inv (snd (InBuffer_Free p w)).
Proof.
  intros Hinv. unfold InBuffer_Free, bind.
  destruct (inHeap w !! p) as [b|] eqn:E.
  2: { unfold load_in. rewrite E. exact Hinv. }
  rewrite (load_in_Some _ _ _ E).
  destruct (in_isFreed b) eqn:F; [exact Hinv|].
  destruct (Z_lt_le_dec (bufferMaxSize (globalPool w)) (slice_cap (in_Data b))) as [Hc|Hc].
  - rewrite (PutInBuffer_drop _ _ _ E Hc).
    eapply pool_inv_ext; [| | | | |exact Hinv]; reflexivity.
  - rewrite (PutInBuffer_recycle _ _ _ E Hc).
    pose proof (live_not_pooled _ _ _ Hinv E F) as Hp.
    destruct Hinv as [I1 I2 I3 I4]. split; cbn.
    + intros q Hq. apply elem_of_cons in Hq as [->|Hq].
      * eexists. split; [eapply lookup_stored; exact E|]. split; reflexivity.
      * destruct (I1 q Hq) as (b' & E' & ?). exists b'. split; [|assumption].
        rewrite list_lookup_insert_ne; [exact E'|]. intros ->. contradiction.
    + apply NoDup_cons_2; assumption.
    + exact I3.
    + intros d Hd. apply elem_of_cons in Hd as [->|Hd]; [reflexivity|now apply I4].
Qed.

Lemma OutBuffer_Free_inv w (p : ptr) :
  pool_inv w -> pool_inv (snd (OutBuffer_Free p w)).
Proof.
  intros Hinv. unfold OutBuffer_Free, bind.
  destruct (outHeap w !! p) as [b|] eqn:E.
  2: { unfold load_out. rewrite E. exact Hinv. }
  rewrite (load_out_Some _ _ _ E).
  destruct (out_isFreed b) eqn:F; [exact Hinv|].
  destruct (Z_lt_le_dec (bufferMaxSize (globalPool w)) (slice_cap (out_Data b))) as [Hc|Hc].
  - rewrite (PutOutBuffer_drop _ _ _ E Hc).
    eapply pool_inv_ext; [| | | | |exact Hinv]; reflexivity.
  - rewrite (PutOutBuffer_recycle _ _ _ E Hc).
    destruct Hinv as [I1 I2 I3 I4]. split; cbn; try assumption.
    + intros q Hq. rewrite length_insert. apply elem_of_cons in Hq as [->|Hq].
      * eapply lookup_lt_Some; exact E.
      * now apply I3.
    + intros d Hd. apply elem_of_cons in Hd as [->|Hd]; [reflexivity|now apply I4].
Qed.

Lemma update_out_inv w (p : ptr) f :
  pool_inv w -> pool_inv (snd (update_out p f w)).
Proof.
  intros Hinv. destruct (outHeap w !! p) as [b|] eqn:E.
  - rewrite (update_out_Some _ _ _ _ E). now apply pool_inv_store_out.
  - unfold update_out, bind, load_out. rewrite E. exact Hinv.
Qed.

(** ** What no use of a buffer breaks *)

Lemma pool_inv_sound w : pool_inv w -> pool_sound w.
Proof.
  intros [I1 I2 I3 I4]. split; auto.
  intros p Hp. destruct (I1 p Hp) as (b & E & _ & F). eauto.
Qed.

Lemma pool_sound_ext w w' :
  inHeap w' = inHeap w -> outHeap w' = outHeap w ->
  pool_in (globalPool w') = pool_in (globalPool w) ->
  pool_out (globalPool w') = pool_out (globalPool w) ->
  pool_data (globalPool w') = pool_data (globalPool w) ->
  pool_sound w -> pool_sound w'.
Proof.
  intros E1 E2 E3 E4 E5 [I1 I2 I3 I4].
  split; rewrite ?E1, ?E2, ?E3, ?E4, ?E5; assumption.
Qed.

(** A store into a shell keeps it when a pooled shell stays marked. *)
Lemma pool_sound_store_in w (p : ptr) x :
  (p ∈ pool_in (globalPool w) -> in_isFreed x = true) -> pool_sound w ->
  pool_sound (set_inHeap (<[p := x]> (inHeap w)) w).
Proof.
  intros Hx [I1 I2 I3 I4]. split; cbn; try assumption.
  intros q Hq. destruct (I1 q Hq) as (b & E & F).
  destruct (decide (p = q)) as [->|Hne].
  - exists x. split; [eapply lookup_stored; exact E | auto].
  - exists b. split; [|exact F]. now rewrite list_lookup_insert_ne.
Qed.

Lemma pool_sound_store_out w (p : ptr) x :
  pool_sound w -> pool_sound (set_outHeap (<[p := x]> (outHeap w)) w).
Proof.
  intros [I1 I2 I3 I4]. split; cbn; try assumption.
  intros q Hq. rewrite length_insert. now apply I3.
Qed.

Lemma unmarked_not_pooled w (p : ptr) b :
  pool_sound w -> inHeap w !! p = Some b -> in_isFreed b = false ->
  p ∉ pool_in (globalPool w).
Proof.
  intros [I1 _ _ _] E F Hin. destruct (I1 p Hin) as (b' & E' & F').
  rewrite E in E'. injection E' as <-. congruence.
Qed.

Section SoundPool.
Context `{GoRuntime}.

Lemma pool_in_Get_sound w :
  pool_sound w ->
  exists p w1 b,
    pool_in_Get w = (Val p, w1) /\ pool_sound w1 /\
    (p ∉ pool_in (globalPool w1)) /\
    inHeap w1 !! p = Some b /\
    bufferInitSize (globalPool w1) = bufferInitSize (globalPool w).
Proof.
  intros Hinv. pose proof Hinv as [I1 I2 I3 I4].
  unfold pool_in_Get, bind, get, modify, ret.
  destruct (Pool_take (pool_in (globalPool w))) as [[p rest]|] eqn:Et.
  - apply Pool_take_Some in Et as (i & Ei & ->).
    assert (Hp : p ∈ pool_in (globalPool w)) by (apply list_elem_of_lookup; eauto).
    destruct (I1 p Hp) as (b & E & _).
    exists p, (upd_pool (set_pool_in (delete i (pool_in (globalPool w)))) w), b.
    split; [reflexivity|]. split; [|split; [|split]]; cbn; auto.
    + split; cbn; auto.
      * intros q Hq. apply I1. eapply list_elem_of_delete_inv; eauto.
      * eapply sublist_NoDup; [exact I2 | apply sublist_delete].
    + now apply NoDup_delete_lookup.
  - apply Pool_take_None in Et.
    eexists (length (inHeap w)), _, new_InBuffer.
    split; [reflexivity|]. split; [|split; [|split]]; cbn; auto.
    + split; cbn; rewrite ?Et; auto.
      * intros q Hq. now apply elem_of_nil in Hq.
      * apply NoDup_nil_2.
    + rewrite Et. apply not_elem_of_nil.
    + rewrite lookup_app_r by lia. now rewrite Nat.sub_diag.
Qed.

Lemma pool_out_Get_sound w :
  pool_sound w ->
  exists p w1 b,
    pool_out_Get w = (Val p, w1) /\ pool_sound w1 /\
    outHeap w1 !! p = Some b /\
    bufferInitSize (globalPool w1) = bufferInitSize (globalPool w).
Proof.
  intros Hinv. pose proof Hinv as [I1 I2 I3 I4].
  unfold pool_out_Get, bind, get, modify, ret.
  destruct (Pool_take (pool_out (globalPool w))) as [[p rest]|] eqn:Et.
  - apply Pool_take_Some in Et as (i & Ei & ->).
    assert (Hp : p ∈ pool_out (globalPool w)) by (apply list_elem_of_lookup; eauto).
    destruct (lookup_lt_is_Some_2 (outHeap w) p (I3 p Hp)) as [b E].
    exists p, (upd_pool (set_pool_out (delete i (pool_out (globalPool w)))) w), b.
    split; [reflexivity|]. split; [|split]; cbn; auto.
    split; cbn; auto.
    intros q Hq. apply I3. eapply list_elem_of_delete_inv; eauto.
  - apply Pool_take_None in Et.
    eexists (length (outHeap w)), _, new_OutBuffer.
    split; [reflexivity|]. split; [|split]; cbn; auto.
    + split; cbn; rewrite ?Et; auto.
      intros q Hq. now apply elem_of_nil in Hq.
    + rewrite lookup_app_r by lia. now rewrite Nat.sub_diag.
Qed.

Lemma pool_data_Get_sound w :
  pool_sound w ->
  exists o w1,
    pool_data_Get w = (o, w1) /\ pool_sound w1 /\
    inHeap w1 = inHeap w /\ outHeap w1 = outHeap w /\
    pool_in (globalPool w1) = pool_in (globalPool w) /\
    (forall d, o = Val d -> len d = 0%nat) /\
    (0 <= bufferInitSize (globalPool w) -> exists d, o = Val d).
Proof.
  intros Hinv. pose proof Hinv as [I1 I2 I3 I4].
  unfold pool_data_Get, bind, get, modify, ret.
  destruct (Pool_take (pool_data (globalPool w))) as [[d rest]|] eqn:Et.
  - apply Pool_take_Some in Et as (i & Ei & ->).
    assert (Hd : d ∈ pool_data (globalPool w)) by (apply list_elem_of_lookup; eauto).
    eexists _, _. split; [reflexivity|].
    split; [|split; [|split; [|split; [|split]]]]; cbn; auto.
    + split; cbn; auto.
      intros q Hq. apply I4. eapply list_elem_of_delete_inv; eauto.
    + intros d' [= <-]. now apply I4.
    + eauto.
  - unfold make_cap.
    change (0 <? 0) with false. cbv iota.
    destruct (bufferInitSize (globalPool w) <? 0) eqn:Ei.
    + eexists _, _. split; [reflexivity|].
      split; [|split; [|split; [|split; [|split]]]]; cbn; auto.
      * eapply pool_sound_ext; [| | | | |exact Hinv]; reflexivity.
      * intros d [=].
      * apply Z.ltb_lt in Ei. lia.
    + eexists _, _. split; [reflexivity|].
      split; [|split; [|split; [|split; [|split]]]]; cbn; auto.
      * eapply pool_sound_ext; [| | | | |exact Hinv]; reflexivity.
      * intros d [= <-]. reflexivity.
      * eauto.
Qed.

Lemma GetInBuffer_sound w :
  pool_sound w ->
  exists o w',
    GetInBuffer w = (o, w') /\ pool_sound w' /\
    (forall p, o = Val p ->
       exists b, inHeap w' !! p = Some b /\
                 in_isFreed b = false /\ len (in_Data b) = 0%nat) /\
    (0 <= bufferInitSize (globalPool w) -> exists p, o = Val p).
Proof.
  intros Hinv. unfold GetInBuffer, NewInBuffer, bind at 1 2, modify at 1 2.
  set (w0 := upd_pool _ (upd_pool _ w)).
  assert (Hinv0 : pool_sound w0)
    by (eapply pool_sound_ext; [| | | | |exact Hinv]; reflexivity).
  destruct (pool_in_Get_sound w0 Hinv0) as (p & w1 & b & E1 & Hinv1 & Hp1 & Eb & Hi1).
  unfold bind at 1. rewrite E1.
  destruct (pool_data_Get_sound w1 Hinv1) as (o & w2 & E2 & Hinv2 & Eh & _ & Ep & Hlen & Hret).
  unfold bind at 1. rewrite E2.
  destruct o as [d|msg].
  - rewrite <- Eh in Eb. rewrite <- Ep in Hp1.
    unfold bind. rewrite (update_in_Some _ _ _ _ Eb).
    rewrite (update_in_Some _ _ (in_set_Data d b))
      by (cbn; eapply lookup_stored; exact Eb).
    cbn [set_inHeap inHeap outHeap globalPool ret]. rewrite stored_twice.
    eexists _, _. split; [reflexivity|]. split; [|split].
    + apply (pool_sound_store_in w2 p); [intros Hp; contradiction | exact Hinv2].
    + intros q [= <-]. eexists. split; [cbn; eapply lookup_stored; exact Eb|].
      cbn. repeat split; auto.
    + eauto.
  - eexists _, _. split; [reflexivity|]. split; [exact Hinv2|]. split.
    + intros q [=].
    + intros Hi. destruct Hret as [d [=]]. rewrite Hi1. exact Hi.
Qed.

Lemma GetOutBuffer_sound w :
  pool_sound w ->
  exists o w',
    GetOutBuffer w = (o, w') /\ pool_sound w' /\
    (forall p, o = Val p ->
       exists b, outHeap w' !! p = Some b /\ out_isFreed b = false /\
                 isBroadcast b = false /\ refCount b = 0 /\
                 len (out_Data b) = 0%nat) /\
    (0 <= bufferInitSize (globalPool w) -> exists p, o = Val p).
Proof.
  intros Hinv. unfold GetOutBuffer, NewOutBuffer, bind at 1 2, modify at 1 2.
  set (w0 := upd_pool _ (upd_pool _ w)).
  assert (Hinv0 : pool_sound w0)
    by (eapply pool_sound_ext; [| | | | |exact Hinv]; reflexivity).
  destruct (pool_out_Get_sound w0 Hinv0) as (p & w1 & b & E1 & Hinv1 & Eb & Hi1).
  unfold bind at 1. rewrite E1.
  destruct (pool_data_Get_sound w1 Hinv1) as (o & w2 & E2 & Hinv2 & _ & Eh & _ & Hlen & Hret).
  unfold bind at 1. rewrite E2.
  destruct o as [d|msg].
  - rewrite <- Eh in Eb.
    unfold bind. rewrite (update_out_Some _ _ _ _ Eb).
    rewrite (update_out_Some _ _ (out_set_Data d b))
      by (cbn; eapply lookup_stored; exact Eb).
    rewrite (update_out_Some _ _ (out_set_isFreed false (out_set_Data d b)))
      by (cbn; eapply lookup_stored; eapply lookup_stored; exact Eb).
    rewrite (update_out_Some _ _
               (out_set_isBroadcast false (out_set_isFreed false (out_set_Data d b))))
      by (cbn; do 3 eapply lookup_stored; exact Eb).
    cbn [set_outHeap inHeap outHeap globalPool ret]. rewrite !stored_twice.
    eexists _, _. split; [reflexivity|]. split; [|split].
    + apply (pool_sound_store_out w2 p _ Hinv2).
    + intros q [= <-]. eexists. split; [cbn; eapply lookup_stored; exact Eb|].
      cbn. repeat split; auto.
    + eauto.
  - eexists _, _. split; [reflexivity|]. split; [exact Hinv2|]. split.
    + intros q [=].
    + intros Hi. destruct Hret as [d [=]]. rewrite Hi1. exact Hi.
Qed.

End SoundPool.

Lemma InBuffer_Free_sound w (p : ptr) :
  pool_sound w -> pool_sound (snd (InBuffer_Free p w)).
Proof.
  intros Hinv. unfold InBuffer_Free, bind.
  destruct (inHeap w !! p) as [b|] eqn:E.
  2: { unfold load_in. rewrite E. exact Hinv. }
  rewrite (load_in_Some _ _ _ E).
  destruct (in_isFreed b) eqn:F; [exact Hinv|].
  destruct (Z_lt_le_dec (bufferMaxSize (globalPool w)) (slice_cap (in_Data b))) as [Hc|Hc].
  - rewrite (PutInBuffer_drop _ _ _ E Hc).
    eapply pool_sound_ext; [| | | | |exact Hinv]; reflexivity.
  - rewrite (PutInBuffer_recycle _ _ _ E Hc).
    pose proof (unmarked_not_pooled _ _ _ Hinv E F) as Hp.
    destruct Hinv as [I1 I2 I3 I4]. split; cbn.
    + intros q Hq. apply elem_of_cons in Hq as [->|Hq].
      * eexists. split; [eapply lookup_stored; exact E|]. reflexivity.
      * destruct (I1 q Hq) as (b' & E' & ?). exists b'. split; [|assumption].
        rewrite list_lookup_insert_ne; [exact E'|]. intros ->. contradiction.
    + apply NoDup_cons_2; assumption.
    + exact I3.
    + intros d Hd. apply elem_of_cons in Hd as [->|Hd]; [reflexivity|now apply I4].
Qed.

Lemma OutBuffer_Free_sound w (p : ptr) :
  pool_sound w -> pool_sound (snd (OutBuffer_Free p w)).
Proof.
  intros Hinv. unfold OutBuffer_Free, bind.
  destruct (outHeap w !! p) as [b|] eqn:E.
  2: { unfold load_out. rewrite E. exact Hinv. }
  rewrite (load_out_Some _ _ _ E).
  destruct (out_isFreed b) eqn:F; [exact Hinv|].
  destruct (Z_lt_le_dec (bufferMaxSize (globalPool w)) (slice_cap (out_Data b))) as [Hc|Hc].
  - rewrite (PutOutBuffer_drop _ _ _ E Hc).
    eapply pool_sound_ext; [| | | | |exact Hinv]; reflexivity.
  - rewrite (PutOutBuffer_recycle _ _ _ E Hc).
    destruct Hinv as [I1 I2 I3 I4]. split; cbn; try assumption.
    + intros q Hq. rewrite length_insert. apply elem_of_cons in Hq as [->|Hq].
      * eapply lookup_lt_Some; exact E.
      * now apply I3.
    + intros d Hd. apply elem_of_cons in Hd as [->|Hd]; [reflexivity|now apply I4].
Qed.

Lemma update_in_sound w (p : ptr) f :
  (forall b, in_isFreed (f b) = in_isFreed b) ->
  pool_sound w -> pool_sound (snd (update_in p f w)).
Proof.
  intros Hf Hinv. destruct (inHeap w !! p) as [b|] eqn:E.
  - rewrite (update_in_Some _ _ _ _ E). apply pool_sound_store_in; [|exact Hinv].
    intros Hp. destruct (sound_in w Hinv p Hp) as (b' & E' & F').
    rewrite E in E'. injection E' as <-. now rewrite Hf.
  - unfold update_in, bind, load_in. rewrite E. exact Hinv.
Qed.

Lemma update_out_sound w (p : ptr) f :
  pool_sound w -> pool_sound (snd (update_out p f w)).
Proof.
  intros Hinv. destruct (outHeap w !! p) as [b|] eqn:E.
  - rewrite (update_out_Some _ _ _ _ E). now apply pool_sound_store_out.
  - unfold update_out, bind, load_out. rewrite E. exact Hinv.
Qed.

(** C7, as stated, fails: after a free through a stale pointer, which
    is not detected, the holder of the buffer prepares it and reads four
    bytes, and the next acquire hands out that shell with the cursor at
    four. No call has panicked. The clients have used a buffer that was
    marked freed. *)
Lemma stale_free_leaves_the_cursor :
  fst (stale_use initWorld) = Val tt /\
  fst (@GetInBuffer stack_runtime (snd (stale_use initWorld))) = Val 0%nat /\
  (ReadPos <$> inHeap (snd (@GetInBuffer stack_runtime (snd (stale_use initWorld))))
               !! 0%nat) = Some 4 /\
  @run stack_runtime stale_acts initWorld = snd (stale_use initWorld) /\
  @disciplined stack_runtime stale_acts initWorld = false.
Proof. vm_compute. repeat split. Qed.

Section Reachable.
Context `{GoRuntime}.

Lemma exec_sound a w : pool_sound w -> pool_sound (snd (exec a w)).
Proof.
  intros Hinv. destruct a; cbn [exec discard snd].
  - destruct (GetInBuffer_sound w Hinv) as (o & w' & E & Hinv' & _).
    unfold NewInBuffer. now rewrite E.
  - destruct (GetOutBuffer_sound w Hinv) as (o & w' & E & Hinv' & _).
    unfold NewOutBuffer. now rewrite E.
  - now apply InBuffer_Free_sound.
  - now apply OutBuffer_Free_sound.
  - unfold use_in. now apply update_in_sound.
  - unfold use_out. now apply update_out_sound.
  - now apply update_out_sound.
  - unfold OutBuffer_broadcastFree, bind. destruct (outHeap w !! p) as [b|] eqn:E.
    2: { unfold load_out. rewrite E. exact Hinv. }
    rewrite (load_out_Some _ _ _ E).
    destruct (isBroadcast b); [|exact Hinv].
    rewrite (update_out_Some _ _ _ _ E).
    destruct (_ =? 0).
    + apply OutBuffer_Free_sound. now apply pool_sound_store_out.
    + now apply pool_sound_store_out.
  - unfold PoolNewDataSize, bind, get. destruct (size =? 0); [exact Hinv|].
    eapply pool_sound_ext; [| | | | |exact Hinv]; reflexivity.
  - unfold PoolMaxDataSize, bind, get. destruct (size =? 0); [exact Hinv|].
    eapply pool_sound_ext; [| | | | |exact Hinv]; reflexivity.
Qed.

Lemma run_sound acts w : pool_sound w -> pool_sound (run acts w).
Proof.
  revert w. induction acts as [|a acts IH]; intros w Hinv; [exact Hinv|].
  cbn [run fold_left]. apply IH. now apply exec_sound.
Qed.

Lemma exec_inv a w : pool_inv w -> allowed a w = true -> pool_inv (snd (exec a w)).
Proof.
  intros Hinv Ha. destruct a; cbn [exec discard snd].
  - destruct (GetInBuffer_inv w Hinv) as (o & w' & E & Hinv' & _).
    unfold NewInBuffer. now rewrite E.
  - destruct (GetOutBuffer_inv w Hinv) as (o & w' & E & Hinv' & _).
    unfold NewOutBuffer. now rewrite E.
  - now apply InBuffer_Free_inv.
  - now apply OutBuffer_Free_inv.
  - unfold use_in. cbn [allowed] in Ha. destruct (inHeap w !! p) as [b|] eqn:E.
    2: { unfold update_in, bind, load_in. rewrite E. exact Hinv. }
    rewrite (update_in_Some _ _ _ _ E).
    apply pool_inv_store_in; [|exact Hinv].
    eapply live_not_pooled; eauto. now apply negb_true_iff.
  - unfold use_out. now apply update_out_inv.
  - now apply update_out_inv.
  - unfold OutBuffer_broadcastFree, bind. destruct (outHeap w !! p) as [b|] eqn:E.
    2: { unfold load_out. rewrite E. exact Hinv. }
    rewrite (load_out_Some _ _ _ E).
    destruct (isBroadcast b); [|exact Hinv].
    rewrite (update_out_Some _ _ _ _ E).
    destruct (_ =? 0).
    + apply OutBuffer_Free_inv. now apply pool_inv_store_out.
    + now apply pool_inv_store_out.
  - unfold PoolNewDataSize, bind, get. destruct (size =? 0); [exact Hinv|].
    eapply pool_inv_ext; [| | | | |exact Hinv]; reflexivity.
  - unfold PoolMaxDataSize, bind, get. destruct (size =? 0); [exact Hinv|].
    eapply pool_inv_ext; [| | | | |exact Hinv]; reflexivity.
Qed.

Lemma run_inv acts w :
  pool_inv w -> disciplined acts w = true -> pool_inv (run acts w).
Proof.
  revert w. induction acts as [|a acts IH]; intros w Hinv Hd; [exact Hinv|].
  cbn [disciplined] in Hd. apply andb_true_iff in Hd as [Ha Hd].
  cbn [run fold_left]. apply IH; [now apply exec_inv | exact Hd].
Qed.

(** C7, amended. Whatever the clients of the pool have done so far, an
    incoming buffer it hands out is not marked freed and has an arena of
    length zero, and an outgoing buffer it hands out is not marked
    freed, is not a broadcast buffer, counts no user and has an arena of
    length zero; the pool does hand out a buffer as long as the
    configured initial capacity is not negative and within the
    allocation limit. The cursor of an incoming buffer it hands out is
    at zero provided that no client has used an incoming buffer while it
    was marked freed: the cursor is reset when a buffer is freed, not
    when it is acquired. *)
Theorem acquired_buffers_are_reset (acts : list action) :
  let w := run acts initWorld in
  (forall p w', GetInBuffer w = (Val p, w') ->
     exists b, inHeap w' !! p = Some b /\
               in_isFreed b = false /\ len (in_Data b) = 0%nat /\
               (disciplined acts initWorld = true -> ReadPos b = 0)) /\
  (forall p w', GetOutBuffer w = (Val p, w') ->
     exists b, outHeap w' !! p = Some b /\ out_isFreed b = false /\
               isBroadcast b = false /\ refCount b = 0 /\
               len (out_Data b) = 0%nat) /\
  (0 <= bufferInitSize (globalPool w) <= maxAlloc ->
     (exists p w', GetInBuffer w = (Val p, w')) /\
     (exists p w', GetOutBuffer w = (Val p, w'))).
Proof.
  intros w.
  assert (Hs : pool_sound w) by (apply run_sound, pool_inv_sound, pool_inv_init).
  destruct (GetInBuffer_sound w Hs) as (oi & wi & Ei & _ & Hi & Hri).
  destruct (GetOutBuffer_sound w Hs) as (oo & wo & Eo & _ & Ho & Hro).
  split; [|split].
  - intros p w' E. rewrite Ei in E. injection E as -> ->.
    destruct (Hi p eq_refl) as (b & Eb & F & L).
    exists b. repeat split; auto.
    intros Hd.
    assert (Hinv : pool_inv w) by (apply run_inv; [apply pool_inv_init | exact Hd]).
    destruct (GetInBuffer_inv w Hinv) as (o & w2 & E2 & _ & Hpos & _).
    rewrite Ei in E2. injection E2 as <- <-.
    destruct (Hpos p eq_refl) as (b' & Eb' & Hz & _).
    rewrite Eb in Eb'. injection Eb' as <-. exact Hz.
  - intros p w' E. rewrite Eo in E. injection E as -> ->. now apply Ho.
  - intros [Hs0 _]. split.
    + destruct (Hri Hs0) as [p ->]. eauto.
    + destruct (Hro Hs0) as [p ->]. eauto.
Qed.

End Reachable.

(** * Further properties of the code *)

(** ** Configuration *)

(** X1. [PoolNewDataSize] and [PoolMaxDataSize] with zero answer the
    current value and leave the world as it is; with another value they
    answer the old value, store the new one, which the next call with
    zero answers, and touch nothing else. *)
Theorem pool_size_get_set (w : World) (size : Z) :
  PoolNewDataSize 0 w = (Val (bufferInitSize (globalPool w)), w) /\
  PoolMaxDataSize 0 w = (Val (bufferMaxSize (globalPool w)), w) /\
  (size <> 0 ->
     (exists w1, PoolNewDataSize size w = (Val (bufferInitSize (globalPool w)), w1) /\
                 PoolNewDataSize 0 w1 = (Val size, w1) /\
                 w1 = upd_pool (set_bufferInitSize size) w) /\
     (exists w1, PoolMaxDataSize size w = (Val (bufferMaxSize (globalPool w)), w1) /\
                 PoolMaxDataSize 0 w1 = (Val size, w1) /\
                 w1 = upd_pool (set_bufferMaxSize size) w)).
Proof.
  split; [reflexivity|]. split; [reflexivity|].
  intros Hs. apply Z.eqb_neq in Hs.
  split; eexists; (split; [|split; [|reflexivity]]).
  - unfold PoolNewDataSize, bind, get, modify, ret. now rewrite Hs.
  - reflexivity.
  - unfold PoolMaxDataSize, bind, get, modify, ret. now rewrite Hs.
  - reflexivity.
Qed.

Section NegativeCapacity.
Context `{GoRuntime}.

(** X2. With a negative initial capacity configured and no arena left in
    the pool, an acquire panics in [make], whose capacity is out of
    range; by then the two requests have been counted, and the fresh
    arena as well. *)
Theorem acquire_panics_on_negative_capacity (w : World) :
  bufferInitSize (globalPool w) < 0 -> pool_data (globalPool w) = [] ->
  exists w1 w2,
    GetInBuffer w = (Panicked msg_makeslice_cap, w1) /\
    getIn (globalPool w1) = atomic_AddUint64 (getIn (globalPool w)) 1 /\
    getData (globalPool w1) = atomic_AddUint64 (getData (globalPool w)) 1 /\
    newData (globalPool w1) = atomic_AddUint64 (newData (globalPool w)) 1 /\
    GetOutBuffer w = (Panicked msg_makeslice_cap, w2) /\
    getOut (globalPool w2) = atomic_AddUint64 (getOut (globalPool w)) 1 /\
    getData (globalPool w2) = atomic_AddUint64 (getData (globalPool w)) 1 /\
    newData (globalPool w2) = atomic_AddUint64 (newData (globalPool w)) 1.
Proof.
  intros Hneg Hd. apply Z.ltb_lt in Hneg.
  destruct w as [ih oh g];
    destruct g as [pin ? ? pout ? ? pdata ? ? ? ? ? ?]; cbn in *. subst.
  unfold GetInBuffer, GetOutBuffer, bind, modify, pool_in_Get, pool_out_Get,
    pool_data_Get, get, ret. cbn.
  destruct (Pool_take pin) as [[p rest]|]; destruct (Pool_take pout) as [[q rest']|];
    cbn; unfold Pool_take, make_cap; cbn; change (0 <? 0) with false;
    cbv iota; rewrite Hneg; cbn;
    eexists _, _; repeat split; reflexivity.
Qed.

End NegativeCapacity.

(** ** Preparing and appending *)

(** X3. [InBuffer.Prepare] leaves the cursor and the freed flag alone. A
    negative size panics and changes nothing; a size within the capacity
    keeps the array, so the buffer exposes what the array held before; a
    larger size, up to the allocation limit, gives a zeroed array of
    exactly that size. *)
Theorem InBuffer_Prepare_cases (b : InBuffer) (size : Z) :
  (size < 0 -> InBuffer_Prepare size b = (Panicked msg_bounds, b)) /\
  (0 <= size <= slice_cap (in_Data b) ->
     exists b', InBuffer_Prepare size b = (Val tt, b') /\
       ReadPos b' = ReadPos b /\ in_isFreed b' = in_isFreed b /\
       slice_len (in_Data b') = size /\ arr (in_Data b') = arr (in_Data b) /\
       bytes (in_Data b') = take (Z.to_nat size) (arr (in_Data b))) /\
  (slice_cap (in_Data b) < size <= maxAlloc ->
     exists b', InBuffer_Prepare size b = (Val tt, b') /\
       ReadPos b' = ReadPos b /\ in_isFreed b' = in_isFreed b /\
       slice_len (in_Data b') = size /\ slice_cap (in_Data b') = size /\
       bytes (in_Data b') = replicate (Z.to_nat size) 0).
Proof.
  assert (Hcap : 0 <= slice_cap (in_Data b)) by (unfold slice_cap; lia).
  unfold InBuffer_Prepare, bind, get, put, make_len, reslice.
  split; [|split].
  - intros Hs.
    replace (slice_cap (in_Data b) <? size) with false by (symmetry; apply Z.ltb_ge; lia).
    replace (0 <=? size) with false by (symmetry; apply Z.leb_gt; lia).
    reflexivity.
  - intros Hs.
    replace (slice_cap (in_Data b) <? size) with false by (symmetry; apply Z.ltb_ge; lia).
    replace (0 <=? size) with true by (symmetry; apply Z.leb_le; lia).
    replace (size <=? slice_cap (in_Data b)) with true by (symmetry; apply Z.leb_le; lia).
    cbn. eexists. split; [reflexivity|]. cbn. unfold slice_len, bytes. cbn.
    rewrite Z.sub_0_r. repeat split; try reflexivity. lia.
  - intros Hs.
    replace (slice_cap (in_Data b) <? size) with true by (symmetry; apply Z.ltb_lt; lia).
    replace (size <? 0) with false by (symmetry; apply Z.ltb_ge; lia).
    cbn. eexists. split; [reflexivity|]. cbn. unfold slice_len, slice_cap, bytes. cbn.
    rewrite length_replicate. repeat split; try lia.
    apply take_ge. rewrite length_replicate. lia.
Qed.

Section Appending.
Context `{GoRuntime}.

Lemma append_bytes s p : wf_slice s -> bytes (append s p) = bytes s ++ p.
Proof.
  unfold wf_slice, append, bytes. intros Hwf.
  destruct (_ <=? _)%nat; cbn [len arr]; rewrite app_assoc;
    apply take_app_length'; rewrite length_app, length_take; lia.
Qed.

Lemma append_wf s p : wf_slice s -> wf_slice (append s p).
Proof.
  unfold wf_slice, append. intros Hwf.
  destruct (_ <=? _)%nat eqn:E; cbn [len arr];
    rewrite !length_app, length_take; lia.
Qed.

Lemma append_cap s p :
  wf_slice s ->
  slice_cap s <= slice_cap (append s p) /\
  ((len s + length p <= length (arr s))%nat -> slice_cap (append s p) = slice_cap s).
Proof.
  unfold wf_slice, append, slice_cap. intros Hwf.
  destruct (_ <=? _)%nat eqn:E; cbn [len arr].
  - apply Nat.leb_le in E.
    rewrite !length_app, length_take, length_drop. split; intros; lia.
  - apply Nat.leb_gt in E.
    rewrite !length_app, length_take, length_replicate. split; intros; lia.
Qed.

(** X4. The writes only append: after two of them the buffer holds what
    it held, then the bytes of the first, then those of the second; the
    length stays within the capacity and the capacity never shrinks.
    [Write] appends like [Append] and reports all of its bytes written,
    without error. *)
Theorem writes_accumulate (b : OutBuffer) (p q : list byte) :
  wf_slice (out_Data b) ->
  let b1 := snd (OutBuffer_Append p b) in
  let b2 := snd (OutBuffer_Append q b1) in
  bytes (out_Data b1) = bytes (out_Data b) ++ p /\
  bytes (out_Data b2) = bytes (out_Data b) ++ p ++ q /\
  wf_slice (out_Data b2) /\
  slice_cap (out_Data b) <= slice_cap (out_Data b1) <= slice_cap (out_Data b2) /\
  OutBuffer_Write p b = (Val (Z.of_nat (length p), None), b1).
Proof.
  intros Hwf b1 b2. unfold b2, b1, OutBuffer_Append, OutBuffer_Write, bind, modify, ret.
  cbn [snd out_set_Data out_Data].
  pose proof (append_wf _ p Hwf) as Hwf1.
  rewrite !append_bytes by assumption. rewrite <- app_assoc.
  repeat split; try reflexivity.
  - now apply append_wf.
  - now apply append_cap.
  - now apply append_cap.
Qed.

(** X5. [OutBuffer.Prepare] with a size within the capacity of the
    buffer or within the allocation limit does not panic and empties the
    buffer; the capacity afterwards is the larger of the old capacity
    and the size asked for, and appending no more than that many bytes
    stays in the same array. *)
Theorem OutBuffer_Prepare_reserves (b : OutBuffer) (size : Z) (p : list byte) :
  size <= slice_cap (out_Data b) \/ size <= maxAlloc ->
  Z.of_nat (length p) <= Z.max (slice_cap (out_Data b)) size ->
  exists b1,
    OutBuffer_Prepare size b = (Val tt, b1) /\
    out_isFreed b1 = out_isFreed b /\ isBroadcast b1 = isBroadcast b /\
    refCount b1 = refCount b /\
    slice_len (out_Data b1) = 0 /\
    slice_cap (out_Data b1) = Z.max (slice_cap (out_Data b)) size /\
    (size <= slice_cap (out_Data b) -> arr (out_Data b1) = arr (out_Data b)) /\
    let b2 := snd (OutBuffer_Append p b1) in
    bytes (out_Data b2) = p /\ slice_cap (out_Data b2) = slice_cap (out_Data b1).
Proof.
  intros _ Hp. assert (Hcap : 0 <= slice_cap (out_Data b)) by (unfold slice_cap; lia).
  unfold OutBuffer_Prepare, bind, get, put, make_cap, reslice.
  destruct (slice_cap (out_Data b) <? size) eqn:E.
  - apply Z.ltb_lt in E.
    replace (size <? 0) with false by (symmetry; apply Z.ltb_ge; lia).
    change (0 <? 0) with false. cbn [orb ret]. eexists. split; [reflexivity|].
    cbn [out_set_Data out_isFreed isBroadcast refCount out_Data].
    set (s1 := mkSlice (replicate (Z.to_nat size) 0) (Z.to_nat 0)).
    assert (Hwf : wf_slice s1) by (unfold wf_slice, s1; cbn; lia).
    assert (Hc1 : slice_cap s1 = size)
      by (unfold slice_cap, s1; cbn; rewrite length_replicate; lia).
    repeat split; try reflexivity.
    + lia.
    + intros; lia.
    + unfold OutBuffer_Append, modify. cbn [snd out_set_Data out_Data].
      rewrite append_bytes by exact Hwf. reflexivity.
    + unfold OutBuffer_Append, modify. cbn [snd out_set_Data out_Data].
      apply append_cap; [exact Hwf|].
      unfold slice_cap, s1 in *. cbn [arr len] in *. change (Z.to_nat 0) with 0%nat. lia.
  - apply Z.ltb_ge in E.
    change (0 <=? 0) with true.
    replace (0 <=? slice_cap (out_Data b)) with true by (symmetry; apply Z.leb_le; lia).
    cbn [andb ret]. eexists. split; [reflexivity|].
    cbn [out_set_Data out_isFreed isBroadcast refCount out_Data].
    change (Z.to_nat 0) with 0%nat. change (Z.to_nat (0 - 0)) with 0%nat. rewrite drop_0.
    set (s1 := mkSlice (arr (out_Data b)) 0).
    assert (Hwf : wf_slice s1) by (unfold wf_slice, s1; cbn; lia).
    repeat split; try reflexivity.
    + unfold slice_cap, s1 in *. cbn [arr]. lia.
    + unfold OutBuffer_Append, modify. cbn [snd out_set_Data out_Data].
      rewrite append_bytes by exact Hwf. reflexivity.
    + unfold OutBuffer_Append, modify. cbn [snd out_set_Data out_Data].
      apply append_cap; [exact Hwf|].
      unfold slice_cap, s1 in *. cbn [arr len] in *. lia.
Qed.

End Appending.

(** ** Reading within the arena *)

Lemma Slice_ok b n :
  0 <= ReadPos b -> 0 <= n -> ReadPos b + n < 2 ^ 63 ->
  ReadPos b + n <= slice_cap (in_Data b) ->
  InBuffer_Slice n b =
    (Val (take (Z.to_nat n) (drop (Z.to_nat (ReadPos b)) (arr (in_Data b)))),
     in_set_ReadPos (ReadPos b + n) b).
Proof.
  intros Hp Hn Hb Hc. unfold InBuffer_Slice, bind, get, put, reslice.
  rewrite to_int_small by lia.
  replace (0 <=? ReadPos b) with true by (symmetry; apply Z.leb_le; lia).
  replace (ReadPos b <=? ReadPos b + n) with true by (symmetry; apply Z.leb_le; lia).
  replace (ReadPos b + n <=? slice_cap (in_Data b)) with true
    by (symmetry; apply Z.leb_le; lia).
  cbn [andb ret]. unfold bytes. cbn [arr len].
  replace (ReadPos b + n - ReadPos b) with n by lia. reflexivity.
Qed.

Lemma Slice_out_of_bounds b n :
  0 <= ReadPos b -> - 2 ^ 63 <= ReadPos b + n < 2 ^ 63 ->
  n < 0 \/ slice_cap (in_Data b) < ReadPos b + n ->
  InBuffer_Slice n b = (Panicked msg_bounds, b).
Proof.
  intros Hp Hb Hc. unfold InBuffer_Slice, bind, get, put, reslice.
  rewrite to_int_small by lia.
  destruct Hc as [Hc|Hc].
  - replace (ReadPos b <=? ReadPos b + n) with false by (symmetry; apply Z.leb_gt; lia).
    now rewrite andb_false_r.
  - replace (ReadPos b + n <=? slice_cap (in_Data b)) with false
      by (symmetry; apply Z.leb_gt; lia).
    now rewrite andb_false_r.
Qed.

Lemma length_Slice_result b n :
  0 <= ReadPos b -> 0 <= n -> ReadPos b + n <= slice_cap (in_Data b) ->
  length (take (Z.to_nat n) (drop (Z.to_nat (ReadPos b)) (arr (in_Data b)))) = Z.to_nat n.
Proof.
  unfold slice_cap. intros. rewrite length_take, length_drop. lia.
Qed.

Lemma read_with_ok b n dec :
  0 <= ReadPos b -> 0 <= n -> ReadPos b + n < 2 ^ 63 ->
  ReadPos b + n <= slice_cap (in_Data b) ->
  (forall l, length l = Z.to_nat n -> dec l <> None) ->
  exists v, read_with n dec b = (Val v, in_set_ReadPos (ReadPos b + n) b).
Proof.
  intros Hp Hn Hb Hc Hdec. unfold read_with, bind. rewrite Slice_ok by assumption.
  pose proof (Hdec _ (length_Slice_result b n Hp Hn Hc)) as Hd.
  destruct (dec _) as [v|]; [|congruence]. eauto.
Qed.

Lemma read_with_out_of_bounds b n dec :
  0 <= ReadPos b -> 0 <= n -> ReadPos b + n < 2 ^ 63 ->
  slice_cap (in_Data b) < ReadPos b + n ->
  read_with n dec b = (Panicked msg_bounds, b).
Proof.
  intros Hp Hn Hb Hc. unfold read_with, bind.
  rewrite Slice_out_of_bounds by (auto; lia). reflexivity.
Qed.

Lemma Uint16_total bo l : length l = 2%nat -> Uint16 bo l <> None.
Proof. destruct l as [|? [|? ?]]; cbn; intros; try discriminate. Qed.
Lemma Uint32_total bo l : length l = 4%nat -> Uint32 bo l <> None.
Proof. destruct l as [|? [|? [|? [|? ?]]]]; cbn; intros; try discriminate. Qed.
Lemma Uint64_total bo l : length l = 8%nat -> Uint64 bo l <> None.
Proof.
  destruct l as [|? [|? [|? [|? [|? [|? [|? [|? ?]]]]]]]]; cbn; intros; try discriminate.
Qed.

(** X6. The reads are checked against the capacity of the arena, not
    against its length. [Slice] of [n] bytes returns the next [n] bytes
    of the array and advances the cursor by [n] whenever they lie within
    the capacity, also past the length; it panics and leaves the buffer
    as it was when [n] is negative or reaches past the capacity. Each
    integer read of width [w] returns a value and advances by [w], or
    panics, in the same way. *)
Theorem reads_are_bounded_by_capacity (b : InBuffer) (n : Z) :
  0 <= ReadPos b < 2 ^ 62 -> - 2 ^ 62 <= n < 2 ^ 62 ->
  (0 <= n -> ReadPos b + n <= slice_cap (in_Data b) ->
     InBuffer_Slice n b =
       (Val (take (Z.to_nat n) (drop (Z.to_nat (ReadPos b)) (arr (in_Data b)))),
        in_set_ReadPos (ReadPos b + n) b) /\
     Z.of_nat (length (take (Z.to_nat n) (drop (Z.to_nat (ReadPos b)) (arr (in_Data b)))))
       = n) /\
  (n < 0 \/ slice_cap (in_Data b) < ReadPos b + n ->
     InBuffer_Slice n b = (Panicked msg_bounds, b)) /\
  reads_in_capacity b 1 InBuffer_ReadUint8 /\
  reads_in_capacity b 2 InBuffer_ReadUint16LE /\
  reads_in_capacity b 2 InBuffer_ReadUint16BE /\
  reads_in_capacity b 4 InBuffer_ReadUint32LE /\
  reads_in_capacity b 4 InBuffer_ReadUint32BE /\
  reads_in_capacity b 8 InBuffer_ReadUint64LE /\
  reads_in_capacity b 8 InBuffer_ReadUint64BE.
Proof.
  intros Hp Hn.
  assert (H62 : 2 ^ 63 = 2 * 2 ^ 62) by reflexivity.
  assert (W : forall w dec, 0 <= w <= 8 ->
              (forall l, length l = Z.to_nat w -> dec l <> None) ->
              reads_in_capacity b w (read_with w dec)).
  { intros w dec Hw Hdec. split; intros Hc.
    - apply read_with_ok; auto; lia.
    - apply read_with_out_of_bounds; auto; lia. }
  split; [|split; [|split; [|repeat split]]].
  - intros Hn0 Hc. split; [apply Slice_ok; lia|].
    rewrite length_Slice_result by lia. lia.
  - intros Hc. apply Slice_out_of_bounds; lia.
  - split; intros Hc.
    + unfold InBuffer_ReadUint8, bind. rewrite Slice_ok by lia.
      pose proof (length_Slice_result b 1 ltac:(lia) ltac:(lia) Hc) as Hl.
      destruct (take _ _) as [|b0 l]; [discriminate Hl|]. eauto.
    + unfold InBuffer_ReadUint8, bind. rewrite Slice_out_of_bounds by lia. reflexivity.
  - apply (W 2 (Uint16 LittleEndian)); [lia|apply Uint16_total].
  - apply (W 2 (Uint16 LittleEndian)); [lia|apply Uint16_total].
  - apply (W 2 (Uint16 BigEndian)); [lia|apply Uint16_total].
  - apply (W 2 (Uint16 BigEndian)); [lia|apply Uint16_total].
  - apply (W 4 (Uint32 LittleEndian)); [lia|apply Uint32_total].
  - apply (W 4 (Uint32 LittleEndian)); [lia|apply Uint32_total].
  - apply (W 4 (Uint32 BigEndian)); [lia|apply Uint32_total].
  - apply (W 4 (Uint32 BigEndian)); [lia|apply Uint32_total].
  - apply (W 8 (Uint64 LittleEndian)); [lia|apply Uint64_total].
  - apply (W 8 (Uint64 LittleEndian)); [lia|apply Uint64_total].
  - apply (W 8 (Uint64 BigEndian)); [lia|apply Uint64_total].
  - apply (W 8 (Uint64 BigEndian)); [lia|apply Uint64_total].
Qed.

(** ** Runes at the end of the data *)

Lemma DecodeRune_size p :
  0 <= snd (DecodeRune p) <= 4 /\
  snd (DecodeRune p) <= Z.of_nat (length p) /\
  (snd (DecodeRune p) = 0 <-> p = []).
Proof.
  destruct p as [|p0 t]; [cbn; repeat split; lia|].
  assert (Hne : p0 :: t <> []) by discriminate.
  unfold DecodeRune.
  repeat match goal with
    | |- context [if ?c then _ else _] => destruct c
    | |- context [let '(_, _) := ?x in _] => destruct x
    | |- context [match ?l with [] => _ | _ :: _ => _ end] => destruct l
    end;
    cbn [snd length]; (split; [lia|split; [lia|split; [lia|congruence]]]).
Qed.

(** X7. [ReadRune] stays within the length of the data: with the cursor
    anywhere in it, it does not panic, moves the cursor by at most four
    bytes and never past the length, and leaves it in place only at the
    end of the data, where it answers U+FFFD. With the cursor past the
    length it panics. *)
Theorem ReadRune_stays_within_length (b : InBuffer) :
  wf_slice (in_Data b) -> slice_len (in_Data b) < 2 ^ 62 ->
  (0 <= ReadPos b <= slice_len (in_Data b) ->
     exists x size,
       InBuffer_ReadRune b = (Val x, in_set_ReadPos (ReadPos b + size) b) /\
       0 <= size <= 4 /\ ReadPos b + size <= slice_len (in_Data b) /\
       (size = 0 <-> ReadPos b = slice_len (in_Data b)) /\
       (ReadPos b = slice_len (in_Data b) -> x = RuneError)) /\
  (slice_len (in_Data b) < ReadPos b ->
     InBuffer_ReadRune b = (Panicked msg_bounds, b)).
Proof.
  intros Hwf Hlen. unfold wf_slice, slice_len in *. split.
  - intros Hp. unfold InBuffer_ReadRune, bind, get, put, reslice_from, slice_len.
    replace (0 <=? ReadPos b) with true by (symmetry; apply Z.leb_le; lia).
    replace (ReadPos b <=? Z.of_nat (len (in_Data b))) with true
      by (symmetry; apply Z.leb_le; lia).
    cbn [andb ret]. unfold bytes. cbn [arr len].
    set (rest := take _ _).
    assert (Hrest : length rest = (len (in_Data b) - Z.to_nat (ReadPos b))%nat).
    { unfold rest. rewrite length_take, length_drop. lia. }
    pose proof (DecodeRune_size rest) as (H1 & H2 & H3).
    destruct (DecodeRune rest) as [x size] eqn:E. cbn [snd] in *.
    assert (H63 : 2 ^ 63 = 2 * 2 ^ 62) by reflexivity.
    rewrite to_int_small by lia.
    exists x, size. split; [reflexivity|]. split; [lia|]. split; [lia|]. split.
    + rewrite H3. split.
      * intros Hr. rewrite Hr in Hrest. cbn in Hrest. lia.
      * intros Hr. apply length_zero_iff_nil. lia.
    + intros Hr. assert (rest = []) as Hn by (apply length_zero_iff_nil; lia).
      rewrite Hn in E. cbn in E. congruence.
  - intros Hp. unfold InBuffer_ReadRune, bind, get, reslice_from, slice_len.
    replace (ReadPos b <=? Z.of_nat (len (in_Data b))) with false
      by (symmetry; apply Z.leb_gt; lia).
    now rewrite andb_false_r.
Qed.

(** ** The reader interface *)

(** X8. [Read] answers [EOF], and nothing else, when the cursor is at the
    end of the data. Before the end it copies as many bytes as the
    destination takes or the data has left, whichever is less, to the
    head of the destination, advances the cursor by that many and
    reports no error, so an empty destination reads zero bytes without
    error. With the cursor past the length it panics. *)
Theorem Read_copies_what_fits (b : InBuffer) (dst : slice) :
  wf_slice (in_Data b) -> wf_slice dst ->
  slice_len (in_Data b) < 2 ^ 62 -> slice_len dst < 2 ^ 62 -> 0 <= ReadPos b ->
  (ReadPos b = slice_len (in_Data b) ->
     InBuffer_Read dst b = (Val (dst, 0, Some EOF), b)) /\
  (ReadPos b < slice_len (in_Data b) ->
     let n := Z.min (slice_len dst) (slice_len (in_Data b) - ReadPos b) in
     exists dst',
       InBuffer_Read dst b = (Val (dst', n, None), in_set_ReadPos (ReadPos b + n) b) /\
       len dst' = len dst /\
       bytes dst' =
         take (Z.to_nat n) (drop (Z.to_nat (ReadPos b)) (bytes (in_Data b)))
         ++ drop (Z.to_nat n) (bytes dst)) /\
  (slice_len (in_Data b) < ReadPos b ->
     InBuffer_Read dst b = (Panicked msg_bounds, b)).
Proof.
  intros Hwf Hwd Hlen Hld Hp. unfold wf_slice in Hwf, Hwd.
  assert (H63 : 2 ^ 63 = 2 * 2 ^ 62) by reflexivity.
  unfold slice_len in Hlen, Hld. split; [|split].
  - intros He. unfold InBuffer_Read, bind, get. rewrite He, Z.eqb_refl. reflexivity.
  - intros Hlt n. unfold slice_len in Hlt.
    unfold InBuffer_Read, bind, get, put, reslice_from, slice_len.
    replace (ReadPos b =? Z.of_nat (len (in_Data b))) with false
      by (symmetry; apply Z.eqb_neq; lia).
    replace (0 <=? ReadPos b) with true by (symmetry; apply Z.leb_le; lia).
    replace (ReadPos b <=? Z.of_nat (len (in_Data b))) with true
      by (symmetry; apply Z.leb_le; lia).
    cbn [andb ret]. rewrite !to_int_small by lia.
    assert (Hn : (if Z.of_nat (len (in_Data b)) <? Z.of_nat (len dst) + ReadPos b
                  then Z.of_nat (len (in_Data b)) - ReadPos b
                  else Z.of_nat (len dst)) = n).
    { unfold n, slice_len.
      destruct (Z.ltb_spec (Z.of_nat (len (in_Data b))) (Z.of_nat (len dst) + ReadPos b));
        lia. }
    rewrite Hn. rewrite to_int_small by (unfold n, slice_len; lia).
    eexists. split; [reflexivity|]. split; [reflexivity|].
    unfold slice_copy, copy_into, bytes. cbn [arr len].
    set (D := take (len dst) (arr dst)).
    set (S := take (len (in_Data b) - Z.to_nat (ReadPos b))
                (drop (Z.to_nat (ReadPos b)) (arr (in_Data b)))).
    assert (HD : length D = len dst) by (unfold D; rewrite length_take; lia).
    assert (HS : length S = (len (in_Data b) - Z.to_nat (ReadPos b))%nat)
      by (unfold S; rewrite length_take, length_drop; lia).
    assert (Hnn : Z.to_nat n = Nat.min (length D) (length S))
      by (unfold n, slice_len; lia).
    replace (drop (Z.to_nat (ReadPos b)) (take (len (in_Data b)) (arr (in_Data b))))
      with S.
    2: { unfold S. rewrite take_drop_commute. do 2 f_equal. lia. }
    rewrite take_app_length' by (rewrite length_app, length_take, length_drop; lia).
    rewrite Hnn.
    destruct (Nat.le_gt_cases (length D) (length S)) as [Hle|Hgt].
    + rewrite Nat.min_l by exact Hle. f_equal.
      rewrite !drop_ge by lia. reflexivity.
    + rewrite Nat.min_r by lia. f_equal. rewrite !take_ge by lia. reflexivity.
  - intros Hgt. unfold slice_len in Hgt.
    unfold InBuffer_Read, bind, get, put, reslice_from, slice_len.
    replace (ReadPos b =? Z.of_nat (len (in_Data b))) with false
      by (symmetry; apply Z.eqb_neq; lia).
    replace (ReadPos b <=? Z.of_nat (len (in_Data b))) with false
      by (symmetry; apply Z.leb_gt; lia).
    now rewrite andb_false_r.
Qed.

(** ** Reading the fields of a message in order *)

Lemma Slice_at data pre l post :
  data = pre ++ l ++ post -> Z.of_nat (length data) < 2 ^ 62 ->
  InBuffer_Slice (Z.of_nat (length l)) (InBuffer_at data pre)
  = (Val l, InBuffer_at data (pre ++ l)).
Proof.
  intros Hd Hb. assert (H63 : 2 ^ 63 = 2 * 2 ^ 62) by reflexivity.
  assert (Hl : (length data = length pre + (length l + length post))%nat)
    by (rewrite Hd, !length_app; lia).
  rewrite Slice_ok; unfold InBuffer_at, slice_cap; cbn [ReadPos in_Data arr len]; try lia.
  rewrite !Nat2Z.id. unfold in_set_ReadPos. cbn [in_Data ReadPos in_isFreed].
  rewrite length_app, Nat2Z.inj_add. f_equal. f_equal.
  rewrite Hd, drop_app_length. apply take_app_length.
Qed.

Lemma read_with_at data pre l post dec v :
  data = pre ++ l ++ post -> Z.of_nat (length data) < 2 ^ 62 -> dec l = Some v ->
  read_with (Z.of_nat (length l)) dec (InBuffer_at data pre)
  = (Val v, InBuffer_at data (pre ++ l)).
Proof.
  intros Hd Hb Hv. unfold read_with, bind.
  rewrite (Slice_at data pre l post) by assumption. now rewrite Hv.
Qed.

Lemma ReadRune_at data pre l :
  data = pre ++ l -> Z.of_nat (length data) < 2 ^ 62 ->
  snd (DecodeRune l) = Z.of_nat (length l) ->
  InBuffer_ReadRune (InBuffer_at data pre)
  = (Val (fst (DecodeRune l)), InBuffer_at data data).
Proof.
  intros Hd Hb Hs. assert (H63 : 2 ^ 63 = 2 * 2 ^ 62) by reflexivity.
  assert (Hl : (length data = length pre + length l)%nat)
    by (rewrite Hd, !length_app; lia).
  unfold InBuffer_ReadRune, InBuffer_at, bind, get, put, reslice_from, slice_len.
  cbn [in_Data ReadPos arr len].
  replace (0 <=? Z.of_nat (length pre)) with true by (symmetry; apply Z.leb_le; lia).
  replace (Z.of_nat (length pre) <=? Z.of_nat (length data)) with true
    by (symmetry; apply Z.leb_le; lia).
  cbn [andb ret]. unfold bytes. cbn [arr len]. rewrite Nat2Z.id.
  replace (take (length data - length pre) (drop (length pre) data)) with l.
  2: { rewrite Hl, Hd, drop_app_length, take_ge by lia. reflexivity. }
  destruct (DecodeRune l) as [x size]. cbn [fst snd] in *. subst size.
  unfold in_set_ReadPos. cbn [in_Data ReadPos in_isFreed].
  rewrite to_int_small by lia. do 3 f_equal. lia.
Qed.

Section MessageRoundTrip.
Context `{GoRuntime}.

(** X9. Fields written one after the other are read back one after the
    other: a byte, a big-endian [uint16], a string, a little-endian
    [uint64] and a rune, written in this order into a fresh buffer, come
    back as they were when read in this order from the bytes written,
    and the cursor ends at the end of the data. *)
Theorem fields_read_back_in_order (arena : list byte) (k a : Z) (s : string) (c r : Z) :
  0 <= k < 2 ^ 8 -> 0 <= a < 2 ^ 16 -> 0 <= c < 2 ^ 64 -> ValidRune r ->
  Z.of_nat (length (bytes_of_string s)) < 2 ^ 61 ->
  let out := snd (write_message k a s c r (fresh_OutBuffer arena)) in
  exists b',
    read_message (Z.of_nat (length (bytes_of_string s)))
      (InBuffer_on (bytes (out_Data out))) = (Val (k, a, s, c, r), b') /\
    ReadPos b' = slice_len (in_Data b') /\
    bytes (in_Data b') = bytes (out_Data out).
Proof.
  intros Hk Ha Hc Hr Hs out.
  set (f1 := [to_byte k]).
  set (f2 := [to_byte (Z.shiftr a 8); to_byte a]).
  set (f3 := bytes_of_string s).
  set (f4 := [to_byte c; to_byte (Z.shiftr c 8); to_byte (Z.shiftr c 16);
              to_byte (Z.shiftr c 24); to_byte (Z.shiftr c 32); to_byte (Z.shiftr c 40);
              to_byte (Z.shiftr c 48); to_byte (Z.shiftr c 56)]).
  set (f5 := EncodeRune r).
  assert (Hout : bytes (out_Data out) = f1 ++ f2 ++ f3 ++ f4 ++ f5).
  { unfold out, write_message, bind, OutBuffer_WriteUint8, OutBuffer_WriteUint16BE,
      OutBuffer_WriteString, OutBuffer_WriteUint64LE, OutBuffer_WriteRune,
      OutBuffer_Append, modify, fresh_OutBuffer.
    cbn [snd out_set_Data out_Data].
    assert (W0 : wf_slice (mkSlice arena 0)) by (unfold wf_slice; cbn; lia).
    rewrite !append_bytes by (repeat apply append_wf; exact W0).
    unfold bytes at 1. cbn [len arr]. rewrite take_0. cbn [app].
    rewrite <- !app_assoc. reflexivity. }
  rewrite Hout. set (data := f1 ++ f2 ++ f3 ++ f4 ++ f5).
  pose proof (EncodeRune_length r) as H5. fold f5 in H5.
  assert (Hdata : Z.of_nat (length data) < 2 ^ 62).
  { unfold data. rewrite !length_app. unfold f1, f2, f4. cbn [length].
    change (2 ^ 62) with 4611686018427387904.
    change (2 ^ 61) with 2305843009213693952 in Hs. fold f3 in Hs. lia. }
  change (InBuffer_on data) with (InBuffer_at data []).
  unfold read_message, bind.
  unfold InBuffer_ReadUint8, bind.
  change (InBuffer_Slice 1) with (InBuffer_Slice (Z.of_nat (length f1))).
  rewrite (Slice_at data [] f1 (f2 ++ f3 ++ f4 ++ f5)) by first [assumption | reflexivity].
  cbn [app]. unfold f1 at 1. cbn [ret]. unfold InBuffer_ReadUint16BE.
  change (read_with 2) with (read_with (Z.of_nat (length f2))).
  rewrite (read_with_at data f1 f2 (f3 ++ f4 ++ f5) _ a)
    by first [assumption | reflexivity | now apply Uint16_BE].
  unfold InBuffer_ReadString, bind. fold f3.
  rewrite (Slice_at data (f1 ++ f2) f3 (f4 ++ f5))
    by first [assumption | unfold data; now rewrite <- !app_assoc].
  cbn [ret]. unfold InBuffer_ReadUint64LE.
  change (read_with 8) with (read_with (Z.of_nat (length f4))).
  rewrite (read_with_at data ((f1 ++ f2) ++ f3) f4 f5 _ c)
    by first [assumption | now apply Uint64_LE | unfold data; now rewrite <- !app_assoc].
  pose proof (DecodeRune_EncodeRune r Hr) as Hdec. fold f5 in Hdec.
  rewrite (ReadRune_at data (((f1 ++ f2) ++ f3) ++ f4) f5)
    by first [assumption | now rewrite Hdec | unfold data; now rewrite <- !app_assoc].
  rewrite Hdec. cbn [fst ret].
  assert (Ek : to_byte k = k) by (apply Z.mod_small; exact Hk).
  eexists. split; [|split].
  - rewrite Ek. unfold f3 at 1. rewrite string_of_bytes_of_string. reflexivity.
  - reflexivity.
  - unfold InBuffer_at, bytes. cbn [in_Data arr len]. apply take_ge. lia.
Qed.

End MessageRoundTrip.

(** ** Decoding, then encoding *)

Lemma div_digit b rest k :
  0 <= k -> 0 <= b < 2 ^ k -> (b + rest * 2 ^ k) / 2 ^ k = rest.
Proof.
  intros Hk Hb. rewrite Z.div_add by lia. rewrite Z.div_small by lia. lia.
Qed.

Lemma le_digits4 b0 b1 b2 b3 :
  is_byte b0 -> is_byte b1 -> is_byte b2 -> is_byte b3 ->
  let v := b0 + b1 * 2 ^ 8 + b2 * 2 ^ 16 + b3 * 2 ^ 24 in
  0 <= v < 2 ^ 32 /\
  to_byte v = b0 /\ to_byte (Z.shiftr v 8) = b1 /\
  to_byte (Z.shiftr v 16) = b2 /\ to_byte (Z.shiftr v 24) = b3.
Proof.
  intros H0 H1 H2 H3 v. unfold is_byte in *. unfold v.
  rewrite !byte_at, byte_at_0 by lia.
  change (2 ^ 8) with 256. change (2 ^ 16) with 65536.
  change (2 ^ 24) with 16777216. change (2 ^ 32) with 4294967296.
  repeat split; try lia; Z.to_euclidean_division_equations; lia.
Qed.

Lemma le_digits2 b0 b1 :
  is_byte b0 -> is_byte b1 ->
  let v := b0 + b1 * 2 ^ 8 in
  0 <= v < 2 ^ 16 /\ to_byte v = b0 /\ to_byte (Z.shiftr v 8) = b1.
Proof.
  intros H0 H1 v. unfold is_byte in *. unfold v.
  rewrite !byte_at, byte_at_0 by lia.
  change (2 ^ 8) with 256. change (2 ^ 16) with 65536.
  repeat split; try lia; Z.to_euclidean_division_equations; lia.
Qed.

Lemma le_digits8 b0 b1 b2 b3 b4 b5 b6 b7 :
  is_byte b0 -> is_byte b1 -> is_byte b2 -> is_byte b3 ->
  is_byte b4 -> is_byte b5 -> is_byte b6 -> is_byte b7 ->
  let v := b0 + b1 * 2 ^ 8 + b2 * 2 ^ 16 + b3 * 2 ^ 24 + b4 * 2 ^ 32 + b5 * 2 ^ 40
           + b6 * 2 ^ 48 + b7 * 2 ^ 56 in
  0 <= v < 2 ^ 64 /\
  to_byte v = b0 /\ to_byte (Z.shiftr v 8) = b1 /\
  to_byte (Z.shiftr v 16) = b2 /\ to_byte (Z.shiftr v 24) = b3 /\
  to_byte (Z.shiftr v 32) = b4 /\ to_byte (Z.shiftr v 40) = b5 /\
  to_byte (Z.shiftr v 48) = b6 /\ to_byte (Z.shiftr v 56) = b7.
Proof.
  intros H0 H1 H2 H3 H4 H5 H6 H7 v.
  pose proof (le_digits4 b0 b1 b2 b3 H0 H1 H2 H3) as (Hlo & L0 & L1 & L2 & L3).
  pose proof (le_digits4 b4 b5 b6 b7 H4 H5 H6 H7) as (Hhi & U0 & U1 & U2 & U3).
  set (lo := b0 + b1 * 2 ^ 8 + b2 * 2 ^ 16 + b3 * 2 ^ 24) in *.
  set (hi := b4 + b5 * 2 ^ 8 + b6 * 2 ^ 16 + b7 * 2 ^ 24) in *.
  assert (Hv : v = lo + hi * 2 ^ 32).
  { unfold v, lo, hi.
    change (2 ^ 8) with 256. change (2 ^ 16) with 65536.
    change (2 ^ 24) with 16777216. change (2 ^ 32) with 4294967296.
    change (2 ^ 40) with 1099511627776. change (2 ^ 48) with 281474976710656.
    change (2 ^ 56) with 72057594037927936. lia. }
  clearbody v lo hi. subst v.
  assert (Hsh : forall k, 0 <= k -> Z.shiftr (lo + hi * 2 ^ 32) (32 + k) = Z.shiftr hi k).
  { intros k Hk. rewrite !Z.shiftr_div_pow2 by lia.
    rewrite Z.pow_add_r, <- Z.div_div by lia. now rewrite div_digit by lia. }
  assert (Hlow : forall k, 0 <= k <= 24 ->
            to_byte (Z.shiftr (lo + hi * 2 ^ 32) k) = to_byte (Z.shiftr lo k)).
  { intros k Hk. rewrite !byte_at by lia.
    replace (2 ^ 32) with (2 ^ (32 - k) * 2 ^ k)
      by (rewrite <- Z.pow_add_r by lia; f_equal; lia).
    rewrite Z.mul_assoc, Z.div_add by lia.
    replace (2 ^ (32 - k)) with (2 ^ (32 - k - 8) * 2 ^ 8)
      by (rewrite <- Z.pow_add_r by lia; f_equal; lia).
    change (2 ^ 8) with 256. rewrite Z.mul_assoc, Z.mod_add by lia. reflexivity. }
  split.
  { change (2 ^ 32) with 4294967296 in *.
    change (2 ^ 64) with (4294967296 * 4294967296). nia. }
  assert (Hl0 : to_byte (lo + hi * 2 ^ 32) = to_byte lo).
  { rewrite !byte_at_0. change (2 ^ 32) with (16777216 * 256).
    now rewrite Z.mul_assoc, Z.mod_add by lia. }
  rewrite Hl0, (Hlow 8), (Hlow 16), (Hlow 24) by lia.
  pose proof (Hsh 0 ltac:(lia)) as S0. rewrite Z.shiftr_0_r in S0.
  pose proof (Hsh 8 ltac:(lia)) as S1. pose proof (Hsh 16 ltac:(lia)) as S2.
  pose proof (Hsh 24 ltac:(lia)) as S3.
  change (32 + 0) with 32 in S0. change (32 + 8) with 40 in S1.
  change (32 + 16) with 48 in S2. change (32 + 24) with 56 in S3.
  rewrite S0, S1, S2, S3.
  repeat split; assumption.
Qed.

(** What the decoders of encoding/binary read from bytes is within the
    range of its type, and its bytes in the same order are the bytes
    read. *)
Lemma decode_then_encode (b0 b1 b2 b3 b4 b5 b6 b7 : byte) :
  is_byte b0 -> is_byte b1 -> is_byte b2 -> is_byte b3 ->
  is_byte b4 -> is_byte b5 -> is_byte b6 -> is_byte b7 ->
  (exists v, Uint16 LittleEndian [b0; b1] = Some v /\ 0 <= v < 2 ^ 16 /\
             [to_byte v; to_byte (Z.shiftr v 8)] = [b0; b1]) /\
  (exists v, Uint16 BigEndian [b0; b1] = Some v /\ 0 <= v < 2 ^ 16 /\
             [to_byte (Z.shiftr v 8); to_byte v] = [b0; b1]) /\
  (forall bo, exists v, Uint32 bo [b0; b1; b2; b3] = Some v /\ 0 <= v < 2 ^ 32 /\
             uint32_bytes bo v = [b0; b1; b2; b3]) /\
  (exists v, Uint64 LittleEndian [b0; b1; b2; b3; b4; b5; b6; b7] = Some v /\
             0 <= v < 2 ^ 64 /\
             [to_byte v; to_byte (Z.shiftr v 8); to_byte (Z.shiftr v 16);
              to_byte (Z.shiftr v 24); to_byte (Z.shiftr v 32); to_byte (Z.shiftr v 40);
              to_byte (Z.shiftr v 48); to_byte (Z.shiftr v 56)]
             = [b0; b1; b2; b3; b4; b5; b6; b7]) /\
  (exists v, Uint64 BigEndian [b0; b1; b2; b3; b4; b5; b6; b7] = Some v /\
             0 <= v < 2 ^ 64 /\
             [to_byte (Z.shiftr v 56); to_byte (Z.shiftr v 48); to_byte (Z.shiftr v 40);
              to_byte (Z.shiftr v 32); to_byte (Z.shiftr v 24); to_byte (Z.shiftr v 16);
              to_byte (Z.shiftr v 8); to_byte v]
             = [b0; b1; b2; b3; b4; b5; b6; b7]).
Proof.
  intros H0 H1 H2 H3 H4 H5 H6 H7.
  split; [|split; [|split; [|split]]].
  - eexists. split; [reflexivity|]. rewrite lor2 by assumption.
    destruct (le_digits2 b0 b1 H0 H1) as (Hr & -> & ->). split; [exact Hr|reflexivity].
  - eexists. split; [reflexivity|]. rewrite lor2 by assumption.
    destruct (le_digits2 b1 b0 H1 H0) as (Hr & -> & ->). split; [exact Hr|reflexivity].
  - intros [|]; (eexists; split; [reflexivity|]); rewrite lor4 by assumption.
    + destruct (le_digits4 b0 b1 b2 b3 H0 H1 H2 H3) as (Hr & E0 & E1 & E2 & E3).
      split; [exact Hr|]. cbn [uint32_bytes]. now rewrite E0, E1, E2, E3.
    + destruct (le_digits4 b3 b2 b1 b0 H3 H2 H1 H0) as (Hr & E0 & E1 & E2 & E3).
      split; [exact Hr|]. cbn [uint32_bytes]. now rewrite E0, E1, E2, E3.
  - eexists. split; [reflexivity|]. rewrite lor8 by assumption.
    destruct (le_digits8 b0 b1 b2 b3 b4 b5 b6 b7 H0 H1 H2 H3 H4 H5 H6 H7)
      as (Hr & E0 & E1 & E2 & E3 & E4 & E5 & E6 & E7).
    split; [exact Hr|]. now rewrite E0, E1, E2, E3, E4, E5, E6, E7.
  - eexists. split; [reflexivity|]. rewrite lor8 by assumption.
    destruct (le_digits8 b7 b6 b5 b4 b3 b2 b1 b0 H7 H6 H5 H4 H3 H2 H1 H0)
      as (Hr & E0 & E1 & E2 & E3 & E4 & E5 & E6 & E7).
    split; [exact Hr|]. now rewrite E0, E1, E2, E3, E4, E5, E6, E7.
Qed.

Section Relay.
Context `{GoRuntime}.

Lemma relay_read_with n dec (w : Z -> M OutBuffer unit) l arena v p :
  n = Z.of_nat (length l) -> n < 2 ^ 63 -> dec l = Some v ->
  w v = OutBuffer_Append p ->
  relay (read_with n dec) w l arena = Val p.
Proof.
  intros Hn Hb Hd Hw. unfold relay, read_with, bind.
  rewrite Slice_all by assumption. rewrite Hd. unfold ret. rewrite Hw.
  unfold OutBuffer_Append, modify, fresh_OutBuffer. cbn [snd out_set_Data out_Data].
  now rewrite bytes_append_fresh.
Qed.

(** X10. An unsigned integer read from an incoming buffer and written to
    an outgoing buffer with the method of the same width and byte order
    puts the bytes that were read into the outgoing buffer: a relay
    reproduces the wire bytes, so no two byte sequences read as the same
    value. *)
Theorem relayed_integers_keep_their_bytes (b0 b1 b2 b3 b4 b5 b6 b7 : byte)
    (arena : list byte) :
  is_byte b0 -> is_byte b1 -> is_byte b2 -> is_byte b3 ->
  is_byte b4 -> is_byte b5 -> is_byte b6 -> is_byte b7 ->
  relay InBuffer_ReadUint8 OutBuffer_WriteUint8 [b0] arena = Val [b0] /\
  relay InBuffer_ReadUint16LE OutBuffer_WriteUint16LE [b0; b1] arena = Val [b0; b1] /\
  relay InBuffer_ReadUint16BE OutBuffer_WriteUint16BE [b0; b1] arena = Val [b0; b1] /\
  relay InBuffer_ReadUint32LE OutBuffer_WriteUint32LE [b0; b1; b2; b3] arena
    = Val [b0; b1; b2; b3] /\
  relay InBuffer_ReadUint32BE OutBuffer_WriteUint32BE [b0; b1; b2; b3] arena
    = Val [b0; b1; b2; b3] /\
  relay InBuffer_ReadUint64LE OutBuffer_WriteUint64LE [b0; b1; b2; b3; b4; b5; b6; b7] arena
    = Val [b0; b1; b2; b3; b4; b5; b6; b7] /\
  relay InBuffer_ReadUint64BE OutBuffer_WriteUint64BE [b0; b1; b2; b3; b4; b5; b6; b7] arena
    = Val [b0; b1; b2; b3; b4; b5; b6; b7].
Proof.
  intros H0 H1 H2 H3 H4 H5 H6 H7.
  destruct (decode_then_encode b0 b1 b2 b3 b4 b5 b6 b7 H0 H1 H2 H3 H4 H5 H6 H7)
    as ((v2l & D2l & _ & E2l) & (v2b & D2b & _ & E2b) & D4
        & (v8l & D8l & _ & E8l) & (v8b & D8b & _ & E8b)).
  destruct (D4 LittleEndian) as (v4l & D4l & _ & E4l).
  destruct (D4 BigEndian) as (v4b & D4b & _ & E4b).
  split; [|repeat split].
  - unfold relay, InBuffer_ReadUint8, bind. rewrite Slice_all by (cbn; lia).
    unfold ret, OutBuffer_WriteUint8, OutBuffer_Append, modify, fresh_OutBuffer.
    cbn [snd out_set_Data out_Data]. rewrite bytes_append_fresh.
    unfold is_byte in H0. unfold to_byte, wrap_unsigned.
    change (2 ^ 8) with 256. now rewrite Z.mod_small by lia.
  - apply (relay_read_with 2 _ _ _ _ v2l); auto; [cbn; lia|].
    unfold OutBuffer_WriteUint16LE. now rewrite E2l.
  - apply (relay_read_with 2 _ _ _ _ v2b); auto; [cbn; lia|].
    unfold OutBuffer_WriteUint16BE. now rewrite E2b.
  - apply (relay_read_with 4 _ _ _ _ v4l); auto; [cbn; lia|].
    unfold OutBuffer_WriteUint32LE. cbn [uint32_bytes] in E4l. now rewrite E4l.
  - apply (relay_read_with 4 _ _ _ _ v4b); auto; [cbn; lia|].
    unfold OutBuffer_WriteUint32BE. cbn [uint32_bytes] in E4b. now rewrite E4b.
  - apply (relay_read_with 8 _ _ _ _ v8l); auto; [cbn; lia|].
    unfold OutBuffer_WriteUint64LE. now rewrite E8l.
  - apply (relay_read_with 8 _ _ _ _ v8b); auto; [cbn; lia|].
    unfold OutBuffer_WriteUint64BE. now rewrite E8b.
Qed.

End Relay.

(** ** Balanced broadcast *)

Lemma with_refCount_lookup w (p : ptr) b c :
  outHeap w !! p = Some b ->
  outHeap (with_refCount w p b c) !! p = Some (out_set_refCount c b).
Proof. intros E. cbn. eapply lookup_stored; exact E. Qed.

Lemma with_refCount_again w (p : ptr) b c c' :
  set_outHeap (<[p := out_set_refCount c' (out_set_refCount c b)]>
                 (outHeap (with_refCount w p b c))) (with_refCount w p b c)
  = with_refCount w p b c'.
Proof. unfold with_refCount. cbn. now rewrite stored_twice. Qed.

Lemma to_int32_small z : - 2 ^ 31 <= z < 2 ^ 31 -> to_int32 z = z.
Proof.
  intros Hz. unfold to_int32, wrap_signed.
  change (32 - 1) with 31. rewrite Z.mod_small; [lia|].
  change (2 ^ 32) with (2 * 2 ^ 31). lia.
Qed.

Lemma broadcastUse_step w (p : ptr) b c :
  outHeap w !! p = Some b -> - 2 ^ 31 <= c + 1 < 2 ^ 31 ->
  OutBuffer_broadcastUse p (with_refCount w p b c) = (Val tt, with_refCount w p b (c + 1)).
Proof.
  intros E Hc. unfold OutBuffer_broadcastUse.
  rewrite (update_out_Some _ _ _ _ (with_refCount_lookup w p b c E)).
  unfold atomic_AddInt32. cbn [refCount out_set_refCount].
  rewrite to_int32_small by exact Hc.
  now rewrite <- (with_refCount_again w p b c (c + 1)).
Qed.

Lemma broadcastFree_step w (p : ptr) b c :
  outHeap w !! p = Some b -> isBroadcast b = true ->
  - 2 ^ 31 <= c - 1 < 2 ^ 31 -> c <> 1 ->
  OutBuffer_broadcastFree p (with_refCount w p b c) = (Val tt, with_refCount w p b (c - 1)).
Proof.
  intros E Hb Hc Hne. unfold OutBuffer_broadcastFree, bind.
  rewrite (load_out_Some _ _ _ (with_refCount_lookup w p b c E)).
  cbn [isBroadcast out_set_refCount refCount]. rewrite Hb.
  unfold atomic_AddInt32. replace (c + -1) with (c - 1) by lia.
  rewrite to_int32_small by exact Hc.
  rewrite (update_out_Some _ _ _ _ (with_refCount_lookup w p b c E)).
  replace (c - 1 =? 0) with false by (symmetry; apply Z.eqb_neq; lia).
  cbn [ret]. f_equal.
  now rewrite <- (with_refCount_again w p b c (c - 1)).
Qed.

Lemma broadcastFree_last w (p : ptr) b :
  outHeap w !! p = Some b -> isBroadcast b = true -> out_isFreed b = false ->
  OutBuffer_broadcastFree p (with_refCount w p b 1)
  = PutOutBuffer p (with_refCount w p b 0).
Proof.
  intros E Hb Hf. unfold OutBuffer_broadcastFree, bind.
  rewrite (load_out_Some _ _ _ (with_refCount_lookup w p b 1 E)).
  cbn [isBroadcast out_set_refCount refCount]. rewrite Hb.
  change (atomic_AddInt32 1 (-1)) with 0.
  rewrite (update_out_Some _ _ _ _ (with_refCount_lookup w p b 1 E)).
  cbn [Z.eqb].
  replace (set_outHeap _ (with_refCount w p b 1)) with (with_refCount w p b 0)
    by (symmetry; apply with_refCount_again).
  eapply Free_out_live; [apply with_refCount_lookup; exact E | exact Hf].
Qed.

Lemma repeat_broadcastUse w (p : ptr) b n : forall c,
  outHeap w !! p = Some b -> 0 <= c -> c + Z.of_nat n < 2 ^ 31 ->
  repeat_M n (OutBuffer_broadcastUse p) (with_refCount w p b c)
  = (Val tt, with_refCount w p b (c + Z.of_nat n)).
Proof.
  induction n as [|n IH]; intros c E Hc Hn.
  - cbn. now rewrite Z.add_0_r.
  - cbn [repeat_M]. unfold bind. rewrite broadcastUse_step by (auto; lia).
    rewrite IH by (auto; lia). do 2 f_equal. lia.
Qed.

Lemma repeat_broadcastFree w (p : ptr) b n : forall c,
  outHeap w !! p = Some b -> isBroadcast b = true ->
  Z.of_nat n < c < 2 ^ 31 ->
  repeat_M n (OutBuffer_broadcastFree p) (with_refCount w p b c)
  = (Val tt, with_refCount w p b (c - Z.of_nat n)).
Proof.
  induction n as [|n IH]; intros c E Hb Hc.
  - cbn. now rewrite Z.sub_0_r.
  - cbn [repeat_M]. unfold bind. rewrite broadcastFree_step by (auto; lia).
    rewrite IH by (auto; lia). do 2 f_equal. lia.
Qed.

Lemma repeat_M_snoc {S} n (m : M S unit) s :
  repeat_M (Datatypes.S n) m s = (repeat_M n m ;;; m) s.
Proof.
  revert s. induction n as [|n IH]; intros s.
  - cbn. unfold bind, ret. destruct (m s) as [[[]|msg] s']; reflexivity.
  - change (repeat_M (Datatypes.S (Datatypes.S n)) m s)
      with ((m ;;; repeat_M (Datatypes.S n) m) s).
    unfold bind at 1. destruct (m s) as [[[]|msg] s'] eqn:E.
    + rewrite IH. cbn [repeat_M]. unfold bind. now rewrite E.
    + cbn [repeat_M]. unfold bind. now rewrite E.
Qed.

(** X11. A broadcast buffer used by [n] destinations and released by each
    of them is freed once, by the last release: the releases before it
    only count down, and the whole has the effect of one release of the
    buffer to the pool. *)
Theorem balanced_broadcast_frees_once (w : World) (p : ptr) (b : OutBuffer) (n : nat) :
  outHeap w !! p = Some b ->
  isBroadcast b = true -> out_isFreed b = false -> refCount b = 0 ->
  Z.of_nat n < 2 ^ 31 - 1 ->
  let uses := repeat_M (S n) (OutBuffer_broadcastUse p) in
  let releases k := repeat_M k (OutBuffer_broadcastFree p) in
  (uses ;;; releases n) w = (Val tt, with_refCount w p b 1) /\
  (uses ;;; releases (S n)) w = PutOutBuffer p w /\
  fst (PutOutBuffer p w) = Val tt.
Proof.
  intros E Hb Hf Hrc Hn uses releases.
  assert (Hw : forall c, c = 0 -> with_refCount w p b c = w).
  { intros c ->. unfold with_refCount. destruct b as [d f bc rc]. cbn in Hrc. subst rc.
    cbn. rewrite list_insert_id by exact E. now destruct w. }
  assert (Hu : uses w = (Val tt, with_refCount w p b (Z.of_nat (S n)))).
  { unfold uses. rewrite <- (Hw 0 eq_refl) at 1.
    rewrite repeat_broadcastUse by (auto; lia). reflexivity. }
  assert (Hr : releases n (with_refCount w p b (Z.of_nat (S n)))
               = (Val tt, with_refCount w p b 1)).
  { unfold releases. rewrite repeat_broadcastFree by (auto; lia).
    do 2 f_equal. lia. }
  split; [|split].
  - unfold bind. now rewrite Hu, Hr.
  - unfold bind. rewrite Hu. unfold releases. rewrite repeat_M_snoc.
    fold (releases n). unfold bind. rewrite Hr.
    rewrite broadcastFree_last by assumption. now rewrite (Hw 0 eq_refl).
  - destruct (Z_lt_le_dec (bufferMaxSize (globalPool w)) (slice_cap (out_Data b))) as [Hc|Hc].
    + now rewrite (PutOutBuffer_drop _ _ _ E Hc).
    + now rewrite (PutOutBuffer_recycle _ _ _ E Hc).
Qed.

(** ** A second free *)

(** X12. After a [Free] that recycled the buffer, incoming or outgoing, a
    second [Free] panics with the double-free message and changes
    nothing: the shell stays in the sub-pool once. *)
Theorem second_free_after_recycling_panics (w : World) (p : ptr) :
  (forall b, inHeap w !! p = Some b -> in_isFreed b = false ->
     slice_cap (in_Data b) <= bufferMaxSize (globalPool w) ->
     exists w1, InBuffer_Free p w = (Val tt, w1) /\
                pool_in (globalPool w1) = p :: pool_in (globalPool w) /\
                InBuffer_Free p w1 = (Panicked msg_in_double_free, w1)) /\
  (forall b, outHeap w !! p = Some b -> out_isFreed b = false ->
     slice_cap (out_Data b) <= bufferMaxSize (globalPool w) ->
     exists w1, OutBuffer_Free p w = (Val tt, w1) /\
                pool_out (globalPool w1) = p :: pool_out (globalPool w) /\
                OutBuffer_Free p w1 = (Panicked msg_out_double_free, w1)).
Proof.
  split; intros b E F Hc.
  - eexists. split; [|split].
    + rewrite (Free_in_live _ _ _ E F). apply (PutInBuffer_recycle _ _ _ E Hc).
    + reflexivity.
    + eapply Free_in_freed; [cbn; eapply lookup_stored; exact E | reflexivity].
  - eexists. split; [|split].
    + rewrite (Free_out_live _ _ _ E F). apply (PutOutBuffer_recycle _ _ _ E Hc).
    + reflexivity.
    + eapply Free_out_freed; [cbn; eapply lookup_stored; exact E | reflexivity].
Qed.

(** ** Hits and misses of the pool *)

Section Accounting.
Context `{GoRuntime}.

Lemma pool_in_Get_cases w :
  (pool_in (globalPool w) = [] /\
   pool_in_Get w =
     (Val (length (inHeap w)),
      mkWorld (inHeap w ++ [new_InBuffer]) (outHeap w)
        (set_newIn (atomic_AddUint64 (newIn (globalPool w)) 1) (globalPool w))))
  \/
  (exists i x, pool_in (globalPool w) !! i = Some x /\
     pool_in_Get w = (Val x, upd_pool (set_pool_in (delete i (pool_in (globalPool w)))) w)).
Proof.
  unfold pool_in_Get, bind, get, modify, ret.
  destruct (Pool_take (pool_in (globalPool w))) as [[x rest]|] eqn:Et.
  - right. apply Pool_take_Some in Et as (i & Ei & ->). eauto.
  - left. apply Pool_take_None in Et. split; [exact Et|]. now destruct w.
Qed.

Lemma pool_data_Get_cases w :
  (pool_data (globalPool w) = [] /\
   pool_data_Get w =
     make_cap 0 (bufferInitSize (globalPool w))
       (upd_pool (fun g => set_newData (atomic_AddUint64 (newData g) 1) g) w))
  \/
  (exists i d, pool_data (globalPool w) !! i = Some d /\
     pool_data_Get w = (Val d, upd_pool (set_pool_data (delete i (pool_data (globalPool w)))) w)).
Proof.
  unfold pool_data_Get, bind, get, modify, ret.
  destruct (Pool_take (pool_data (globalPool w))) as [[x rest]|] eqn:Et.
  - right. apply Pool_take_Some in Et as (i & Ei & ->). eauto.
  - left. apply Pool_take_None in Et. split; [exact Et|]. reflexivity.
Qed.

Lemma make_cap_0 {S} c (s : S) d s' :
  make_cap 0 c s = (Val d, s') -> s' = s /\ len d = 0%nat /\ slice_cap d = c.
Proof.
  unfold make_cap. change (0 <? 0) with false. cbn [orb].
  destruct (Z.ltb_spec c 0); [discriminate|].
  intros [= <- <-]. unfold slice_cap. cbn. rewrite length_replicate.
  repeat split; lia.
Qed.

Lemma length_delete_lookup {A} (l : list A) i x :
  l !! i = Some x -> S (length (delete i l)) = length l.
Proof.
  intros E. rewrite length_delete by eauto.
  apply lookup_lt_Some in E. lia.
Qed.

(** What an acquire of an incoming buffer does to the world. *)
Lemma GetInBuffer_effect w p w' :
  GetInBuffer w = (Val p, w') ->
  exists b d w1 w2,
    pool_in_Get (upd_pool (fun g => set_getData (atomic_AddUint64 (getData g) 1) g)
                   (upd_pool (fun g => set_getIn (atomic_AddUint64 (getIn g) 1) g) w))
    = (Val p, w1) /\
    pool_data_Get w1 = (Val d, w2) /\
    inHeap w2 !! p = Some b /\
    w' = set_inHeap (<[p := mkInBuffer d (ReadPos b) false]> (inHeap w2)) w2.
Proof.
  unfold GetInBuffer, bind at 1 2, modify at 1 2.
  set (w0 := upd_pool _ (upd_pool _ w)).
  unfold bind at 1. destruct (pool_in_Get w0) as [[q|msg] w1] eqn:E1; [|discriminate].
  unfold bind at 1. destruct (pool_data_Get w1) as [[d|msg] w2] eqn:E2; [|discriminate].
  destruct (inHeap w2 !! q) as [b|] eqn:Eb.
  - unfold bind. rewrite (update_in_Some _ _ _ _ Eb).
    rewrite (update_in_Some _ _ (in_set_Data d b))
      by (cbn; eapply lookup_stored; exact Eb).
    cbn [ret set_inHeap inHeap outHeap globalPool]. rewrite stored_twice.
    intros [= <- <-]. exists b, d, w1, w2. repeat split; auto.
  - unfold bind, update_in, bind, load_in. rewrite Eb. discriminate.
Qed.

(** X13. An acquire counts one request for the shell and one for the
    arena. It allocates a shell, and counts it, exactly when the shell
    sub-pool is empty, and otherwise hands out a pooled shell, which
    leaves the sub-pool; it makes an arena of the configured initial
    capacity, and counts it, exactly when the arena sub-pool is empty,
    and otherwise hands out a pooled arena. The counts of frees and
    drops and the configuration stay as they are. *)
Theorem acquire_accounting (w : World) (p : ptr) (w' : World) :
  GetInBuffer w = (Val p, w') ->
  let g := globalPool w in
  let g' := globalPool w' in
  getIn g' = atomic_AddUint64 (getIn g) 1 /\
  getData g' = atomic_AddUint64 (getData g) 1 /\
  freeCount g' = freeCount g /\ dropCount g' = dropCount g /\
  bufferInitSize g' = bufferInitSize g /\ bufferMaxSize g' = bufferMaxSize g /\
  (pool_in g = [] ->
     newIn g' = atomic_AddUint64 (newIn g) 1 /\ p = length (inHeap w) /\
     length (inHeap w') = S (length (inHeap w)) /\ pool_in g' = []) /\
  (pool_in g <> [] ->
     newIn g' = newIn g /\ p ∈ pool_in g /\
     length (inHeap w') = length (inHeap w) /\
     S (length (pool_in g')) = length (pool_in g)) /\
  (exists b, inHeap w' !! p = Some b /\
     (pool_data g = [] ->
        newData g' = atomic_AddUint64 (newData g) 1 /\
        slice_cap (in_Data b) = bufferInitSize g /\ pool_data g' = []) /\
     (pool_data g <> [] ->
        newData g' = newData g /\ in_Data b ∈ pool_data g /\
        S (length (pool_data g')) = length (pool_data g))).
Proof.
  intros HG g g'. apply GetInBuffer_effect in HG as (b & d & w1 & w2 & E1 & E2 & Eb & ->).
  set (w0 := upd_pool _ (upd_pool _ w)) in E1.
  assert (Hb' : <[p := mkInBuffer d (ReadPos b) false]> (inHeap w2) !! p
                = Some (mkInBuffer d (ReadPos b) false))
    by (eapply lookup_stored; exact Eb).
  destruct (pool_in_Get_cases w0) as [[Hin E1']|(i & x & Hx & E1')];
    rewrite E1' in E1;
    (destruct (pool_data_Get_cases w1) as [[Hd E2']|(j & y & Hy & E2')];
     rewrite E2' in E2;
     [apply make_cap_0 in E2 as (-> & Hlen & Hcap) | injection E2 as <- <-]);
    injection E1 as <- <-;
    unfold g, g'; destruct w as [ih oh gp]; destruct gp; cbn in *; subst;
    rewrite ?length_insert, ?length_app; cbn [length];
    repeat match goal with
      | |- _ /\ _ => split
      | |- _ -> _ => intro
      | |- exists _, _ => eexists
      end;
    try reflexivity; try congruence; try lia; try eassumption;
    try (apply list_elem_of_lookup; eauto; fail).
  all: try (exfalso;
            match goal with
            | H1 : ?l = [], H2 : ?l !! _ = Some _ |- _ =>
                rewrite H1, lookup_nil in H2; discriminate H2
            end).
  all: cbn; try reflexivity; try congruence.
  all: eapply length_delete_lookup; eassumption.
Qed.



(** X15. Whatever the clients of the pool have done so far, an acquire
    never hands out an incoming buffer that is in use: the buffer it
    returns is another one than any buffer not marked freed, and every
    such buffer is afterwards as it was. *)
Theorem acquire_never_hands_out_a_live_buffer (acts : list action)
    (p : ptr) (b : InBuffer) (q : ptr) (w' : World) :
  let w := run acts initWorld in
  inHeap w !! p = Some b -> in_isFreed b = false ->
  GetInBuffer w = (Val q, w') ->
  q <> p /\ inHeap w' !! p = Some b.
Proof.
  intros w E F HG.
  assert (Hinv : pool_sound w) by apply run_sound, pool_inv_sound, pool_inv_init.
  apply GetInBuffer_effect in HG as (bq & d & w1 & w2 & E1 & E2 & Eb & ->).
  set (w0 := upd_pool _ (upd_pool _ w)) in E1.
  assert (Hh2 : inHeap w2 = inHeap w1).
  { destruct (pool_data_Get_cases w1) as [[_ E2']|(j & y & _ & E2')];
      rewrite E2' in E2.
    - apply make_cap_0 in E2 as (-> & _). reflexivity.
    - injection E2 as <- <-. reflexivity. }
  cbn [set_inHeap inHeap]. rewrite Hh2.
  destruct (pool_in_Get_cases w0) as [[_ E1']|(i & x & Hx & E1')];
    rewrite E1' in E1; injection E1 as <- <-; cbn [inHeap upd_pool].
  - pose proof (lookup_lt_Some _ _ _ E) as Hlt.
    assert (Hne : length (inHeap w) <> p) by lia.
    split; [exact Hne|].
    rewrite list_lookup_insert_ne by exact Hne.
    rewrite lookup_app_l by exact Hlt. exact E.
  - assert (Hin : x ∈ pool_in (globalPool w))
      by (apply list_elem_of_lookup; exists i; exact Hx).
    destruct (sound_in w Hinv x Hin) as (bx & Ex & Fx).
    assert (Hne : x <> p) by (intros ->; congruence).
    split; [exact Hne|].
    rewrite list_lookup_insert_ne by exact Hne. exact E.
Qed.

End Accounting.

(** ** Frames on the wire *)

Lemma InBuffer_Prepare_ok b size :
  0 <= size ->
  exists d, InBuffer_Prepare size b = (Val tt, in_set_Data d b) /\
            len d = Z.to_nat size /\ (len d <= length (arr d))%nat.
Proof.
  intros Hs. unfold InBuffer_Prepare, bind, get, put, make_len, reslice.
  destruct (Z.ltb_spec (slice_cap (in_Data b)) size) as [Hc|Hc].
  - replace (size <? 0) with false by (symmetry; apply Z.ltb_ge; lia).
    eexists. split; [reflexivity|]. cbn. rewrite length_replicate. lia.
  - replace (0 <=? size) with true by (symmetry; apply Z.leb_le; lia).
    replace (size <=? slice_cap (in_Data b)) with true by (symmetry; apply Z.leb_le; lia).
    eexists. split; [reflexivity|]. cbn [len arr].
    change (Z.to_nat 0) with 0%nat. rewrite drop_0, Z.sub_0_r.
    unfold slice_cap in Hc. lia.
Qed.

Lemma bytes_fill d got : length got = len d -> bytes (fill d got) = got.
Proof.
  intros E. unfold bytes, fill. cbn. rewrite <- E. apply take_app_length.
Qed.

Lemma read_payload_full c r b got rest :
  incoming c = got ++ rest -> length got = len (in_Data b) ->
  read_payload (mkReadState c r b) =
    (Val None,
     mkReadState (mkConn rest (closing c) (requests c ++ [length got])) r
       (in_set_Data (fill (in_Data b) got) b)).
Proof.
  intros Ei El. unfold read_payload, io_ReadFull, InBuffer_Get. cbn.
  rewrite Ei, <- El, length_app.
  replace (length got <=? length got + length rest)%nat with true
    by (symmetry; apply Nat.leb_le; lia).
  now rewrite take_app_length, drop_app_length.
Qed.

Lemma read_payload_short c r b :
  (length (incoming c) < len (in_Data b))%nat ->
  read_payload (mkReadState c r b) =
    (Val (Some (short_read_error c)),
     mkReadState (mkConn [] (closing c) (requests c ++ [len (in_Data b)])) r
       (in_set_Data (fill (in_Data b) (incoming c)) b)).
Proof.
  intros Hl. unfold read_payload, io_ReadFull, InBuffer_Get. cbn.
  replace (len (in_Data b) <=? length (incoming c))%nat with false
    by (symmetry; apply Nat.leb_gt; lia).
  reflexivity.
Qed.

(** A frame whose payload is there in full is read in two requests, the
    header and the payload. *)
Lemma ReadPacket_frame c r b hdr payload rest v :
  r_n r = 8 -> len (r_head r) = 8%nat ->
  incoming c = hdr ++ payload ++ rest -> length hdr = 8%nat ->
  Uint32 (r_bo r) (drop 4 hdr) = Some v ->
  to_int v = Z.of_nat (length payload) -> payload <> [] ->
  ~ (0 < maxsize (r_settings r) < to_int v) ->
  exists d,
    ReadPacket (mkReadState c r b) =
      (Val None,
       mkReadState (mkConn rest (closing c) (requests c ++ [8%nat; length payload]))
         (r_set_head (fill (r_head r) hdr) r) (in_set_Data d b)) /\
    bytes d = payload.
Proof.
  intros Hn Hl Ei Hh Hv Hz Hp Hm.
  unfold ReadPacket. unfold bind at 1.
  rewrite (read_header_full _ _ _ hdr (payload ++ rest)) by (auto; lia).
  unfold bind at 1. rewrite (decode_size_8 _ _ _ _ v) by auto.
  unfold bind at 1, get. cbn [reader r_set_head r_settings].
  rewrite (max_check_false _ _ Hm).
  replace (to_int v =? 0) with false
    by (symmetry; apply Z.eqb_neq; rewrite Hz; destruct payload; [easy|cbn; lia]).
  destruct (InBuffer_Prepare_ok b (to_int v) ltac:(lia)) as (d & EP & Hd & _).
  unfold bind, on_buffer, zoom. cbn [buffer]. rewrite EP.
  cbn [conn reader].
  rewrite (read_payload_full _ _ _ payload rest)
    by first [reflexivity | cbn; rewrite Hd, Hz; lia].
  exists (fill d payload). cbn. rewrite Hl, <- app_assoc. split; [reflexivity|].
  apply bytes_fill. rewrite Hd, Hz. lia.
Qed.

(** X16. A reader with the eight-byte header, given a source that holds
    four bytes of any content, the length of a non-empty payload as a
    [uint32] in its byte order, and the payload, returns without error
    with exactly the payload in the buffer; it takes the frame and
    nothing more from the source, in two requests of eight bytes and of
    the payload length. The first four bytes, where the writer puts the
    protocol id, are not looked at, and the cursor and the freed flag of
    the buffer stay as they were. *)
Theorem ReadPacket_reads_one_frame (c : Conn) (r : PNReader) (b : InBuffer)
    (idb payload rest : list byte) :
  r_n r = 8 -> len (r_head r) = 8%nat ->
  length idb = 4%nat -> payload <> [] ->
  Z.of_nat (length payload) < 2 ^ 32 ->
  ~ (0 < maxsize (r_settings r) < Z.of_nat (length payload)) ->
  incoming c =
    (idb ++ uint32_bytes (r_bo r) (Z.of_nat (length payload))) ++ payload ++ rest ->
  exists st,
    ReadPacket (mkReadState c r b) = (Val None, st) /\
    bytes (in_Data (buffer st)) = payload /\
    ReadPos (buffer st) = ReadPos b /\ in_isFreed (buffer st) = in_isFreed b /\
    incoming (conn st) = rest /\
    requests (conn st) = requests c ++ [8%nat; length payload].
Proof.
  intros Hn Hl Hi Hp Hlen Hm Ei.
  assert (Hz : to_int (Z.of_nat (length payload)) = Z.of_nat (length payload))
    by (apply to_int_small; lia).
  destruct (ReadPacket_frame c r b _ payload rest (Z.of_nat (length payload))
              Hn Hl Ei) as (d & E & Hd); auto.
  - rewrite length_app, Hi, uint32_bytes_length. reflexivity.
  - rewrite drop_app_length' by (symmetry; exact Hi).
    rewrite <- (app_nil_r (uint32_bytes _ _)).
    apply Uint32_uint32_bytes. lia.
  - now rewrite Hz.
  - eexists. split; [exact E|]. cbn. auto.
Qed.

(** X17. When the source ends before the payload is complete, ReadPacket
    returns the error of [io.ReadFull] after it has resized the buffer to
    the announced length: the end-of-file error when the source ended
    right behind the header, so that a frame cut there looks like a
    clean end of the stream; the unexpected end-of-file error when some
    of the payload came; the error of the transport otherwise. The bytes
    that came are at the head of the buffer, and the source is used
    up. *)
Theorem ReadPacket_short_payload (c : Conn) (r : PNReader) (b : InBuffer)
    (hdr got : list byte) (v : Z) :
  r_n r = 8 -> len (r_head r) = 8%nat ->
  incoming c = hdr ++ got -> length hdr = 8%nat ->
  Uint32 (r_bo r) (drop 4 hdr) = Some v ->
  ~ (0 < maxsize (r_settings r) < to_int v) ->
  Z.of_nat (length got) < to_int v ->
  exists st,
    ReadPacket (mkReadState c r b) =
      (Val (Some match closing c with
                 | EOF => match got with [] => EOF | _ :: _ => ErrUnexpectedEOF end
                 | e => e
                 end), st) /\
    slice_len (in_Data (buffer st)) = to_int v /\
    take (length got) (bytes (in_Data (buffer st))) = got /\
    incoming (conn st) = [] /\
    ReadPos (buffer st) = ReadPos b.
Proof.
  intros Hn Hl Ei Hh Hv Hm Hs.
  unfold ReadPacket. unfold bind at 1.
  rewrite (read_header_full _ _ _ hdr got) by (auto; lia).
  unfold bind at 1. rewrite (decode_size_8 _ _ _ _ v) by auto.
  unfold bind at 1, get. cbn [reader r_set_head r_settings].
  rewrite (max_check_false _ _ Hm).
  replace (to_int v =? 0) with false by (symmetry; apply Z.eqb_neq; lia).
  destruct (InBuffer_Prepare_ok b (to_int v) ltac:(lia)) as (d & EP & Hd & Hwf).
  unfold bind, on_buffer, zoom. cbn [buffer]. rewrite EP.
  cbn [conn reader].
  rewrite read_payload_short by (cbn; lia).
  eexists. split; [reflexivity|]. cbn.
  unfold slice_len, bytes, fill. cbn.
  repeat split; try lia.
  rewrite take_take, Nat.min_l by lia. apply take_app_length.
Qed.

Section Wire.
Context `{GoRuntime}.

(** X18. A payload framed by a writer and sent comes out of a reader of
    the same byte order: BeginPacket, the write of a non-empty payload
    shorter than 2^32 bytes, EndPacket and WritePacket to a connection
    that accepts it put one frame on the wire, of eight bytes more than
    the payload, and ReadPacket on a source that starts with that frame
    returns without error with the payload in the buffer and the rest of
    the source untouched. The size hint of BeginPacket, the state of the
    two buffers before, and the protocol ids of the writer and the
    reader do not matter. *)
Theorem packet_round_trip (w : PNWriter) (r : PNReader) (size : Z)
    (b0 : OutBuffer) (payload : list byte) (k : Sink) :
  w_n w = 8 -> r_n r = 8 -> len (r_head r) = 8%nat -> r_bo r = w_bo w ->
  payload <> [] -> Z.of_nat (length payload) < 2 ^ 32 ->
  ~ (0 < maxsize (w_settings w) < Z.of_nat (length payload)) ->
  ~ (0 < maxsize (r_settings r) < Z.of_nat (length payload)) ->
  room k = None ->
  exists b3 frame,
    (BeginPacket w size ;;; OutBuffer_Append payload ;;; EndPacket w) b0 = (Val tt, b3) /\
    WritePacket w b3 k = (Val None, mkSink (sent k ++ frame) None) /\
    length frame = (8 + length payload)%nat /\
    forall (c : Conn) (bin : InBuffer) (rest : list byte),
      incoming c = frame ++ rest ->
      exists st,
        ReadPacket (mkReadState c r bin) = (Val None, st) /\
        bytes (in_Data (buffer st)) = payload /\
        incoming (conn st) = rest.
Proof.
  intros Hw Hr Hl Hbo Hp Hlen Hmw Hmr Hk.
  destruct (BeginPacket_Append w size b0 payload Hw) as [tail Hd].
  assert (Hsize : to_int (Z.of_nat (8 + length payload) - 8) = Z.of_nat (length payload))
    by (rewrite to_int_small; lia).
  pose proof (EndPacket_stamps w _ (replicate 8 0) (payload ++ tail) _ Hw Hd
                eq_refl ltac:(lia) ltac:(now rewrite Hsize)) as HE.
  rewrite Hsize in HE.
  rewrite (to_uint32_small (Z.of_nat (length payload))) in HE by lia.
  set (idb := uint32_bytes (w_bo w) (to_uint32 (w_id w))) in *.
  set (szb := uint32_bytes (w_bo w) (Z.of_nat (length payload))) in *.
  assert (Hidb : length idb = 4%nat) by apply uint32_bytes_length.
  assert (Hszb : length szb = 4%nat) by apply uint32_bytes_length.
  eexists _, ((idb ++ szb) ++ payload). split; [|split; [|split]].
  - unfold bind at 1 2.
    unfold BeginPacket at 1, OutBuffer_Prepare2 at 1, modify at 1.
    unfold OutBuffer_Append at 1, modify at 1.
    unfold BeginPacket, OutBuffer_Prepare2, OutBuffer_Append, modify in HE.
    cbn [snd] in HE. exact HE.
  - unfold WritePacket, conn_Write, OutBuffer_Get. rewrite Hk.
    cbn [out_set_Data out_Data]. unfold bytes. cbn [len arr].
    replace (take (8 + length payload) (idb ++ szb ++ payload ++ tail))
      with ((idb ++ szb) ++ payload); [reflexivity|].
    rewrite !app_assoc. symmetry. apply take_app_length'.
    rewrite !length_app. lia.
  - rewrite !length_app. lia.
  - intros c bin rest Ei.
    assert (Hz : to_int (Z.of_nat (length payload)) = Z.of_nat (length payload))
      by (apply to_int_small; lia).
    destruct (ReadPacket_frame c r bin (idb ++ szb) payload rest
                (Z.of_nat (length payload)) Hr Hl) as (d & E & Hdb); auto.
    + now rewrite Ei, <- !app_assoc.
    + rewrite length_app. lia.
    + rewrite drop_app_length' by (symmetry; exact Hidb).
      rewrite <- (app_nil_r szb). unfold szb. rewrite Hbo.
      apply Uint32_uint32_bytes. lia.
    + now rewrite Hz.
    + eexists. split; [exact E|]. cbn. auto.
Qed.

End Wire.

Lemma Uint32_range bo b0 b1 b2 b3 t v :
  is_byte b0 -> is_byte b1 -> is_byte b2 -> is_byte b3 ->
  Uint32 bo (b0 :: b1 :: b2 :: b3 :: t) = Some v -> 0 <= v < 2 ^ 32.
Proof.
  unfold is_byte. intros H0 H1 H2 H3. cbn [Uint32].
  destruct bo; intros [= <-]; rewrite lor4 by assumption;
    change (2 ^ 8) with 256; change (2 ^ 16) with 65536;
    change (2 ^ 24) with 16777216; change (2 ^ 32) with 4294967296; lia.
Qed.

(** X19. A reader with the eight-byte header never panics on what the
    source delivers: whatever bytes come and wherever the source ends,
    ReadPacket returns, with an error or without. *)
Theorem ReadPacket_never_panics (c : Conn) (r : PNReader) (b : InBuffer) :
  r_n r = 8 -> len (r_head r) = 8%nat -> Forall is_byte (incoming c) ->
  exists o st, ReadPacket (mkReadState c r b) = (Val o, st).
Proof.
  intros Hn Hl Hb. unfold ReadPacket. unfold bind at 1.
  destruct (Nat.lt_ge_cases (length (incoming c)) 8) as [Hs|Hs].
  - rewrite read_header_short by lia. eauto.
  - rewrite <- (take_drop 8 (incoming c)) in Hb.
    apply Forall_app in Hb as [Hb _].
    assert (Hh : length (take 8 (incoming c)) = 8%nat) by (rewrite length_take; lia).
    rewrite (read_header_full _ _ _ (take 8 (incoming c)) (drop 8 (incoming c)))
      by (rewrite ?take_drop; auto; lia).
    destruct (take 8 (incoming c)) as [|a0 [|a1 [|a2 [|a3 [|a4 [|a5 [|a6 [|a7 [|? ?]]]]]]]]]
      eqn:Et; try discriminate Hh.
    destruct (Uint32 (r_bo r) (drop 4 [a0; a1; a2; a3; a4; a5; a6; a7])) as [v|] eqn:Ev;
      [|discriminate Ev].
    assert (Hv : 0 <= v < 2 ^ 32).
    { cbn [drop] in Ev. repeat (apply Forall_cons in Hb as [? Hb]).
      eapply Uint32_range; [| | | |exact Ev]; assumption. }
    unfold bind at 1. rewrite (decode_size_8 _ _ _ _ v) by auto.
    rewrite to_int_small by lia.
    unfold bind at 1, get. cbn [reader r_set_head r_settings].
    destruct (_ && _); [unfold ret; eauto|].
    destruct (v =? 0); [unfold ret; eauto|].
    destruct (InBuffer_Prepare_ok b v ltac:(lia)) as (d & EP & _).
    unfold bind, on_buffer, zoom. cbn [buffer]. rewrite EP.
    unfold read_payload. destruct (io_ReadFull _ _) as [[? ?] ?]. eauto.
Qed.

Lemma PutUint32_short bo off v s :
  (len s < off + 4)%nat -> PutUint32 bo off v s = (Panicked msg_index, s).
Proof.
  intros Hl. unfold PutUint32, bind, get.
  replace (len s <? off + 4)%nat with true by (symmetry; apply Nat.ltb_lt; lia).
  reflexivity.
Qed.

Lemma PutUint32_stores bo v s :
  (4 <= len s)%nat ->
  exists a, PutUint32 bo 0 v s = (Val tt, mkSlice a (len s)) /\
            (4 <= length (arr s) -> take 4 a = uint32_bytes bo v)%nat /\
            drop 4 a = drop 4 (arr s).
Proof.
  intros Hl. unfold PutUint32, bind, get.
  replace (len s <? 0 + 4)%nat with false by (symmetry; apply Nat.ltb_ge; lia).
  assert (Hu : exists c0 c1 c2 c3, uint32_bytes bo v = [c0; c1; c2; c3])
    by (destruct bo; cbn; eauto).
  destruct Hu as (c0 & c1 & c2 & c3 & ->).
  eexists. split; [reflexivity|].
  destruct (arr s) as [|x0 [|x1 [|x2 [|x3 l]]]]; cbn; split; try lia; auto.
Qed.

(** X20. EndPacket on a buffer that holds fewer than the eight header
    bytes, a buffer that BeginPacket did not prepare, panics on the
    index of the header: the maximum size does not stop it, a buffer of
    fewer than four bytes stays as it was, and one of four to seven
    bytes has the protocol id stamped over its first four bytes by the
    time of the panic. *)
Theorem EndPacket_without_header_room (w : PNWriter) (b : OutBuffer) :
  w_n w = 8 -> slice_len (out_Data b) < 8 ->
  exists b',
    EndPacket w b = (Panicked msg_index, b') /\
    (slice_len (out_Data b) < 4 -> b' = b) /\
    (4 <= slice_len (out_Data b) -> wf_slice (out_Data b) ->
       take 4 (bytes (out_Data b')) = uint32_bytes (w_bo w) (to_uint32 (w_id w)) /\
       drop 4 (bytes (out_Data b')) = drop 4 (bytes (out_Data b)) /\
       len (out_Data b') = len (out_Data b)).
Proof.
  intros Hn Hs. unfold slice_len in Hs.
  unfold EndPacket, bind at 1, get. rewrite Hn.
  unfold OutBuffer_Len, slice_len.
  rewrite to_int_small by lia.
  replace ((0 <? maxsize (w_settings w)) &&
           (maxsize (w_settings w) <? Z.of_nat (len (out_Data b)) - 8)) with false
    by (symmetry; apply andb_false_iff;
        destruct (Z.ltb_spec 0 (maxsize (w_settings w))); [right|now left];
        apply Z.ltb_ge; lia).
  change (8 =? 8) with true. cbv iota.
  unfold on_out_Data, zoom, OutBuffer_Get.
  destruct (Nat.lt_ge_cases (len (out_Data b)) 4) as [H4|H4].
  - unfold bind. cbv beta. rewrite PutUint32_short by lia.
    exists (out_set_Data (out_Data b) b). split; [reflexivity|].
    split; [intros _; now destruct b|]. lia.
  - destruct (PutUint32_stores (w_bo w) (to_uint32 (w_id w)) (out_Data b) H4)
      as (a & EP & Ht & Hd).
    unfold bind. cbv beta. rewrite EP. cbn [out_set_Data out_Data].
    unfold get, reslice_from, slice_len. cbn [len arr].
    replace ((0 <=? 4) && (4 <=? Z.of_nat (len (out_Data b)))) with true
      by (symmetry; apply andb_true_iff; split; apply Z.leb_le; lia).
    unfold ret. cbn [out_set_Data out_Data].
    rewrite PutUint32_short by (cbn; lia).
    eexists. split; [reflexivity|]. cbn [out_set_Data out_Data].
    split; [lia|]. intros _ Hwf. unfold wf_slice in Hwf.
    unfold bytes. cbn [len arr].
    split; [|split; [|reflexivity]].
    + rewrite take_take, Nat.min_l by lia. apply Ht. lia.
    + replace (len (out_Data b)) with (4 + (len (out_Data b) - 4))%nat by lia.
      rewrite <- !take_drop_commute. now rewrite Hd.
Qed.

(** * The theorems at concrete inputs *)

(** C4, as stated, fails for runes: the surrogate half U+D800 is a value
    of type rune, and it reads back as U+FFFD. *)
Lemma surrogate_rune_reads_back_as_RuneError :
  - 2 ^ 31 <= 0xD800 < 2 ^ 31 /\
  @round_trip stack_runtime _ (@OutBuffer_WriteRune stack_runtime 0xD800)
    InBuffer_ReadRune [] = Val 0xFFFD /\
  @round_trip stack_runtime _ (@OutBuffer_WriteRune stack_runtime 0xD800)
    InBuffer_ReadRune [] <> Val 0xD800.
Proof. split; [lia|]. split; [reflexivity|discriminate]. Qed.

Lemma codec_round_trip_witness :
  @round_trip stack_runtime _ (@OutBuffer_WriteUint32BE stack_runtime 0xDEADBEEF)
    InBuffer_ReadUint32BE [] = Val 0xDEADBEEF.
Proof.
  apply (proj2 (proj1 (proj2 (proj2 (proj2 (proj2 (proj2 (proj2 (proj2
           (@codec_round_trip stack_runtime [])))))))) 0xDEADBEEF ltac:(lia))).
Defined.

Lemma release_counts_and_recycles_witness :
  exists w', PutInBuffer 0%nat world_acquired = (Val tt, w') /\
             pool_in (globalPool w') = [0%nat] /\
             freeCount (globalPool w') = 1.
Proof.
  destruct (proj1 (release_counts_and_recycles world_acquired 0%nat) _ eq_refl)
    as (w' & E & Hf & _ & _ & _ & Hrec).
  exists w'. split; [exact E|]. split.
  - apply Hrec. vm_compute. discriminate.
  - exact Hf.
Defined.

Lemma broadcastFree_ignores_over_release_witness :
  fst (OutBuffer_broadcastFree 0%nat world_released) = Val tt.
Proof.
  destruct (broadcastFree_ignores_over_release world_released 0%nat _ eq_refl)
    as (_ & Hneg & _).
  rewrite Hneg; [reflexivity | reflexivity | vm_compute; discriminate].
Defined.

Lemma only_width_eight_is_implemented_witness :
  EndPacket (NewPNWriter 4 BigEndian 123) ten_bytes = (Panicked msg_unsupported, ten_bytes).
Proof.
  apply (proj1 (proj2 only_width_eight_is_implemented)).
  - vm_compute. discriminate.
  - vm_compute. intros [H _]. discriminate H.
Defined.

Lemma EndPacket_stamps_header_witness :
  exists b3,
    EndPacket writer123
      (snd (@OutBuffer_Append stack_runtime [1; 2; 3; 4; 5]
              (snd (BeginPacket writer123 5 (fresh_OutBuffer []))))) = (Val tt, b3) /\
    bytes (out_Data b3) = [0; 0; 0; 123; 0; 0; 0; 5; 1; 2; 3; 4; 5].
Proof.
  destruct (@EndPacket_stamps_header stack_runtime writer123 5 (fresh_OutBuffer [])
              [1; 2; 3; 4; 5] eq_refl ltac:(vm_compute; reflexivity))
    as (_ & _ & Hok).
  destruct Hok as (b3 & E & Hb & _).
  - vm_compute. intros [H _]. discriminate H.
  - exists b3. split; [exact E|]. rewrite Hb. reflexivity.
Defined.

Lemma ReadPacket_too_large_witness :
  ReadPacket (mkReadState conn101 reader100 used_InBuffer) =
    (Val (Some PacketTooLargeError),
     mkReadState (mkConn [7; 7; 7] EOF [8%nat])
       (r_set_head (mkSlice header101 8) reader100) used_InBuffer).
Proof.
  apply (proj1 (ReadPacket_too_large conn101 reader100 used_InBuffer
                  header101 [7; 7; 7] 101 eq_refl eq_refl eq_refl eq_refl eq_refl
                  ltac:(vm_compute; split; reflexivity))).
Defined.

Lemma ReadPacket_short_header_witness :
  fst (ReadPacket (mkReadState conn3 reader100 used_InBuffer)) = Val (Some ErrUnexpectedEOF)
  /\ buffer (snd (ReadPacket (mkReadState conn3 reader100 used_InBuffer))) = used_InBuffer.
Proof.
  destruct (ReadPacket_short_header conn3 reader100 used_InBuffer eq_refl eq_refl
              ltac:(vm_compute; lia) ltac:(discriminate)) as (e & E & Hio & _).
  rewrite E. cbn [fst snd buffer]. split; [|reflexivity].
  f_equal. rewrite <- Hio. reflexivity.
Defined.

Lemma ReadPacket_empty_payload_witness :
  ReadPacket (mkReadState conn0 reader100 used_InBuffer) =
    (Val None,
     mkReadState (mkConn [7; 7; 7] EOF [8%nat])
       (r_set_head (mkSlice header0 8) reader100) used_InBuffer).
Proof.
  apply (ReadPacket_empty_payload conn0 reader100 used_InBuffer header0 [7; 7; 7] 0
           eq_refl eq_refl eq_refl eq_refl eq_refl eq_refl).
Defined.

Lemma acquired_buffers_are_reset_witness :
  exists b,
    inHeap (snd (@GetInBuffer stack_runtime (@run stack_runtime one_round initWorld)))
      !! 0%nat = Some b /\
    ReadPos b = 0 /\ in_isFreed b = false /\ len (in_Data b) = 0%nat.
Proof.
  destruct (proj1 (@acquired_buffers_are_reset stack_runtime one_round) 0%nat
              (snd (@GetInBuffer stack_runtime (@run stack_runtime one_round initWorld))))
    as (b & E & F & L & Hpos); [vm_compute; reflexivity|].
  exists b. split; [exact E|]. split; [|split; [exact F | exact L]].
  apply Hpos. vm_compute. reflexivity.
Defined.

(** ** The further properties at concrete inputs *)

Lemma pool_size_get_set_witness :
  exists w1, PoolNewDataSize 8192 initWorld = (Val 4096, w1) /\
             PoolNewDataSize 0 w1 = (Val 8192, w1).
Proof.
  destruct (proj1 (proj2 (proj2 (pool_size_get_set initWorld 8192)) ltac:(lia)))
    as (w1 & E1 & E2 & _).
  exists w1. split; [exact E1 | exact E2].
Defined.

Lemma acquire_panics_on_negative_capacity_witness :
  fst (@GetInBuffer stack_runtime world_negative) = Panicked msg_makeslice_cap.
Proof.
  destruct (@acquire_panics_on_negative_capacity stack_runtime world_negative)
    as (w1 & w2 & E & _); [reflexivity | reflexivity |].
  rewrite E. reflexivity.
Defined.

Lemma InBuffer_Prepare_cases_witness :
  exists b', InBuffer_Prepare 3 used_InBuffer = (Val tt, b') /\
             bytes (in_Data b') = [1; 2; 3].
Proof.
  destruct (proj1 (proj2 (InBuffer_Prepare_cases used_InBuffer 3)))
    as (b' & E & _ & _ & _ & _ & Hb); [vm_compute; easy|].
  exists b'. split; [exact E | exact Hb].
Defined.

Lemma writes_accumulate_witness :
  bytes (out_Data (snd (@OutBuffer_Append stack_runtime [3]
                          (snd (@OutBuffer_Append stack_runtime [1; 2]
                                  (fresh_OutBuffer []))))))
  = [1; 2; 3].
Proof.
  apply (proj1 (proj2 (@writes_accumulate stack_runtime (fresh_OutBuffer []) [1; 2] [3]
                         (le_n 0)))).
Defined.

Lemma OutBuffer_Prepare_reserves_witness :
  exists b1, OutBuffer_Prepare 4 (fresh_OutBuffer []) = (Val tt, b1) /\
             slice_cap (out_Data b1) = 4.
Proof.
  destruct (@OutBuffer_Prepare_reserves stack_runtime (fresh_OutBuffer []) 4 [1; 2; 3])
    as (b1 & E & _ & _ & _ & _ & Hc & _);
    [right; vm_compute; easy | vm_compute; easy |].
  exists b1. split; [exact E | exact Hc].
Defined.

Lemma reads_are_bounded_by_capacity_witness :
  InBuffer_Slice 2 used_InBuffer = (Val [1; 2], in_set_ReadPos 2 used_InBuffer).
Proof.
  apply (proj1 (reads_are_bounded_by_capacity used_InBuffer 2
                  ltac:(vm_compute; easy) ltac:(vm_compute; easy)));
    vm_compute; easy.
Defined.

Lemma ReadRune_stays_within_length_witness :
  exists x size,
    InBuffer_ReadRune used_InBuffer =
      (Val x, in_set_ReadPos (ReadPos used_InBuffer + size) used_InBuffer) /\
    0 <= size <= 4.
Proof.
  destruct (ReadRune_stays_within_length used_InBuffer) as [Hin _];
    [vm_compute; lia | vm_compute; easy |].
  destruct Hin as (x & size & E & Hs & _); [vm_compute; easy|].
  exists x, size. split; [exact E | exact Hs].
Defined.

Lemma Read_copies_what_fits_witness :
  exists dst',
    InBuffer_Read (mkSlice [0; 0] 2) used_InBuffer =
      (Val (dst', 2, None), in_set_ReadPos 2 used_InBuffer) /\
    bytes dst' = [1; 2].
Proof.
  destruct (Read_copies_what_fits used_InBuffer (mkSlice [0; 0] 2))
    as (_ & Hin & _);
    [vm_compute; lia | vm_compute; lia | vm_compute; easy | vm_compute; easy
    | vm_compute; easy |].
  destruct Hin as (dst' & E & _ & Hb); [vm_compute; easy|].
  exists dst'. split; [exact E | exact Hb].
Defined.

Lemma fields_read_back_in_order_witness :
  fst (read_message 2
         (InBuffer_on
            (bytes (out_Data (snd (@write_message stack_runtime 1 2 "hi" 3 65
                                     (fresh_OutBuffer []))))))) =
  Val (1, 2, "hi"%string, 3, 65).
Proof.
  destruct (@fields_read_back_in_order stack_runtime [] 1 2 "hi" 3 65)
    as (b' & E & _);
    [vm_compute; easy | vm_compute; easy | vm_compute; easy
    | left; vm_compute; easy | vm_compute; easy |].
  exact (f_equal fst E).
Defined.

Lemma relayed_integers_keep_their_bytes_witness :
  @relay stack_runtime InBuffer_ReadUint32BE (@OutBuffer_WriteUint32BE stack_runtime)
    [1; 2; 3; 4] [] = Val [1; 2; 3; 4].
Proof.
  apply (@relayed_integers_keep_their_bytes stack_runtime 1 2 3 4 5 6 7 8 []
           ltac:(unfold is_byte; lia) ltac:(unfold is_byte; lia)
           ltac:(unfold is_byte; lia) ltac:(unfold is_byte; lia)
           ltac:(unfold is_byte; lia) ltac:(unfold is_byte; lia)
           ltac:(unfold is_byte; lia) ltac:(unfold is_byte; lia)).
Defined.

Lemma balanced_broadcast_frees_once_witness :
  fst ((repeat_M 3 (OutBuffer_broadcastUse 0%nat) ;;;
        repeat_M 3 (OutBuffer_broadcastFree 0%nat)) world_broadcast) = Val tt.
Proof.
  destruct (balanced_broadcast_frees_once world_broadcast 0%nat _ 2
              eq_refl eq_refl eq_refl eq_refl ltac:(vm_compute; easy))
    as (_ & E & Hv).
  exact (eq_trans (f_equal fst E) Hv).
Defined.

Lemma second_free_after_recycling_panics_witness :
  exists w1, InBuffer_Free 0%nat world_acquired = (Val tt, w1) /\
             InBuffer_Free 0%nat w1 = (Panicked msg_in_double_free, w1).
Proof.
  destruct (proj1 (second_free_after_recycling_panics world_acquired 0%nat) _ eq_refl)
    as (w1 & E1 & _ & E2); [reflexivity | vm_compute; easy |].
  exists w1. split; [exact E1 | exact E2].
Defined.

Lemma acquire_accounting_witness :
  newIn (globalPool (snd (@GetInBuffer stack_runtime initWorld))) = 1 /\
  newData (globalPool (snd (@GetInBuffer stack_runtime initWorld))) = 1.
Proof.
  destruct (@acquire_accounting stack_runtime initWorld 0%nat
              (snd (@GetInBuffer stack_runtime initWorld)))
    as (_ & _ & _ & _ & _ & _ & Hin & _ & b & _ & Hd & _);
    [vm_compute; reflexivity|].
  split.
  - exact (proj1 (Hin eq_refl)).
  - exact (proj1 (Hd eq_refl)).
Defined.


Lemma ReadPacket_reads_one_frame_witness :
  exists st,
    ReadPacket (mkReadState conn_frame3 reader8 used_InBuffer) = (Val None, st) /\
    bytes (in_Data (buffer st)) = [7; 7; 7] /\ incoming (conn st) = [1].
Proof.
  destruct (ReadPacket_reads_one_frame conn_frame3 reader8 used_InBuffer
              [9; 9; 9; 9] [7; 7; 7] [1])
    as (st & E & Hb & _ & _ & Hi & _);
    [reflexivity | reflexivity | reflexivity | discriminate | vm_compute; easy
    | vm_compute; intros [H _]; discriminate H | reflexivity |].
  exists st. split; [exact E|]. split; [exact Hb | exact Hi].
Defined.

Lemma ReadPacket_short_payload_witness :
  exists st,
    ReadPacket (mkReadState conn101 reader8 used_InBuffer) =
      (Val (Some ErrUnexpectedEOF), st) /\
    slice_len (in_Data (buffer st)) = 101.
Proof.
  destruct (ReadPacket_short_payload conn101 reader8 used_InBuffer header101 [7; 7; 7] 101)
    as (st & E & Hl & _);
    [reflexivity | reflexivity | reflexivity | reflexivity | reflexivity
    | vm_compute; intros [H _]; discriminate H | vm_compute; easy |].
  exists st. split; [exact E | exact Hl].
Defined.

Lemma packet_round_trip_witness :
  exists b3 frame,
    (BeginPacket writer123 3 ;;; @OutBuffer_Append stack_runtime [7; 7; 7] ;;;
     EndPacket writer123) (fresh_OutBuffer []) = (Val tt, b3) /\
    WritePacket writer123 b3 open_sink = (Val None, mkSink (sent open_sink ++ frame) None) /\
    length frame = 11%nat.
Proof.
  destruct (@packet_round_trip stack_runtime writer123 reader8 3 (fresh_OutBuffer [])
              [7; 7; 7] open_sink)
    as (b3 & frame & E1 & E2 & Hl & _);
    [reflexivity | reflexivity | reflexivity | reflexivity | discriminate
    | vm_compute; easy
    | vm_compute; intros [H _]; discriminate H
    | vm_compute; intros [H _]; discriminate H
    | reflexivity |].
  exists b3, frame. split; [exact E1|]. split; [exact E2 | exact Hl].
Defined.

Lemma ReadPacket_never_panics_witness :
  exists o st, ReadPacket (mkReadState conn_frame3 reader8 used_InBuffer) = (Val o, st).
Proof.
  apply ReadPacket_never_panics; try reflexivity.
  repeat constructor; unfold is_byte; lia.
Defined.

Lemma EndPacket_without_header_room_witness :
  exists b', EndPacket writer123 (fresh_OutBuffer []) = (Panicked msg_index, b').
Proof.
  destruct (EndPacket_without_header_room writer123 (fresh_OutBuffer []))
    as (b' & E & _); [reflexivity | vm_compute; easy |].
  exists b'. exact E.
Defined.

Lemma acquire_never_hands_out_a_live_buffer_witness :
  pool_in (globalPool world_pooled) = [1%nat] /\
  fst (@GetInBuffer stack_runtime world_pooled) = Val 1%nat /\
  1%nat <> 0%nat /\
  inHeap (snd (@GetInBuffer stack_runtime world_pooled)) !! 0%nat = Some live_in16.
Proof.
  split; [reflexivity|]. split; [vm_compute; reflexivity|].
  apply (@acquire_never_hands_out_a_live_buffer stack_runtime
           [ActNewDataSize 16; ActNewIn; ActNewIn; ActFreeIn 1%nat] 0%nat live_in16 1%nat
           (snd (@GetInBuffer stack_runtime world_pooled))
           ltac:(vm_compute; reflexivity) eq_refl
           ltac:(vm_compute; reflexivity)).
Defined.
